(** * nostr-research-relay: event admission, payment gate and subscriptions

    A shallow embedding of the relay core:
    - [src/utils/crypto.ts]       (event hash, identity check, content size),
    - [src/services/pricing.ts]   (flat-rate pricing) and its per-megabyte
                                  predecessor,
    - [src/db/sqlite.ts]          (events, research_papers, lightning_invoices
                                  and relay_config tables),
    - [src/services/lightning.ts] (invoice status check),
    - [src/routes/api.ts]         (payment check and paper status routes),
    - the [NostrService] class    (message dispatch, admission, subscription
                                  registry, broadcast).

    Conventions.  JavaScript strings are modelled as byte strings holding the
    UTF-8 encoding of the text, so that [Buffer.byteLength(s, 'utf8')] is the
    length of the string.  JavaScript numbers that the code only ever uses
    as integers are [Z]; a number produced by [parseInt] is a [JsNum], which
    adds [NaN].  Numbers are doubles in the source: an integer is held
    exactly, printed in decimal and read back by [parseInt] as itself as long
    as it is a safe integer ([Js.safe_integer], magnitude below [2^53]), and
    the arithmetic of the per-megabyte prices is exact as long as its
    products stay below [2^53]; the theorems that depend on numbers carry
    these bounds.  Every [async] handler is run to completion as one atomic
    step on the relay state.  The database calls fail where the arguments or
    the state force a failure (an invalid date, a UNIQUE constraint, a
    statement beyond the limits of SQLite); failures of the environment
    (disk, network) are outside the model. *)

From Stdlib Require Import Ascii String ZArith QArith Qround Lia Sorted.
From stdpp Require Import base decidable option list strings gmap pretty.

Local Open Scope string_scope.
Local Open Scope list_scope.
Local Open Scope Z_scope.

(** ** JavaScript values *)

Module Js.

(** A number that may be [NaN]. *)
Inductive JsNum : Type :=
| NaN
| Num (z : Z).

#[global] Instance JsNum_eq_dec : EqDecision JsNum.
Proof. solve_decision. Defined.

(** [Number.MAX_SAFE_INTEGER], [2^53 - 1]: up to this magnitude every
    integer is a double, prints in decimal and is read back unchanged. *)
Definition MAX_SAFE_INTEGER : Z := 9007199254740991.

Definition safe_integer (z : Z) : Prop :=
  - MAX_SAFE_INTEGER <= z <= MAX_SAFE_INTEGER.

(** A number that is [NaN] or a safe integer. *)
Definition safe (n : JsNum) : Prop :=
  match n with
  | NaN => True
  | Num z => safe_integer z
  end.

(** [new Date(t)] is a valid date when [|t| <= 8.64e15] milliseconds; on
    an invalid date [toISOString] throws a [RangeError]. *)
Definition valid_date (t : Z) : bool :=
  (-8640000000000000 <=? t) && (t <=? 8640000000000000).

(** [a > b]: false as soon as one side is [NaN]. *)
Definition num_gt (a b : JsNum) : bool :=
  match a, b with
  | Num x, Num y => y <? x
  | _, _ => false
  end.

(** [a < b]. *)
Definition num_lt (a b : JsNum) : bool :=
  match a, b with
  | Num x, Num y => x <? y
  | _, _ => false
  end.

(** Template-literal rendering [`${n}`]. *)
Definition num_to_string (n : JsNum) : string :=
  match n with
  | NaN => "NaN"
  | Num z => pretty z
  end.

(** Truthiness of an optional number: [undefined], [0] and [NaN] are
    falsy. *)
Definition truthy_num (o : option Z) : bool :=
  match o with
  | Some z => negb (z =? 0)
  | None => false
  end.

(** Truthiness of an optional string: [undefined] and [''] are falsy. *)
Definition truthy_str (o : option string) : option string :=
  match o with
  | Some s => if String.eqb s "" then None else Some s
  | None => None
  end.

(** [o || d] on an optional string. *)
Definition or_default (o : option string) (d : string) : string :=
  match truthy_str o with
  | Some s => s
  | None => d
  end.

Definition is_space (c : ascii) : bool :=
  let n := nat_of_ascii c in
  orb (Nat.eqb n 32) (andb (Nat.leb 9 n) (Nat.leb n 13)).

Fixpoint trim_start (s : string) : string :=
  match s with
  | String c r => if is_space c then trim_start r else s
  | EmptyString => s
  end.

(** Value of a digit in the given radix (10 or 16). *)
Definition digit_val (radix : Z) (c : ascii) : option Z :=
  let n := Z.of_nat (nat_of_ascii c) in
  let v :=
    if (48 <=? n) && (n <=? 57) then Some (n - 48)
    else if (97 <=? n) && (n <=? 102) then Some (n - 87)
    else if (65 <=? n) && (n <=? 70) then Some (n - 55)
    else None in
  match v with
  | Some d => if d <? radix then Some d else None
  | None => None
  end.

(** Longest prefix of digits; [None] when there is no digit at all. *)
Fixpoint parse_digits (radix : Z) (s : string) (acc : option Z) : option Z :=
  match s with
  | String c r =>
      match digit_val radix c with
      | Some d =>
          parse_digits radix r
            (Some (match acc with Some a => a * radix + d | None => d end))
      | None => acc
      end
  | EmptyString => acc
  end.

(** [parseInt(s)] without a radix argument: leading white space, an
    optional sign, an optional [0x] prefix, then digits.  The result is the
    integer the digits denote, which is what the source computes as long as
    it is a safe integer. *)
Definition parseInt (s : string) : JsNum :=
  let s := trim_start s in
  let '(neg, s) :=
    match s with
    | String "-" r => (true, r)
    | String "+" r => (false, r)
    | _ => (false, s)
    end in
  let '(radix, s) :=
    match s with
    | String "0" (String "x" r) => (16, r)
    | String "0" (String "X" r) => (16, r)
    | _ => (10, s)
    end in
  match parse_digits radix s None with
  | Some v => Num (if neg : bool then - v else v)
  | None => NaN
  end.

End Js.
Export Js.

(** ** Data model *)

(** The [NostrEvent] interface of [types/nostr] (identity hash, author
    key, creation timestamp, kind, tags, content, signature). *)
Record NostrEvent : Type := mkEvent {
  id : string;
  pubkey : string;
  created_at : Z;
  kind : Z;
  tags : list (list string);
  content : string;
  sig : string
}.

#[global] Instance NostrEvent_eq_dec : EqDecision NostrEvent.
Proof. solve_decision. Defined.

(** The [NostrFilter] interface of [types/nostr]; every constraint is
    optional.  The tag constraints ([#e], [#p], [#a], [#d]) are read by no
    code and are left out. *)
Record NostrFilter : Type := mkFilter {
  ids : option (list string);
  authors : option (list string);
  kinds : option (list Z);
  since : option Z;
  until : option Z;
  limit : option Z
}.

(** The lifecycle states of a paper record ([ResearchPaper['status']] of
    [types/nostr]). *)
Inductive PaperStatus : Type :=
| submitted
| under_review
| accepted
| rejected
| published.

#[global] Instance PaperStatus_eq_dec : EqDecision PaperStatus.
Proof. solve_decision. Defined.

(** A row of [research_papers] (the [ResearchPaper] interface of
    [types/nostr]).  The primary key [id] is a fresh random UUID in the code
    and is left out, as is the row's creation time; instants are milliseconds
    since the epoch. *)
Record ResearchPaper : Type := mkPaper {
  event_id : string;
  title : string;
  paper_authors : list string;
  abstract : string;
  status : PaperStatus;
  size_bytes : Z;
  payment_hash : option string;
  price_paid : option JsNum;
  published_at : option Z;
  reviewer_notes : option string;
  file_path : string
}.

(** A row of [lightning_invoices] (the [LightningInvoice] interface of
    [types/nostr]), keyed by its payment hash in the table. *)
Record LightningInvoice : Type := mkInvoice {
  payment_request : string;
  amount_sats : Z;
  description : string;
  expires_at : Z;
  paid : bool;
  paid_at : option Z
}.

(** ** [src/utils/crypto.ts] *)

Module Crypto.

(** *** [JSON.stringify] on the shapes the hash is taken over *)

Definition hex_digit (n : N) : ascii :=
  match n with
  | 0%N => "0" | 1%N => "1" | 2%N => "2" | 3%N => "3"
  | 4%N => "4" | 5%N => "5" | 6%N => "6" | 7%N => "7"
  | 8%N => "8" | 9%N => "9" | 10%N => "a" | 11%N => "b"
  | 12%N => "c" | 13%N => "d" | 14%N => "e" | _ => "f"
  end%char.

(** The one-character string holding a double quote (code 34). *)
Definition dquote : string := String (ascii_of_nat 34) "".

(** The escape of one character inside a JSON string literal. *)
Definition json_escape_char (c : ascii) : string :=
  let n := N_of_ascii c in
  if (n =? 34)%N then "\" +:+ dquote
  else if (n =? 92)%N then "\\"
  else if (n =? 8)%N then "\b"
  else if (n =? 12)%N then "\f"
  else if (n =? 10)%N then "\n"
  else if (n =? 13)%N then "\r"
  else if (n =? 9)%N then "\t"
  else if (n <? 32)%N then
    "\u00" +:+ String (hex_digit (n / 16)) (String (hex_digit (n mod 16)) "")
  else String c "".

Fixpoint json_escape (s : string) : string :=
  match s with
  | String c r => json_escape_char c +:+ json_escape r
  | EmptyString => ""
  end.

Definition json_string (s : string) : string :=
  dquote +:+ json_escape s +:+ dquote.

(** The JSON values that occur in the hashed array. *)
#[warnings="-register-all"] Inductive json : Type :=
| JNum (z : Z)
| JStr (s : string)
| JArr (items : list json).

(** [JSON.stringify]: no white space, elements separated by commas.  A
    safe integer prints in decimal (a number from [1e21] on prints with an
    exponent in the source; the theorems about the serialization are stated
    for safe integers). *)
Fixpoint stringify (j : json) : string :=
  match j with
  | JNum z => pretty z
  | JStr s => json_string s
  | JArr items => "[" +:+ String.concat "," (map stringify items) +:+ "]"
  end.

(** *** The digest *)

(** [createHash('sha256').update(s).digest('hex')] of Node's [crypto]
    module: an external function from strings to hexadecimal strings. *)
Class Sha256 : Type := sha256_hex : string -> string.

Section WithDigest.

Context `{Sha256}.

(** The array the hash is taken over. *)
Definition event_array (event : NostrEvent) : json :=
  JArr [ JNum 0;
         JStr (pubkey event);
         JNum (created_at event);
         JNum (kind event);
         JArr (map (fun tag => JArr (map JStr tag)) (tags event));
         JStr (content event) ].

Definition getEventHash (event : NostrEvent) : string :=
  let serialized := stringify (event_array event) in
  sha256_hex serialized.

Definition validateEventSignature (event : NostrEvent) : bool :=
  let expectedId := getEventHash event in
  String.eqb (id event) expectedId.

End WithDigest.

Definition calculateContentSize (content : string) : Z :=
  Z.of_nat (String.length content).

(** *** Reading back one escaped character (used to show that the
    serialization is unambiguous) *)

Definition hex_val (c : ascii) : option N :=
  let n := N_of_ascii c in
  if ((48 <=? n) && (n <=? 57))%N then Some (n - 48)%N
  else if ((97 <=? n) && (n <=? 102))%N then Some (n - 87)%N
  else None.

(** The first character of a JSON string body and what follows it;
    [None] at the closing quote or on a malformed escape. *)
Definition unescape_char (s : string) : option (ascii * string) :=
  match s with
  | String c r =>
      if (N_of_ascii c =? 34)%N then None
      else if (N_of_ascii c =? 92)%N then
        match r with
        | String d r' =>
            if (N_of_ascii d =? 34)%N then Some (ascii_of_N 34, r')
            else if (N_of_ascii d =? 92)%N then Some (ascii_of_N 92, r')
            else if (N_of_ascii d =? 98)%N then Some (ascii_of_N 8, r')
            else if (N_of_ascii d =? 102)%N then Some (ascii_of_N 12, r')
            else if (N_of_ascii d =? 110)%N then Some (ascii_of_N 10, r')
            else if (N_of_ascii d =? 114)%N then Some (ascii_of_N 13, r')
            else if (N_of_ascii d =? 116)%N then Some (ascii_of_N 9, r')
            else if (N_of_ascii d =? 117)%N then
              match r' with
              | String _ (String _ (String h (String l r''))) =>
                  match hex_val h, hex_val l with
                  | Some a, Some b => Some (ascii_of_N (a * 16 + b), r'')
                  | _, _ => None
                  end
              | _ => None
              end
            else None
        | EmptyString => None
        end
      else Some (c, r)
  | EmptyString => None
  end.

Definition is_digit (c : ascii) : bool :=
  ((48 <=? N_of_ascii c) && (N_of_ascii c <=? 57))%N.

Fixpoint all_digits (s : string) : bool :=
  match s with
  | String c r => is_digit c && all_digits r
  | EmptyString => true
  end.

(** The text after a serialized value never starts with a digit: it is
    empty or starts with a separator. *)
Definition no_digit_head (s : string) : bool :=
  match s with
  | String c _ => negb (is_digit c)
  | EmptyString => true
  end.

(** The text that follows the first element of an array whose remaining
    elements are [l]: separators, elements, and the closing bracket. *)
Fixpoint closing (l : list string) (r : string) : string :=
  match l with
  | [] => "]" +:+ r
  | x :: l' => "," +:+ x +:+ closing l' r
  end.

(** The kind of JSON value a text starts with: 0 for a number, 1 for a
    string, 2 for an array, 3 for anything else. *)
Definition head_class (s : string) : nat :=
  match s with
  | String c _ =>
      if is_digit c || Ascii.eqb c "-" then 0%nat
      else if Ascii.eqb c (ascii_of_nat 34) then 1%nat
      else if Ascii.eqb c "[" then 2%nat
      else 3%nat
  | EmptyString => 3%nat
  end.

Definition json_class (j : json) : nat :=
  match j with
  | JNum _ => 0%nat
  | JStr _ => 1%nat
  | JArr _ => 2%nat
  end.

(** A non-empty string of decimal digits. *)
Definition digits (s : string) : Prop := all_digits s = true /\ s <> "".

(** A value's serialization can be read off the front of a text in one
    way only. *)
Definition prefix_free (j : json) : Prop :=
  forall j2 r1 r2,
    no_digit_head r1 = true -> no_digit_head r2 = true ->
    stringify j +:+ r1 = stringify j2 +:+ r2 -> j = j2 /\ r1 = r2.

End Crypto.
Export Crypto.

(** ** Relay state and the handler monad *)

(** Messages the relay sends to a client. *)
Inductive RelayMessage : Type :=
| OK (eventId : string) (success : bool) (reason : string)
| EVENT (subscriptionId : string) (event : NostrEvent)
| EOSE (subscriptionId : string)
| NOTICE (text : string).

#[global] Instance RelayMessage_eq_dec : EqDecision RelayMessage.
Proof. solve_decision. Defined.

(** A web socket is identified by a number; a delivery is a message
    written to a socket. *)
Definition WebSocket : Type := nat.
Definition Delivery : Type := (WebSocket * RelayMessage)%type.

(** An entry of [NostrService.subscriptions]. *)
Record Subscription : Type := mkSub {
  ws : WebSocket;
  filters : list NostrFilter
}.

(** The four tables of [sqlite.ts], the files of the storage service, the
    subscription registry (a JavaScript [Map], so insertion-ordered with
    unique keys) and the set of sockets whose [readyState] is [OPEN]. *)
Record RelayState : Type := mkState {
  events : list NostrEvent;
  research_papers : list ResearchPaper;
  lightning_invoices : gmap string LightningInvoice;
  relay_config : gmap string string;
  storage_files : gmap string string;
  subscriptions : list (string * Subscription);
  open_sockets : gset WebSocket
}.

Definition set_events (f : list NostrEvent -> list NostrEvent) (st : RelayState) :=
  mkState (f (events st)) (research_papers st) (lightning_invoices st)
    (relay_config st) (storage_files st) (subscriptions st) (open_sockets st).

Definition set_research_papers (f : list ResearchPaper -> list ResearchPaper)
    (st : RelayState) :=
  mkState (events st) (f (research_papers st)) (lightning_invoices st)
    (relay_config st) (storage_files st) (subscriptions st) (open_sockets st).

Definition set_lightning_invoices
    (f : gmap string LightningInvoice -> gmap string LightningInvoice)
    (st : RelayState) :=
  mkState (events st) (research_papers st) (f (lightning_invoices st))
    (relay_config st) (storage_files st) (subscriptions st) (open_sockets st).

Definition set_relay_config (f : gmap string string -> gmap string string)
    (st : RelayState) :=
  mkState (events st) (research_papers st) (lightning_invoices st)
    (f (relay_config st)) (storage_files st) (subscriptions st) (open_sockets st).

Definition set_storage_files (f : gmap string string -> gmap string string)
    (st : RelayState) :=
  mkState (events st) (research_papers st) (lightning_invoices st)
    (relay_config st) (f (storage_files st)) (subscriptions st) (open_sockets st).

Definition set_subscriptions
    (f : list (string * Subscription) -> list (string * Subscription))
    (st : RelayState) :=
  mkState (events st) (research_papers st) (lightning_invoices st)
    (relay_config st) (storage_files st) (f (subscriptions st)) (open_sockets st).

Module Handler.

(** How a call ends: with a value, or with a thrown exception. *)
Inductive Completion (A : Type) : Type :=
| Returned (a : A)
| Thrown.
Arguments Returned {A} a.
Arguments Thrown {A}.

(** A handler transforms the state and writes deliveries; what it did
    before throwing stays done. *)
Definition M (A : Type) : Type :=
  RelayState -> Completion A * RelayState * list Delivery.

Definition ret {A} (a : A) : M A := fun st => (Returned a, st, []).

Definition bind {A B} (m : M A) (k : A -> M B) : M B :=
  fun st =>
    match m st with
    | (Returned a, st1, out1) =>
        let '(r, st2, out2) := k a st1 in (r, st2, out1 ++ out2)
    | (Thrown, st1, out1) => (Thrown, st1, out1)
    end.

Definition throw {A} : M A := fun st => (Thrown, st, []).

(** [try { m } catch { h }]. *)
Definition try_catch {A} (m : M A) (h : M A) : M A :=
  fun st =>
    match m st with
    | (Returned a, st1, out1) => (Returned a, st1, out1)
    | (Thrown, st1, out1) =>
        let '(r, st2, out2) := h st1 in (r, st2, out1 ++ out2)
    end.

Definition gets {A} (f : RelayState -> A) : M A :=
  fun st => (Returned (f st), st, []).

Definition modify (f : RelayState -> RelayState) : M unit :=
  fun st => (Returned tt, f st, []).

Definition emit (d : Delivery) : M unit :=
  fun st => (Returned tt, st, [d]).

(** [for (const x of l) { body(x) }]. *)
Fixpoint for_each {A} (l : list A) (body : A -> M unit) : M unit :=
  match l with
  | [] => ret tt
  | x :: r => bind (body x) (fun _ => for_each r body)
  end.

(** State and deliveries of a run. *)
Definition state_of {A} (r : Completion A * RelayState * list Delivery) :=
  snd (fst r).
Definition sent {A} (r : Completion A * RelayState * list Delivery) :=
  snd r.
Definition completion {A} (r : Completion A * RelayState * list Delivery) :=
  fst (fst r).

(** The value of a run that returned. *)
Definition returned {A} (r : Completion A * RelayState * list Delivery) : option A :=
  match completion r with
  | Returned a => Some a
  | Thrown => None
  end.

End Handler.
Export Handler.

Declare Scope handler_scope.
Delimit Scope handler_scope with handler.
Notation "x <- m ;; k" := (bind m (fun x => k))
  (at level 100, m at next level, right associativity) : handler_scope.
Notation "m ;; k" := (bind m (fun _ => k))
  (at level 100, right associativity) : handler_scope.
Local Open Scope handler_scope.

(** ** [src/db/sqlite.ts] *)

Module Db.

(** [INSERT OR IGNORE INTO events]: the primary key is [id]. *)
Definition saveEvent (event : NostrEvent) : M unit :=
  modify (fun st =>
    if bool_decide (id event ∈ map id (events st)) then st
    else set_events (fun rows => rows ++ [event]) st).

(** The conditions one filter adds to the WHERE clause.  An absent or
    empty list adds none; an absent or zero bound adds none. *)
Definition filter_conditions (filter : NostrFilter) (row : NostrEvent) : bool :=
  match ids filter with
  | Some ((_ :: _) as l) => bool_decide (id row ∈ l)
  | _ => true
  end
  && match authors filter with
     | Some ((_ :: _) as l) => bool_decide (pubkey row ∈ l)
     | _ => true
     end
  && match kinds filter with
     | Some ((_ :: _) as l) => bool_decide (kind row ∈ l)
     | _ => true
     end
  && (if truthy_num (since filter)
      then default 0 (since filter) <=? created_at row else true)
  && (if truthy_num (until filter)
      then created_at row <=? default 0 (until filter) else true).

(** [WHERE 1=1 AND ...]: the loop over the filters appends every
    condition of every filter with [AND]. *)
Definition where_clause (filters : list NostrFilter) (row : NostrEvent) : bool :=
  forallb (fun filter => filter_conditions filter row) filters.

(** [ORDER BY created_at DESC], as a stable insertion sort. *)
Fixpoint insert_desc (row : NostrEvent) (sorted : list NostrEvent) : list NostrEvent :=
  match sorted with
  | [] => [row]
  | r :: rest =>
      if created_at r <=? created_at row then row :: sorted
      else r :: insert_desc row rest
  end.

Definition order_by_created_at_desc (rows : list NostrEvent) : list NostrEvent :=
  foldr insert_desc [] rows.

(** [LIMIT ?]; a negative limit is no limit in SQLite. *)
Definition sql_limit {A} (n : Z) (rows : list A) : list A :=
  if n <? 0 then rows else take (Z.to_nat n) rows.

(** The rows the query selects from the [events] table. *)
Definition select_events (filters : list NostrFilter) (limit : Z)
    (rows : list NostrEvent) : list NostrEvent :=
  sql_limit limit (order_by_created_at_desc (List.filter (where_clause filters) rows)).

(** The parameters the query binds: one per id, author and kind of every
    filter, one per bound that is not zero, and the limit. *)
Definition filter_parameters (filter : NostrFilter) : Z :=
  Z.of_nat (length (default [] (ids filter)))
  + Z.of_nat (length (default [] (authors filter)))
  + Z.of_nat (length (default [] (kinds filter)))
  + (if truthy_num (since filter) then 1 else 0)
  + (if truthy_num (until filter) then 1 else 0).

Definition bound_parameters (filters : list NostrFilter) : Z :=
  foldr (fun filter n => filter_parameters filter + n) 1 filters.

(** The conditions the query adds to [WHERE 1=1]: one per list that is
    present and not empty, one per bound that is not zero. *)
Definition filter_terms (filter : NostrFilter) : Z :=
  (if bool_decide (default [] (ids filter) = []) then 0 else 1)
  + (if bool_decide (default [] (authors filter) = []) then 0 else 1)
  + (if bool_decide (default [] (kinds filter) = []) then 0 else 1)
  + (if truthy_num (since filter) then 1 else 0)
  + (if truthy_num (until filter) then 1 else 0).

(** The depth of the expression [1=1 AND c1 AND ... AND cn], a chain that
    leans to the left over comparisons of depth 2.  (Recent versions of
    SQLite turn a list of one element into a comparison of depth 3, which
    makes the chain one deeper when it comes first; the theorems on
    successful queries keep below the limit by one for that reason.) *)
Definition expression_depth (filters : list NostrFilter) : Z :=
  foldr (fun filter n => filter_terms filter + n) 2 filters.

(** SQLite's limits on a statement: one that binds more parameters fails
    with "too many SQL variables", one with a deeper expression fails with
    "Expression tree is too large". *)
Definition SQLITE_MAX_VARIABLE_NUMBER : Z := 32766.
Definition SQLITE_MAX_EXPR_DEPTH : Z := 1000.

Definition query_fits (filters : list NostrFilter) : bool :=
  (bound_parameters filters <=? SQLITE_MAX_VARIABLE_NUMBER)
  && (expression_depth filters <=? SQLITE_MAX_EXPR_DEPTH).

(** [dbAll] rejects when the statement exceeds a limit of SQLite. *)
Definition getEvents (filters : list NostrFilter) (limit : Z) : M (list NostrEvent) :=
  if query_fits filters
  then gets (fun st => select_events filters limit (events st))
  else throw.

(** The row as the table holds it: a price that is [NaN] is stored as
    NULL. *)
Definition stored_paper (paper : ResearchPaper) : ResearchPaper :=
  mkPaper (event_id paper) (title paper) (paper_authors paper) (abstract paper)
    (status paper) (size_bytes paper) (payment_hash paper)
    (match price_paid paper with
     | Some NaN => None
     | price => price
     end)
    (published_at paper) (reviewer_notes paper) (file_path paper).

(** [paper.published_at ? paper.published_at.toISOString() : null] is
    evaluated first and throws on an invalid date; then comes a plain
    [INSERT INTO research_papers], which the UNIQUE constraint on [event_id]
    makes throw when a row for the event exists. *)
Definition saveResearchPaper (paper : ResearchPaper) : M unit :=
  match published_at paper with
  | Some instant => if valid_date instant then ret tt else throw
  | None => ret tt
  end;;
  taken <- gets (fun st =>
    bool_decide (event_id paper ∈ map event_id (research_papers st)));;
  if taken : bool then throw
  else modify (set_research_papers (fun rows => rows ++ [stored_paper paper])).

(** [UPDATE research_papers SET status, reviewer_notes, published_at
    WHERE event_id = ?]; [now] is [new Date()]. *)
Definition updatePaperStatus (eventId : string) (status' : PaperStatus)
    (reviewerNotes : option string) (now : Z) : M unit :=
  let publishedAt :=
    if decide (status' = published) then Some now else None in
  modify (set_research_papers (map (fun row =>
    if String.eqb (event_id row) eventId
    then mkPaper (event_id row) (title row) (paper_authors row) (abstract row)
           status' (size_bytes row) (payment_hash row) (price_paid row)
           publishedAt reviewerNotes (file_path row)
    else row))).

Definition getResearchPapers : M (list ResearchPaper) :=
  gets research_papers.

(** [INSERT OR IGNORE INTO lightning_invoices]; rows start unpaid. *)
Definition saveLightningInvoice (paymentHash : string) (invoice : LightningInvoice)
    : M unit :=
  modify (set_lightning_invoices (fun rows =>
    match rows !! paymentHash with
    | Some _ => rows
    | None =>
        <[paymentHash := mkInvoice (payment_request invoice) (amount_sats invoice)
                           (description invoice) (expires_at invoice) false None]> rows
    end)).

(** [UPDATE lightning_invoices SET paid = TRUE, paid_at = CURRENT_TIMESTAMP
    WHERE payment_hash = ?]. *)
Definition markInvoicePaid (paymentHash : string) (now : Z) : M unit :=
  modify (set_lightning_invoices (alter (fun row =>
    mkInvoice (payment_request row) (amount_sats row) (description row)
      (expires_at row) true (Some now)) paymentHash)).

Definition getInvoice (paymentHash : string) : M (option LightningInvoice) :=
  gets (fun st => lightning_invoices st !! paymentHash).

(** [row?.value || null]. *)
Definition getConfig (key : string) : M (option string) :=
  gets (fun st => truthy_str (relay_config st !! key)).

(** [INSERT OR REPLACE INTO relay_config]. *)
Definition setConfig (key value : string) : M unit :=
  modify (set_relay_config (insert key value)).

End Db.

(** ** [src/services/pricing.ts] *)

(** The numeric fields of [PriceCalculation]; the [description] text is
    not read by any caller and is left out. *)
Record PriceCalculation : Type := mkPrice {
  price_sats : JsNum;
  size_mb : Q;
  duration_years : Q
}.

Module Pricing.

(** Flat rate: the amount is the configured [flat_rate_sats], whatever the
    size and the duration. *)
Definition calculatePrice (sizeBytes : Z) (durationYears : Q) : M PriceCalculation :=
  cfg <- Db.getConfig "flat_rate_sats";;
  let flatRate := parseInt (or_default cfg "1") in
  let sizeMb := (inject_Z sizeBytes / inject_Z (1024 * 1024))%Q in
  ret (mkPrice flatRate sizeMb durationYears).

Definition calculateCommentPrice (sizeBytes : Z) : M PriceCalculation :=
  cfg <- Db.getConfig "flat_rate_sats";;
  let flatRate := parseInt (or_default cfg "1") in
  let sizeMb := (inject_Z sizeBytes / inject_Z (1024 * 1024))%Q in
  ret (mkPrice flatRate sizeMb 1%Q).

Definition updatePricing (pricePerMbYear pricePerCommentMb : option Z) : M unit :=
  match pricePerMbYear with
  | Some v => Db.setConfig "price_per_mb_year" (pretty v)
  | None => ret tt
  end;;
  match pricePerCommentMb with
  | Some v => Db.setConfig "price_per_comment_mb" (pretty v)
  | None => ret tt
  end.

(** The [PricingInfo] interface of [types/nostr]. *)
Record PricingInfo : Type := mkPricingInfo {
  price_per_mb_year : JsNum;
  price_per_comment_mb : JsNum;
  max_content_size : JsNum;
  storage_available_mb : Z
}.

(** Both rates shown are the flat rate; the available storage is the
    constant of [calculateAvailableStorage]. *)
Definition getPricingInfo : M PricingInfo :=
  flatRate <- Db.getConfig "flat_rate_sats";;
  maxContentSize <- Db.getConfig "max_content_size";;
  ret (mkPricingInfo (parseInt (or_default flatRate "1"))
         (parseInt (or_default flatRate "1"))
         (parseInt (or_default maxContentSize "52428800"))
         10240).

End Pricing.

(** The earlier pricing service (same class, per-megabyte rates).  The
    prices are computed on rationals, which is what the source computes on
    integer sizes, rates and durations whose products stay below [2^53]. *)
Module PricingPerMb.

(** A fractional number, [None] for [NaN]. *)
Definition to_Q (n : JsNum) : option Q :=
  match n with
  | Num z => Some (inject_Z z)
  | NaN => None
  end.

(** [Math.ceil]. *)
Definition math_ceil (x : option Q) : JsNum :=
  match x with
  | Some q => Num (Qceiling q)
  | None => NaN
  end.

Definition calculatePrice (sizeBytes : Z) (durationYears : Q) : M PriceCalculation :=
  cfg <- Db.getConfig "price_per_mb_year";;
  let pricePerMbYear := parseInt (or_default cfg "1000") in
  let sizeMb := (inject_Z sizeBytes / inject_Z (1024 * 1024))%Q in
  let amountSats :=
    math_ceil (option_map (fun rate => sizeMb * rate * durationYears)%Q
                 (to_Q pricePerMbYear)) in
  ret (mkPrice amountSats sizeMb durationYears).

(** [Math.max(amountSats, 1)]. *)
Definition max_one (n : JsNum) : JsNum :=
  match n with
  | Num z => Num (Z.max z 1)
  | NaN => NaN
  end.

Definition calculateCommentPrice (sizeBytes : Z) : M PriceCalculation :=
  cfg <- Db.getConfig "price_per_comment_mb";;
  let pricePerMb := parseInt (or_default cfg "100") in
  let sizeMb := (inject_Z sizeBytes / inject_Z (1024 * 1024))%Q in
  let amountSats :=
    math_ceil (option_map (fun rate => sizeMb * rate)%Q (to_Q pricePerMb)) in
  ret (mkPrice (max_one amountSats) sizeMb 1%Q).

(** [updatePricing] of the same class; a number is written in decimal
    ([toString] of an integer). *)
Definition updatePricing (pricePerMbYear pricePerCommentMb : option Z) : M unit :=
  match pricePerMbYear with
  | Some v => Db.setConfig "price_per_mb_year" (pretty v)
  | None => ret tt
  end;;
  match pricePerCommentMb with
  | Some v => Db.setConfig "price_per_comment_mb" (pretty v)
  | None => ret tt
  end.

End PricingPerMb.

(** ** [src/services/lightning.ts] *)

Module Lightning.

(** Which backend [initialize] selected: a wallet connection, the LND
    node, or mock mode (no wallet configured). *)
Inductive Backend : Type :=
| NWC
| LND
| Mock.

(** What the external payment backend answers to a lookup of a payment
    hash: whether the invoice is settled and when, or [None] when the
    request fails. *)
Definition Ledger : Type := string -> option (bool * option Z).

Record InvoiceStatus : Type := mkStatus {
  status_paid : bool;
  settled_at : option Z
}.

(** In mock mode every invoice is reported paid. *)
Definition checkMockInvoice (paymentHash : string) (now : Z) : InvoiceStatus :=
  mkStatus true (Some now).

(** A failed lookup is caught and reported as not paid. *)
Definition checkNWCInvoice (ledger : Ledger) (paymentHash : string) : InvoiceStatus :=
  match ledger paymentHash with
  | Some (settled, at_) => mkStatus settled at_
  | None => mkStatus false None
  end.

Definition checkInvoice (backend : Backend) (ledger : Ledger)
    (paymentHash : string) (now : Z) : InvoiceStatus :=
  match backend with
  | NWC => checkNWCInvoice ledger paymentHash
  | Mock => checkMockInvoice paymentHash now
  | LND =>
      match ledger paymentHash with
      | Some (settled, at_) => mkStatus settled at_
      | None => mkStatus false None
      end
  end.

(** [createMockInvoice]: [paymentHash] is the value [generatePaymentHash]
    drew and [now] is [Date.now()]; the result is the invoice and the hash it
    is stored under. *)
Definition createMockInvoice (amountSats : Z) (description : string) (expiry : Z)
    (paymentHash : string) (now : Z) : string * LightningInvoice :=
  let paymentRequest :=
    "lnbc" +:+ pretty amountSats +:+ "u1p" +:+ substring 0 10 paymentHash +:+ "mock" in
  (paymentHash,
   mkInvoice paymentRequest amountSats description (now + expiry * 1000) false None).

End Lightning.

(** ** The [NostrService] class *)

(** A parsed client message; [Malformed] stands for text that
    [JSON.parse] or the destructuring rejects. *)
Inductive ClientMessage : Type :=
| ClientEVENT (event : NostrEvent)
| ClientREQ (subscriptionId : string) (filters : list NostrFilter)
| ClientCLOSE (subscriptionId : string)
| ClientOther (type : string)
| Malformed.

Module Nostr.

(** [Map.prototype.set]: an existing key keeps its place. *)
Fixpoint map_set {V} (key : string) (v : V) (m : list (string * V)) : list (string * V) :=
  match m with
  | [] => [(key, v)]
  | (k, v') :: rest =>
      if String.eqb k key then (key, v) :: rest
      else (k, v') :: map_set key v rest
  end.

(** [Map.prototype.delete]. *)
Definition map_delete {V} (key : string) (m : list (string * V)) : list (string * V) :=
  List.filter (fun kv => negb (String.eqb (fst kv) key)) m.

(** [Map.prototype.get]. *)
Fixpoint map_get {V} (key : string) (m : list (string * V)) : option V :=
  match m with
  | [] => None
  | (k, v) :: rest => if String.eqb k key then Some v else map_get key rest
  end.

Definition sendMessage (ws : WebSocket) (message : RelayMessage) : M unit :=
  is_open <- gets (fun st => bool_decide (ws ∈ open_sockets st));;
  if is_open : bool then emit (ws, message) else ret tt.

Definition sendOK (ws : WebSocket) (eventId : string) (success : bool)
    (reason : string) : M unit :=
  sendMessage ws (OK eventId success reason).

Definition sendNotice (ws : WebSocket) (message : string) : M unit :=
  sendMessage ws (NOTICE message).

(** [tags.find(tag => tag[0] === tagName)], then [tag[1]]. *)
Definition getTagValue (tags : list (list string)) (tagName : string) : option string :=
  match List.find (fun tag =>
          match tag with
          | t0 :: _ => String.eqb t0 tagName
          | [] => false
          end) tags with
  | Some tag => nth_error tag 1
  | None => None
  end.

(** [list && !list.includes(x)]: an absent list excludes nothing, a
    present one (even empty) excludes what it does not hold. *)
Definition excludes {A} `{EqDecision A} (o : option (list A)) (x : A) : bool :=
  match o with
  | Some l => negb (bool_decide (x ∈ l))
  | None => false
  end.

(** The callback of [filters.some] in [eventMatchesFilters]. *)
Definition eventMatchesFilter (event : NostrEvent) (filter : NostrFilter) : bool :=
  if excludes (ids filter) (id event) then false
  else if excludes (authors filter) (pubkey event) then false
  else if excludes (kinds filter) (kind event) then false
  else if truthy_num (since filter)
          && (created_at event <? default 0 (since filter)) then false
  else if truthy_num (until filter)
          && (default 0 (until filter) <? created_at event) then false
  else true.

Definition eventMatchesFilters (event : NostrEvent) (filters : list NostrFilter) : bool :=
  existsb (eventMatchesFilter event) filters.

Definition broadcastEvent (event : NostrEvent) : M unit :=
  subs <- gets subscriptions;;
  for_each subs (fun entry =>
    let '(subId, sub) := entry in
    if eventMatchesFilters event (filters sub)
    then sendMessage (ws sub) (EVENT subId event)
    else ret tt).

(** [storage.saveResearchPaper] and [storage.saveComment]: the content is
    written under the event's name (the metadata header is left out). *)
Definition storage_saveResearchPaper (eventId content : string) : M unit :=
  modify (set_storage_files (insert ("papers/" +:+ eventId +:+ ".md") content)).

Definition storage_saveComment (eventId content : string) : M unit :=
  modify (set_storage_files (insert ("comments/" +:+ eventId +:+ ".txt") content)).

(** Each [sendOK(...); return;] of the source is a branch that ends the
    handler; [publish] is the code after the payment check, reached when the
    check passes or is skipped. *)
Definition handleResearchPaper (ws : WebSocket) (event : NostrEvent) : M unit :=
  let contentSize := calculateContentSize (content event) in
  cfg <- Db.getConfig "max_content_size";;
  let maxSize := parseInt (or_default cfg "52428800") in
  if num_gt (Num contentSize) maxSize then
    sendOK ws (id event) false "Content too large"
  else
    let title := or_default (getTagValue (tags event) "title") "Untitled" in
    let summary := or_default (getTagValue (tags event) "summary") "" in
    let paymentHash := getTagValue (tags event) "payment_hash" in
    priceInfo <- Pricing.calculatePrice contentSize 1%Q;;
    let publish :=
      Db.saveResearchPaper
        (mkPaper (id event) title [pubkey event] summary published contentSize
           paymentHash (Some (price_sats priceInfo))
           (Some (created_at event * 1000)) None
           ("./storage/" +:+ id event +:+ ".md"));;
      storage_saveResearchPaper (id event) (content event);;
      Db.saveEvent event;;
      sendOK ws (id event) true "Paper published successfully";;
      broadcastEvent event in
    if num_gt (price_sats priceInfo) (Num 0) then
      match truthy_str paymentHash with
      | None =>
          sendOK ws (id event) false
            ("Payment required: " +:+ num_to_string (price_sats priceInfo)
               +:+ " sats. Create invoice first.")
      | Some hash =>
          invoice <- Db.getInvoice hash;;
          match invoice with
          | None => sendOK ws (id event) false "Invalid payment hash"
          | Some inv =>
              if negb (paid inv) then
                sendOK ws (id event) false "Payment not completed"
              else if num_lt (Num (amount_sats inv)) (price_sats priceInfo) then
                sendOK ws (id event) false "Insufficient payment amount"
              else publish
          end
      end
    else publish.

Definition handleHighlight (ws : WebSocket) (event : NostrEvent) : M unit :=
  Db.saveEvent event;;
  sendOK ws (id event) true "";;
  broadcastEvent event.

Definition handleCommentReply (ws : WebSocket) (event : NostrEvent) : M unit :=
  let contentSize := calculateContentSize (content event) in
  commentPrice <- Pricing.calculateCommentPrice contentSize;;
  storage_saveComment (id event) (content event);;
  Db.saveEvent event;;
  sendOK ws (id event) true "";;
  broadcastEvent event;;
  sendMessage ws
    (NOTICE ("Comment posted. Fee: " +:+ num_to_string (price_sats commentPrice)
               +:+ " sats.")).

Definition handleReaction (ws : WebSocket) (event : NostrEvent) : M unit :=
  Db.saveEvent event;;
  sendOK ws (id event) true "";;
  broadcastEvent event.

Definition handleComment (ws : WebSocket) (event : NostrEvent) : M unit :=
  let contentSize := calculateContentSize (content event) in
  commentPrice <- Pricing.calculateCommentPrice contentSize;;
  sendMessage ws
    (NOTICE ("Comment price: " +:+ num_to_string (price_sats commentPrice)
               +:+ " sats. Use /get-comment-invoice endpoint to pay."));;
  storage_saveComment (id event) (content event);;
  Db.saveEvent event;;
  sendOK ws (id event) true "".

Section WithDigest.

Context `{Sha256}.

Definition handleEvent (ws : WebSocket) (event : NostrEvent) : M unit :=
  try_catch
    (if negb (validateEventSignature event) then
       sendOK ws (id event) false "Invalid signature"
     else if kind event =? 30023 then handleResearchPaper ws event
     else if kind event =? 9802 then handleHighlight ws event
     else if kind event =? 1 then handleCommentReply ws event
     else if kind event =? 7 then handleReaction ws event
     else if kind event =? 1111 then handleComment ws event
     else
       Db.saveEvent event;;
       sendOK ws (id event) true "";;
       broadcastEvent event)
    (sendOK ws (id event) false "Server error").

End WithDigest.

Definition handleRequest (ws : WebSocket) (subscriptionId : string)
    (filters : list NostrFilter) : M unit :=
  try_catch
    (modify (set_subscriptions (map_set subscriptionId (mkSub ws filters)));;
     events <- Db.getEvents filters 100;;
     for_each events (fun event => sendMessage ws (EVENT subscriptionId event));;
     sendMessage ws (EOSE subscriptionId))
    (sendNotice ws "Error processing request").

Definition handleClose (ws : WebSocket) (subscriptionId : string) : M unit :=
  modify (set_subscriptions (map_delete subscriptionId)).

Section WithDigest.

Context `{Sha256}.

Definition handleMessage (ws : WebSocket) (message : ClientMessage) : M unit :=
  try_catch
    match message with
    | ClientEVENT event => handleEvent ws event
    | ClientREQ subscriptionId filters => handleRequest ws subscriptionId filters
    | ClientCLOSE subscriptionId => handleClose ws subscriptionId
    | ClientOther type => sendNotice ws ("Unknown message type: " +:+ type)
    | Malformed => throw
    end
    (sendNotice ws "Invalid message format").

End WithDigest.

(** Remove all subscriptions for this connection. *)
Definition cleanup (ws' : WebSocket) : M unit :=
  modify (set_subscriptions
            (List.filter (fun entry => negb (Nat.eqb (ws (snd entry)) ws')))).

End Nostr.

(** The earlier [NostrService]: a paper is recorded as submitted and the
    price is only announced. *)
Module NostrLegacy.

Definition handleResearchPaper (ws : WebSocket) (event : NostrEvent) : M unit :=
  let contentSize := calculateContentSize (content event) in
  cfg <- Db.getConfig "max_content_size";;
  let maxSize := parseInt (or_default cfg "52428800") in
  if num_gt (Num contentSize) maxSize then
    Nostr.sendOK ws (id event) false "Content too large"
  else
    let title := or_default (Nostr.getTagValue (tags event) "title") "Untitled" in
    let summary := or_default (Nostr.getTagValue (tags event) "summary") "" in
    priceInfo <- PricingPerMb.calculatePrice contentSize 1%Q;;
    Db.saveResearchPaper
      (mkPaper (id event) title [pubkey event] summary submitted contentSize
         None None None None ("./storage/" +:+ id event +:+ ".md"));;
    Nostr.storage_saveResearchPaper (id event) (content event);;
    Nostr.sendMessage ws
      (NOTICE ("Paper submitted. Price: " +:+ num_to_string (price_sats priceInfo)
                 +:+ " sats. Use /get-invoice endpoint to pay."));;
    Nostr.sendOK ws (id event) true "".

End NostrLegacy.

(** ** [src/routes/api.ts] *)

Module Api.

Inductive Response : Type :=
| NotFound (error : string)
| BadRequest (error : string)
| PaymentStatus (paid : bool) (settled_at : option Z) (amount_sats expires_at : Z)
| Success.

(** [GET /payment/:payment_hash]. *)
Definition get_payment (backend : Lightning.Backend) (ledger : Lightning.Ledger)
    (now : Z) (payment_hash : string) : M Response :=
  invoice <- Db.getInvoice payment_hash;;
  match invoice with
  | None => ret (NotFound "Invoice not found")
  | Some inv =>
      let status := Lightning.checkInvoice backend ledger payment_hash now in
      (if Lightning.status_paid status && negb (paid inv)
       then Db.markInvoicePaid payment_hash now
       else ret tt);;
      ret (PaymentStatus (Lightning.status_paid status)
             (Lightning.settled_at status) (amount_sats inv) (expires_at inv))
  end.

(** The statuses the route accepts, by name. *)
Definition parse_status (s : string) : option PaperStatus :=
  if String.eqb s "submitted" then Some submitted
  else if String.eqb s "under_review" then Some under_review
  else if String.eqb s "accepted" then Some accepted
  else if String.eqb s "rejected" then Some rejected
  else if String.eqb s "published" then Some published
  else None.

(** [PUT /admin/papers/:event_id/status]. *)
Definition put_paper_status (now : Z) (event_id status : string)
    (reviewer_notes : option string) : M Response :=
  match parse_status status with
  | None => ret (BadRequest "Invalid status")
  | Some status' =>
      Db.updatePaperStatus event_id status' reviewer_notes now;;
      ret Success
  end.

End Api.

(** ** The [StorageService] class *)

Module Storage.

(** Which directory [getContent] is asked to look in. *)
Inductive ContentType : Type :=
| paper
| comment.

Definition paper_path (eventId : string) : string := "papers/" +:+ eventId +:+ ".md".
Definition comment_path (eventId : string) : string := "comments/" +:+ eventId +:+ ".txt".
Definition legacy_path (eventId : string) : string := eventId +:+ ".md".

(** [for (const filePath of locations)]: the first file that can be
    read. *)
Fixpoint read_first (locations : list string) (files : gmap string string)
    : option string :=
  match locations with
  | [] => None
  | filePath :: rest =>
      match files !! filePath with
      | Some text => Some text
      | None => read_first rest files
      end
  end.

Definition getContent (eventId : string) (type : option ContentType)
    : M (option string) :=
  let locations :=
    match type with
    | Some paper => [paper_path eventId]
    | Some comment => [comment_path eventId]
    | None => [paper_path eventId; comment_path eventId; legacy_path eventId]
    end in
  gets (fun st => read_first locations (storage_files st)).

(** The loop of [deleteContent]: unlink each location, skipping those
    that do not exist. *)
Fixpoint unlink_each (locations : list string) (deleted : bool) : M bool :=
  match locations with
  | [] => ret deleted
  | filePath :: rest =>
      present <- gets (fun st => bool_decide (is_Some (storage_files st !! filePath)));;
      if present : bool then
        modify (set_storage_files (delete filePath));;
        unlink_each rest true
      else unlink_each rest deleted
  end.

Definition deleteContent (eventId : string) : M bool :=
  unlink_each [paper_path eventId; comment_path eventId; legacy_path eventId] false.

End Storage.

(** ** [src/routes/admin.ts] *)

Module Admin.

Inductive Response : Type :=
| NotFound (error : string)
| Deleted (message : string)
| PricingUpdated (pricing : Pricing.PricingInfo).

(** [DELETE /events/:id]. *)
Definition delete_event (id' : string) : M Response :=
  event <- gets (fun st => List.find (fun row => String.eqb (id row) id') (events st));;
  match event with
  | None => ret (NotFound "Event not found")
  | Some _ =>
      modify (set_events (List.filter (fun row => negb (String.eqb (id row) id'))));;
      modify (set_research_papers
                (List.filter (fun row => negb (String.eqb (event_id row) id'))));;
      Storage.deleteContent id';;
      ret (Deleted "Event deleted successfully")
  end.

(** [PUT /pricing]; the numbers of the request body are integers. *)
Definition put_pricing (price_per_mb_year price_per_comment_mb max_content_size
    : option Z) : M Response :=
  match price_per_mb_year with
  | Some v => Db.setConfig "price_per_mb_year" (pretty v)
  | None => ret tt
  end;;
  match price_per_comment_mb with
  | Some v => Db.setConfig "price_per_comment_mb" (pretty v)
  | None => ret tt
  end;;
  match max_content_size with
  | Some v => Db.setConfig "max_content_size" (pretty v)
  | None => ret tt
  end;;
  updatedPricing <- Pricing.getPricingInfo;;
  ret (PricingUpdated updatedPricing).

End Admin.

(** ** The properties the handlers are checked against *)

Module Spec.

(** A filter is satisfied when every populated constraint holds; a bound
    of [0] counts as not populated (it is falsy). *)
Definition filter_satisfied (event : NostrEvent) (filter : NostrFilter) : Prop :=
  (forall l, ids filter = Some l -> id event ∈ l)
  /\ (forall l, authors filter = Some l -> pubkey event ∈ l)
  /\ (forall l, kinds filter = Some l -> kind event ∈ l)
  /\ (forall s, since filter = Some s -> s <> 0 -> s <= created_at event)
  /\ (forall u, until filter = Some u -> u <> 0 -> created_at event <= u).

(** A subscription matches when at least one of its filters is satisfied. *)
Definition subscription_matches (event : NostrEvent) (filters : list NostrFilter) : Prop :=
  exists filter, filter ∈ filters /\ filter_satisfied event filter.

(** The amount quoted for a paper, and the size limit, read from the
    configuration. *)
Definition quoted_amount (st : RelayState) : JsNum :=
  parseInt (or_default (truthy_str (relay_config st !! "flat_rate_sats")) "1").

Definition max_content_size (st : RelayState) : JsNum :=
  parseInt (or_default (truthy_str (relay_config st !! "max_content_size")) "52428800").

(** The payment reference an event carries: the value of its first
    [payment_hash] tag, if not empty. *)
Definition payment_reference (event : NostrEvent) : option string :=
  truthy_str (Nostr.getTagValue (tags event) "payment_hash").

(** The event refers to an invoice that exists, is marked paid and has a
    recorded amount of at least [A]. *)
Definition payment_verified (st : RelayState) (event : NostrEvent) (A : Z) : Prop :=
  exists h inv,
    payment_reference event = Some h
    /\ lightning_invoices st !! h = Some inv
    /\ paid inv = true
    /\ A <= amount_sats inv.

(** The row a paper gets when it is published at price [price]. *)
Definition paper_record (event : NostrEvent) (price : JsNum) : ResearchPaper :=
  mkPaper (id event)
    (or_default (Nostr.getTagValue (tags event) "title") "Untitled")
    [pubkey event]
    (or_default (Nostr.getTagValue (tags event) "summary") "")
    published
    (calculateContentSize (content event))
    (Nostr.getTagValue (tags event) "payment_hash")
    (Some price)
    (Some (created_at event * 1000))
    None
    ("./storage/" +:+ id event +:+ ".md").

(** The state after a paper was published: its row, its file, its event. *)
Definition published_state (event : NostrEvent) (price : JsNum) (st : RelayState)
    : RelayState :=
  state_of
    (Db.saveEvent event
       (set_storage_files (insert ("papers/" +:+ id event +:+ ".md") (content event))
          (set_research_papers
             (fun rows => rows ++ [Db.stored_paper (paper_record event price)]) st))).

(** The relay accepted the event: it acknowledged it with [OK(id, true)]
    and the [events] table holds a row with the event's identity. *)
Definition admitted (ws : WebSocket) (event : NostrEvent)
    (r : Completion unit * RelayState * list Delivery) : Prop :=
  (exists reason, (ws, OK (id event) true reason) ∈ sent r)
  /\ id event ∈ map id (events (state_of r)).

(** The relay refused the event with the given reason and changed
    nothing. *)
Definition rejected_with (ws : WebSocket) (event : NostrEvent) (reason : string)
    (st : RelayState) (r : Completion unit * RelayState * list Delivery) : Prop :=
  r = (Returned tt, st, [(ws, OK (id event) false reason)]).

(** The price the pricing contract promises:
    [ceil(sizeBytes / 1 MiB * ratePerMbYear * durationYears)]. *)
Definition contract_price (ratePerMbYear sizeBytes : Z) (durationYears : Q) : Z :=
  Qceiling (inject_Z sizeBytes / inject_Z 1048576 * inject_Z ratePerMbYear
            * durationYears).

(** What [updatePaperStatus] makes of a row it selects. *)
Definition restamped (row : ResearchPaper) (target : PaperStatus)
    (notes : option string) (now : Z) : ResearchPaper :=
  mkPaper (event_id row) (title row) (paper_authors row) (abstract row) target
    (size_bytes row) (payment_hash row) (price_paid row)
    (if decide (target = published) then Some now else None)
    notes (file_path row).

(** The payment backend has settled the invoice. *)
Definition settled (ledger : Lightning.Ledger) (paymentHash : string) : Prop :=
  exists at_, ledger paymentHash = Some (true, at_).

(** No stored invoice is marked paid without being settled. *)
Definition no_false_paid (ledger : Lightning.Ledger) (st : RelayState) : Prop :=
  forall h inv,
    lightning_invoices st !! h = Some inv -> paid inv = true -> settled ledger h.

End Spec.

(** ** Runs of the relay *)

Module Trace.

Section WithDigest.

Context `{Sha256}.

(** The messages of the clients handled one after the other; the result
    is the final state and everything that was delivered. *)
Fixpoint run (messages : list (WebSocket * ClientMessage)) (st : RelayState)
    : RelayState * list Delivery :=
  match messages with
  | [] => (st, [])
  | (ws, message) :: rest =>
      let r := Nostr.handleMessage ws message st in
      let '(st', out) := run rest (state_of r) in
      (st', sent r ++ out)
  end.

End WithDigest.

Definition is_eose_for (ws : WebSocket) (subscriptionId : string) (d : Delivery) : bool :=
  match d with
  | (ws', EOSE s) => Nat.eqb ws' ws && String.eqb s subscriptionId
  | _ => false
  end.

Definition is_req_for (ws : WebSocket) (subscriptionId : string)
    (m : WebSocket * ClientMessage) : bool :=
  match m with
  | (ws', ClientREQ s _) => Nat.eqb ws' ws && String.eqb s subscriptionId
  | _ => false
  end.



(** The query of a REQ is not exactly at the depth limit of SQLite, where
    its fate depends on the version of SQLite. *)
Definition depth_settled (m : WebSocket * ClientMessage) : Prop :=
  match m with
  | (_, ClientREQ _ filters) =>
      Db.expression_depth filters <> Db.SQLITE_MAX_EXPR_DEPTH
  | _ => True
  end.

(** A registration of the name by the socket whose query can be run. *)
Definition is_served_req_for (ws : WebSocket) (subscriptionId : string)
    (m : WebSocket * ClientMessage) : bool :=
  match m with
  | (_, ClientREQ _ filters) => is_req_for ws subscriptionId m && Db.query_fits filters
  | _ => false
  end.

(** How many end-of-stored-events markers for a name a socket was sent,
    and how many times it registered the name. *)
Definition count_eose (ws : WebSocket) (subscriptionId : string)
    (out : list Delivery) : nat :=
  length (List.filter (is_eose_for ws subscriptionId) out).

Definition count_req (ws : WebSocket) (subscriptionId : string)
    (messages : list (WebSocket * ClientMessage)) : nat :=
  length (List.filter (is_req_for ws subscriptionId) messages).

Definition count_served_req (ws : WebSocket) (subscriptionId : string)
    (messages : list (WebSocket * ClientMessage)) : nat :=
  length (List.filter (is_served_req_for ws subscriptionId) messages).

(** What a broadcast of [event] delivers, given the registry and the open
    sockets: one EVENT per matching subscription on an open socket, in
    registry order. *)
Definition deliveries (event : NostrEvent) (subs : list (string * Subscription))
    (open : gset WebSocket) : list Delivery :=
  flat_map (fun entry : string * Subscription =>
    if Nostr.eventMatchesFilters event (filters (snd entry))
       && bool_decide (ws (snd entry) ∈ open)
    then [(ws (snd entry), EVENT (fst entry) event)] else []) subs.

(** A handler keeps an invariant of the state and only makes deliveries
    of a given kind. *)
Definition keeps (I : RelayState -> Prop) (P : Delivery -> Prop) {A} (m : M A) : Prop :=
  forall st, I st -> I (state_of (m st)) /\ Forall P (sent (m st)).

End Trace.

(** ** Concrete data for the examples *)

Module Examples.

(** A stand-in digest: it only tags its input, so it is injective. *)
Definition example_digest : Sha256 := fun s => "sha256:" +:+ s.

(** The event with its identity hash filled in by [example_digest]. *)
Definition with_id (event : NostrEvent) : NostrEvent :=
  mkEvent (@getEventHash example_digest event) (pubkey event) (created_at event)
    (kind event) (tags event) (content event) (sig event).

Definition note : NostrEvent :=
  with_id (mkEvent "" "alice" 1700000000 1 [["t"; "rocq"]] "hello" "sig").

(** [note] with one character of its content changed and the stated
    identity kept. *)
Definition tampered_note : NostrEvent :=
  mkEvent (id note) "alice" 1700000000 1 [["t"; "rocq"]] "hellp" "sig".

Definition reaction : NostrEvent :=
  with_id (mkEvent "" "bob" 1700000100 7 [["e"; "abc"]] "+" "sig").

Definition kind_filter (k : Z) : NostrFilter :=
  mkFilter None None (Some [k]) None None None.

Definition author_filter (author : string) : NostrFilter :=
  mkFilter None (Some [author]) None None None None.


(** Sockets 1 and 2 are connected; [note] is the one stored event. *)
Definition state_with_note : RelayState :=
  mkState [note] [] ∅ ∅ ∅ [] {[1%nat; 2%nat]}.

(** A paper that carries no payment reference. *)
Definition unpaid_paper : NostrEvent :=
  with_id (mkEvent "" "alice" 1700000200 30023 [["title"; "On relays"]]
             "A short paper." "sig").

(** The same paper, referring to the invoice [inv1]. *)
Definition paid_paper : NostrEvent :=
  with_id (mkEvent "" "alice" 1700000200 30023
             [["title"; "On relays"]; ["payment_hash"; "inv1"]]
             "A short paper." "sig").

(** Socket 1 is connected and the flat rate is configured as 0. *)
Definition zero_rate_state : RelayState :=
  mkState [] [] ∅ {["flat_rate_sats" := "0"]} ∅ [] {[1%nat]}.

(** Socket 1 is connected, the configuration is the default one (a quote
    of 1), and invoice [inv1] of 1 unit is marked paid. *)
Definition paid_state : RelayState :=
  mkState [] [] {["inv1" := mkInvoice "lnbc1" 1 "Research paper storage" 0 true (Some 0)]}
    ∅ ∅ [] {[1%nat]}.

(** The per-megabyte rate is configured as 1000. *)
Definition rate_state : RelayState :=
  mkState [] [] ∅ {["price_per_mb_year" := "1000"]} ∅ [] ∅.

(** One paper, published at instant 100. *)
Definition published_paper_state : RelayState :=
  mkState []
    [mkPaper "e1" "On relays" ["alice"] "" published 14 None (Some (Num 1))
       (Some 100) None "./storage/e1.md"]
    ∅ ∅ ∅ [] ∅.

(** Socket 1 is connected and invoice [inv1] of 1 unit is not paid. *)
Definition unpaid_state : RelayState :=
  mkState [] [] {["inv1" := mkInvoice "lnbc1" 1 "Research paper storage" 0 false None]}
    ∅ ∅ [] {[1%nat]}.

(** A backend on which nothing is settled. *)
Definition unsettled_ledger : Lightning.Ledger := fun _ => Some (false, None).

(** Sockets 1 and 2 are connected; nothing is stored. *)
Definition open_state : RelayState :=
  mkState [] [] ∅ ∅ ∅ [] {[1%nat; 2%nat]}.

(** Another paper that refers to the invoice [inv1]. *)
Definition second_paid_paper : NostrEvent :=
  with_id (mkEvent "" "bob" 1700000500 30023
             [["title"; "On filters"]; ["payment_hash"; "inv1"]]
             "Another short paper." "sig").

(** A kind-1111 comment and a kind-1 reply. *)
Definition comment : NostrEvent :=
  with_id (mkEvent "" "bob" 1700000300 1111 [["E"; "abc"]] "Nice paper." "sig").



(** [paid_paper] dated one second after the last instant a [Date] can
    hold, 8640000000000 seconds after the epoch. *)
Definition undated_paper : NostrEvent :=
  with_id (mkEvent "" "alice" 8640000000001 30023
             [["title"; "On relays"]; ["payment_hash"; "inv1"]]
             "A short paper." "sig").

(** A filter naming 32766 ids: with the limit, a REQ that carries it
    binds 32767 parameters. *)
Definition oversized_filter : NostrFilter :=
  mkFilter (Some (replicate (Z.to_nat 32766) "a")) None None None None None.


(** A filter with every constraint populated. *)
Definition full_filter : NostrFilter :=
  mkFilter (Some [id note]) (Some ["alice"; "bob"]) (Some [1; 7])
    (Some 1600000000) (Some 1800000000) (Some 10).

End Examples.

(** * Theorems *)

(** * The serialization is unambiguous *)

Lemma app_assoc_s (a b c0 : string) : (a +:+ b) +:+ c0 = a +:+ (b +:+ c0).
Proof.
  induction a as [|c a IH]; [reflexivity|].
  change (String c ((a +:+ b) +:+ c0) = String c (a +:+ (b +:+ c0))).
  by rewrite IH.
Qed.

Lemma unescape_char_escape (c : ascii) (r : string) :
  unescape_char (json_escape_char c +:+ r) = Some (c, r).
Proof.
  destruct c as [[] [] [] [] [] [] [] []]; reflexivity.
Qed.

Lemma unescape_char_quote (r : string) : unescape_char (dquote +:+ r) = None.
Proof. reflexivity. Qed.

Lemma dquote_app (r : string) : dquote +:+ r = String (ascii_of_nat 34) r.
Proof. reflexivity. Qed.

Lemma empty_app (r : string) : "" +:+ r = r.
Proof. reflexivity. Qed.

Lemma cons_app (c : ascii) (s r : string) : String c s +:+ r = String c (s +:+ r).
Proof. reflexivity. Qed.

Lemma json_escape_prefix (s1 : string) :
  forall s2 r1 r2,
    json_escape s1 +:+ dquote +:+ r1 = json_escape s2 +:+ dquote +:+ r2 ->
    s1 = s2 /\ r1 = r2.
Proof.
  induction s1 as [|c1 s1 IH]; intros [|c2 s2] r1 r2 E; cbn [json_escape] in E.
  - rewrite !empty_app, !dquote_app in E. injection E as ->. auto.
  - rewrite empty_app, app_assoc_s in E. apply (f_equal unescape_char) in E.
    rewrite unescape_char_escape, unescape_char_quote in E. discriminate.
  - rewrite empty_app, app_assoc_s in E. apply (f_equal unescape_char) in E.
    rewrite unescape_char_escape, unescape_char_quote in E. discriminate.
  - rewrite !app_assoc_s in E. apply (f_equal unescape_char) in E.
    rewrite !unescape_char_escape in E. injection E as -> E.
    destruct (IH _ _ _ E) as [-> ->]. auto.
Qed.

Lemma json_string_prefix (s1 s2 r1 r2 : string) :
  json_string s1 +:+ r1 = json_string s2 +:+ r2 -> s1 = s2 /\ r1 = r2.
Proof.
  unfold json_string. rewrite !app_assoc_s, !dquote_app. intros E.
  injection E as E. rewrite <- !dquote_app in E. by apply json_escape_prefix.
Qed.

Lemma pretty_N_char_digit (d : N) : is_digit (pretty_N_char d) = true.
Proof.
  unfold pretty_N_char.
  destruct d as [|p]; [reflexivity|].
  do 5 (try (destruct p as [p|p|]; try reflexivity)).
Qed.

Lemma pretty_N_go_digits (x : N) :
  forall s, all_digits s = true -> all_digits (pretty_N_go x s) = true.
Proof.
  induction (N.lt_wf_0 x) as [x _ IH]; intros s Hs.
  assert (x = 0 \/ 0 < x)%N as [->|Hx] by lia.
  - by rewrite pretty_N_go_0.
  - rewrite pretty_N_go_step by done. apply IH.
    + apply N.div_lt; lia.
    + cbn [all_digits]. by rewrite pretty_N_char_digit, Hs.
Qed.

Lemma pretty_N_go_nonempty (x : N) :
  forall s, s <> "" -> pretty_N_go x s <> "".
Proof.
  induction (N.lt_wf_0 x) as [x _ IH]; intros s Hs.
  assert (x = 0 \/ 0 < x)%N as [->|Hx] by lia.
  - by rewrite pretty_N_go_0.
  - rewrite pretty_N_go_step by done. apply IH; [apply N.div_lt; lia|done].
Qed.

Lemma pretty_N_digits (n : N) : digits (pretty n).
Proof.
  unfold pretty, pretty_N. destruct (decide (n = 0)%N) as [->|Hn].
  - by split.
  - split; [by apply pretty_N_go_digits|].
    rewrite pretty_N_go_step by lia. by apply pretty_N_go_nonempty.
Qed.

Lemma pretty_Z_shape (z : Z) :
  exists d, digits d /\ (pretty z = d \/ pretty z = String "-" d).
Proof.
  destruct z as [|p|p].
  - exists "0". by repeat split; [|left].
  - exists (pretty (N.pos p)). split; [apply pretty_N_digits|by left].
  - exists (pretty (N.pos p)). split; [apply pretty_N_digits|by right].
Qed.

Lemma digits_prefix (a : string) :
  forall b r1 r2,
    all_digits a = true -> all_digits b = true ->
    no_digit_head r1 = true -> no_digit_head r2 = true ->
    a +:+ r1 = b +:+ r2 -> a = b /\ r1 = r2.
Proof.
  induction a as [|c a IH]; intros [|d b] r1 r2 Ha Hb H1 H2 E.
  - auto.
  - rewrite empty_app, cons_app in E. subst r1. cbn in Ha, Hb, H1.
    apply andb_prop in Hb as [Hd _]. by rewrite Hd in H1.
  - rewrite empty_app, cons_app in E. subst r2. cbn in Ha, Hb, H2.
    apply andb_prop in Ha as [Hc _]. by rewrite Hc in H2.
  - cbn in Ha, Hb. apply andb_prop in Ha as [_ Ha]. apply andb_prop in Hb as [_ Hb].
    rewrite !cons_app in E. injection E as -> E. destruct (IH _ _ _ Ha Hb H1 H2 E) as [-> ->]. auto.
Qed.

Lemma digits_head (d r : string) :
  digits d -> exists c s, d +:+ r = String c s /\ is_digit c = true.
Proof.
  intros [Hd Hne]. destruct d as [|c d]; [done|].
  exists c, (d +:+ r). split; [done|]. cbn in Hd. by apply andb_prop in Hd as [? _].
Qed.

Lemma pretty_Z_prefix (z1 z2 : Z) (r1 r2 : string) :
  no_digit_head r1 = true -> no_digit_head r2 = true ->
  pretty z1 +:+ r1 = pretty z2 +:+ r2 -> z1 = z2 /\ r1 = r2.
Proof.
  intros H1 H2 E.
  destruct (pretty_Z_shape z1) as (d1 & Hd1 & S1).
  destruct (pretty_Z_shape z2) as (d2 & Hd2 & S2).
  assert (pretty z1 = pretty z2 /\ r1 = r2) as [Hp ->];
    [|split; [by apply (inj pretty)|done]].
  destruct S1 as [S1|S1], S2 as [S2|S2]; rewrite S1, S2 in E |- *.
  - by apply digits_prefix; try apply Hd1; try apply Hd2.
  - destruct (digits_head d1 r1 Hd1) as (c & s & Hc & Hdig). rewrite Hc, cons_app in E.
    injection E as -> _. done.
  - destruct (digits_head d2 r2 Hd2) as (c & s & Hc & Hdig). rewrite Hc, cons_app in E.
    injection E as <- _. done.
  - rewrite !cons_app in E. injection E as E.
    destruct (digits_prefix d1 d2 r1 r2) as [-> ->]; try apply Hd1; try apply Hd2; done.
Qed.

Lemma json_ind' (P : json -> Prop)
    (Hnum : forall z, P (JNum z))
    (Hstr : forall s, P (JStr s))
    (Harr : forall l, Forall P l -> P (JArr l)) :
  forall j, P j.
Proof.
  fix IH 1. intros [z|s|l]; [apply Hnum|apply Hstr|].
  apply Harr. induction l as [|x l IHl]; constructor; [apply IH|exact IHl].
Qed.

Lemma concat_closing (x : string) (l : list string) (r : string) :
  String.concat "," (x :: l) +:+ "]" +:+ r = x +:+ closing l r.
Proof.
  revert x. induction l as [|y l IH]; intros x; [reflexivity|].
  change (String.concat "," (x :: y :: l))
    with (x +:+ "," +:+ String.concat "," (y :: l)).
  rewrite !app_assoc_s. by rewrite IH.
Qed.

Lemma stringify_arr (l : list json) (r : string) :
  stringify (JArr l) +:+ r
  = String "[" match l with
               | [] => "]" +:+ r
               | x :: l' => stringify x +:+ closing (map stringify l') r
               end.
Proof.
  cbn [stringify]. rewrite !app_assoc_s, cons_app, empty_app. f_equal.
  destruct l as [|x l]; [reflexivity|]. apply concat_closing.
Qed.

Lemma head_class_stringify (j : json) (r : string) :
  head_class (stringify j +:+ r) = json_class j.
Proof.
  destruct j as [z|s|l].
  - cbn [stringify json_class].
    destruct (pretty_Z_shape z) as (d & Hd & [->| ->]).
    + destruct (digits_head d r Hd) as (c & s & -> & Hc). cbn. by rewrite Hc.
    + rewrite cons_app. reflexivity.
  - cbn [stringify json_class]. unfold json_string.
    rewrite !app_assoc_s, dquote_app. reflexivity.
  - rewrite stringify_arr. reflexivity.
Qed.

Lemma closing_no_digit_head (l : list string) (r : string) :
  no_digit_head (closing l r) = true.
Proof. destruct l; reflexivity. Qed.

Lemma closing_prefix (l1 : list json) :
  Forall prefix_free l1 ->
  forall l2 r1 r2,
    no_digit_head r1 = true -> no_digit_head r2 = true ->
    closing (map stringify l1) r1 = closing (map stringify l2) r2 ->
    l1 = l2 /\ r1 = r2.
Proof.
  induction 1 as [|x1 l1 Hx _ IH]; intros [|x2 l2] r1 r2 H1 H2 E;
    cbn [map closing] in E; rewrite !cons_app, !empty_app in E.
  - injection E as ->. auto.
  - discriminate.
  - discriminate.
  - injection E as E.
    apply Hx in E as [-> E]; try apply closing_no_digit_head.
    apply IH in E as [-> ->]; auto.
Qed.

Lemma stringify_prefix_free (j : json) : prefix_free j.
Proof.
  induction j as [z1|s1|l1 IH] using json_ind'; intros j2 r1 r2 H1 H2 E;
    pose proof (f_equal head_class E) as Hc;
    rewrite !head_class_stringify in Hc;
    destruct j2 as [z2|s2|l2]; try discriminate Hc; clear Hc.
  - cbn [stringify] in E. apply pretty_Z_prefix in E as [-> ->]; auto.
  - cbn [stringify] in E. apply json_string_prefix in E as [-> ->]; auto.
  - rewrite !stringify_arr in E. injection E as E.
    destruct IH as [|x1 l1 Hx Hl], l2 as [|x2 l2].
    + rewrite !cons_app, !empty_app in E. injection E as ->. auto.
    + apply (f_equal head_class) in E. rewrite head_class_stringify in E.
      by destruct x2.
    + apply (f_equal head_class) in E. rewrite head_class_stringify in E.
      by destruct x1.
    + apply Hx in E as [-> E]; try apply closing_no_digit_head.
      apply closing_prefix in E as [-> ->]; auto.
Qed.

Lemma stringify_inj (j1 j2 : json) : stringify j1 = stringify j2 -> j1 = j2.
Proof.
  intros E. destruct (stringify_prefix_free j1 j2 "" "") as [-> _]; auto.
  clear -E. assert (forall s : string, s +:+ "" = s) as Hnil.
  { induction s as [|c s IHs]; [done|]. by rewrite cons_app, IHs. }
  by rewrite !Hnil.
Qed.

Lemma event_array_inj (e1 e2 : NostrEvent) :
  event_array e1 = event_array e2 ->
  pubkey e1 = pubkey e2 /\ created_at e1 = created_at e2 /\ kind e1 = kind e2
  /\ tags e1 = tags e2 /\ content e1 = content e2.
Proof.
  unfold event_array. intros E. injection E as Hp Hc Hk Ht Hn.
  repeat split; try done.
  revert Ht. generalize (tags e1) (tags e2).
  induction l as [|t1 l1 IH]; intros [|t2 l2] E; try done.
  cbn [map] in E. injection E as Et El. f_equal; [|by apply IH].
  clear -Et. revert t2 Et.
  induction t1 as [|s1 t1 IH]; intros [|s2 t2] E; try done.
  cbn [map] in E. injection E as -> E. f_equal. by apply IH.
Qed.

(** * Signature verifier *)

Lemma validateEventSignature_true `{Sha256} (event : NostrEvent) :
  validateEventSignature event = true <-> id event = getEventHash event.
Proof. unfold validateEventSignature. apply String.eqb_eq. Qed.

Lemma fields_of_serialization (e1 e2 : NostrEvent) :
  stringify (event_array e1) = stringify (event_array e2) ->
  (pubkey e1, created_at e1, kind e1, tags e1, content e1)
  = (pubkey e2, created_at e2, kind e2, tags e2, content e2).
Proof.
  intros E. apply stringify_inj, event_array_inj in E.
  destruct E as (-> & -> & -> & -> & ->). reflexivity.
Qed.

(** C3. For an event whose timestamp and kind are safe integers (so that
    they are serialized in decimal), [validateEventSignature event] is true
    exactly when the stated identity hash is the digest of the JSON array
    [[0, pubkey, created_at, kind, tags, content]]; and an event with a safe
    timestamp and kind that differs from a valid one in one of these fields,
    while keeping its stated identity, is rejected, the digest being
    collision-free on the two serializations. *)
Theorem validateEventSignature_spec `{Sha256} (event : NostrEvent) :
  safe_integer (created_at event) -> safe_integer (kind event) ->
  (validateEventSignature event = true
   <-> id event
       = sha256_hex
           (stringify
              (JArr [ JNum 0; JStr (pubkey event); JNum (created_at event);
                      JNum (kind event);
                      JArr (map (fun tag => JArr (map JStr tag)) (tags event));
                      JStr (content event) ])))
  /\ (forall event' : NostrEvent,
        safe_integer (created_at event') -> safe_integer (kind event') ->
        validateEventSignature event = true ->
        id event' = id event ->
        (pubkey event', created_at event', kind event', tags event', content event')
        <> (pubkey event, created_at event, kind event, tags event, content event) ->
        (sha256_hex (stringify (event_array event'))
         = sha256_hex (stringify (event_array event)) ->
         stringify (event_array event') = stringify (event_array event)) ->
        validateEventSignature event' = false).
Proof.
  intros _ _. split; [apply validateEventSignature_true|].
  intros event' _ _ Hv Hid Hne Hcr.
  apply validateEventSignature_true in Hv.
  destruct (validateEventSignature event') eqn:Hv'; [|reflexivity].
  apply validateEventSignature_true in Hv'.
  destruct Hne. apply fields_of_serialization, Hcr.
  unfold getEventHash in Hv, Hv'. congruence.
Qed.

Lemma validateEventSignature_spec_witness :
  @validateEventSignature Examples.example_digest Examples.note = true
  /\ @validateEventSignature Examples.example_digest Examples.tampered_note = false.
Proof.
  assert (safe_integer 1700000000 /\ safe_integer 1) as [Hat Hkind]
    by (unfold safe_integer, MAX_SAFE_INTEGER; lia).
  destruct (@validateEventSignature_spec Examples.example_digest Examples.note
              Hat Hkind) as [Hiff Hchanged].
  split; [apply Hiff; vm_compute; reflexivity|].
  apply Hchanged.
  - exact Hat.
  - exact Hkind.
  - vm_compute; reflexivity.
  - reflexivity.
  - vm_compute. discriminate.
  - vm_compute. discriminate.
Defined.

(** * Admission *)

(** C7. An event whose stated identity hash is not the recomputed hash is
    answered with [OK(id, false, "Invalid signature")] (on an open socket)
    and nothing else happens: the state, with its events, paper records,
    files and subscriptions, is unchanged and no other delivery is made. *)
Theorem invalid_signature_rejected `{Sha256} (ws : WebSocket)
    (event : NostrEvent) (st : RelayState) :
  id event <> getEventHash event ->
  Nostr.handleMessage ws (ClientEVENT event) st
  = (Returned tt, st,
     if bool_decide (ws ∈ open_sockets st)
     then [(ws, OK (id event) false "Invalid signature")] else []).
Proof.
  intros Hne.
  assert (validateEventSignature event = false) as Hv.
  { destruct (validateEventSignature event) eqn:E; [|reflexivity].
    by apply validateEventSignature_true in E. }
  unfold Nostr.handleMessage, Nostr.handleEvent. rewrite Hv. simpl.
  unfold try_catch, Nostr.sendOK, Nostr.sendMessage, bind, gets. simpl.
  destruct (bool_decide _); reflexivity.
Qed.

Lemma invalid_signature_rejected_witness :
  @Nostr.handleMessage Examples.example_digest 1%nat
    (ClientEVENT Examples.tampered_note) Examples.open_state
  = (Returned tt, Examples.open_state,
     [(1%nat, OK (id Examples.tampered_note) false "Invalid signature")]).
Proof.
  rewrite (@invalid_signature_rejected Examples.example_digest 1%nat
             Examples.tampered_note Examples.open_state).
  - reflexivity.
  - vm_compute. discriminate.
Defined.

(** * Reasoning about handlers *)

Section Keeps.

Import Trace.

Variable I : RelayState -> Prop.
Variable P : Delivery -> Prop.

Lemma keeps_ret {A} (a : A) : keeps I P (ret a).
Proof. intros st HI. split; [exact HI|constructor]. Qed.

Lemma keeps_throw {A} : keeps I P (@throw A).
Proof. intros st HI. split; [exact HI|constructor]. Qed.

Lemma keeps_gets {A} (f : RelayState -> A) : keeps I P (gets f).
Proof. intros st HI. split; [exact HI|constructor]. Qed.

Lemma keeps_modify (f : RelayState -> RelayState) :
  (forall st, I st -> I (f st)) -> keeps I P (modify f).
Proof. intros Hf st HI. split; [by apply Hf|constructor]. Qed.

Lemma keeps_emit (d : Delivery) : P d -> keeps I P (emit d).
Proof. intros Hd st HI. split; [exact HI|by repeat constructor]. Qed.

Lemma keeps_bind {A B} (m : M A) (k : A -> M B) :
  keeps I P m -> (forall a, keeps I P (k a)) -> keeps I P (bind m k).
Proof.
  intros Hm Hk st HI. unfold bind, state_of, sent.
  destruct (Hm st HI) as [HI1 HP1]. unfold state_of, sent in HI1, HP1.
  destruct (m st) as [[[a|] st1] out1]; cbn in *; [|by split].
  destruct (Hk a st1 HI1) as [HI2 HP2]. unfold state_of, sent in HI2, HP2.
  destruct (k a st1) as [[r st2] out2]; cbn in *.
  split; [done|]. by apply Forall_app.
Qed.

Lemma keeps_try_catch {A} (m h : M A) :
  keeps I P m -> keeps I P h -> keeps I P (try_catch m h).
Proof.
  intros Hm Hh st HI. unfold try_catch, state_of, sent.
  destruct (Hm st HI) as [HI1 HP1]. unfold state_of, sent in HI1, HP1.
  destruct (m st) as [[[a|] st1] out1]; cbn in *; [by split|].
  destruct (Hh st1 HI1) as [HI2 HP2]. unfold state_of, sent in HI2, HP2.
  destruct (h st1) as [[r st2] out2]; cbn in *.
  split; [done|]. by apply Forall_app.
Qed.

Lemma keeps_for_each {A} (l : list A) (body : A -> M unit) :
  (forall x, keeps I P (body x)) -> keeps I P (for_each l body).
Proof.
  intros Hb. induction l as [|x l IH]; cbn [for_each].
  - apply keeps_ret.
  - apply keeps_bind; [apply Hb|intros _; exact IH].
Qed.

End Keeps.

Ltac keeps_step :=
  first
    [ apply keeps_ret | apply keeps_throw | apply keeps_gets
    | apply keeps_bind; [|intros ?]
    | apply keeps_try_catch
    | apply keeps_for_each; intros ?
    | match goal with
      | |- Trace.keeps _ _ (if ?c then _ else _) => destruct c
      | |- Trace.keeps _ _ (match ?x with _ => _ end) => destruct x
      end ].

Section HandlersKeep.

Import Trace.

Context `{Sha256}.

Variable I : RelayState -> Prop.
Variable P : Delivery -> Prop.

Hypothesis I_events : forall f st, I st -> I (set_events f st).
Hypothesis I_papers : forall f st, I st -> I (set_research_papers f st).
Hypothesis I_files : forall f st, I st -> I (set_storage_files f st).
Hypothesis P_OK : forall ws eventId success reason, P (ws, OK eventId success reason).
Hypothesis P_NOTICE : forall ws text, P (ws, NOTICE text).

Lemma sendMessage_keeps (ws : WebSocket) (message : RelayMessage) :
  P (ws, message) -> keeps I P (Nostr.sendMessage ws message).
Proof.
  intros HP. unfold Nostr.sendMessage. repeat keeps_step. by apply keeps_emit.
Qed.

Lemma saveEvent_keeps (event : NostrEvent) : keeps I P (Db.saveEvent event).
Proof.
  apply keeps_modify. intros st HI. destruct (bool_decide _); auto.
Qed.

Lemma saveResearchPaper_keeps (paper : ResearchPaper) :
  keeps I P (Db.saveResearchPaper paper).
Proof.
  unfold Db.saveResearchPaper. repeat keeps_step. apply keeps_modify. auto.
Qed.

Lemma getConfig_keeps (key : string) : keeps I P (Db.getConfig key).
Proof. apply keeps_gets. Qed.

Lemma calculatePrice_keeps (sizeBytes : Z) (durationYears : Q) :
  keeps I P (Pricing.calculatePrice sizeBytes durationYears).
Proof. unfold Pricing.calculatePrice, Db.getConfig. repeat keeps_step. Qed.

Lemma calculateCommentPrice_keeps (sizeBytes : Z) :
  keeps I P (Pricing.calculateCommentPrice sizeBytes).
Proof. unfold Pricing.calculateCommentPrice, Db.getConfig. repeat keeps_step. Qed.

Lemma handleResearchPaper_keeps (ws : WebSocket) (event : NostrEvent) :
  keeps I P (Nostr.broadcastEvent event) ->
  keeps I P (Nostr.handleResearchPaper ws event).
Proof.
  intros broadcastEvent_keeps. unfold Nostr.handleResearchPaper, Nostr.sendOK, Db.getInvoice,
    Nostr.storage_saveResearchPaper.
  repeat first
    [ apply getConfig_keeps | apply calculatePrice_keeps | apply saveEvent_keeps
    | apply saveResearchPaper_keeps | apply broadcastEvent_keeps
    | apply sendMessage_keeps; [apply P_OK]
    | apply keeps_modify; [apply I_files]
    | keeps_step ].
Qed.

Lemma handleEvent_keeps (ws : WebSocket) (event : NostrEvent) :
  keeps I P (Nostr.broadcastEvent event) ->
  keeps I P (Nostr.handleEvent ws event).
Proof.
  intros broadcastEvent_keeps. unfold Nostr.handleEvent, Nostr.handleHighlight, Nostr.handleCommentReply,
    Nostr.handleReaction, Nostr.handleComment, Nostr.sendOK,
    Nostr.storage_saveComment.
  repeat first
    [ apply handleResearchPaper_keeps; [exact broadcastEvent_keeps]
    | apply calculateCommentPrice_keeps
    | apply saveEvent_keeps | apply broadcastEvent_keeps
    | apply sendMessage_keeps; first [apply P_OK | apply P_NOTICE]
    | apply keeps_modify; [apply I_files]
    | keeps_step ].
Qed.

Hypothesis P_EVENT : forall ws subscriptionId event, P (ws, EVENT subscriptionId event).

Lemma broadcastEvent_keeps (event : NostrEvent) : keeps I P (Nostr.broadcastEvent event).
Proof.
  unfold Nostr.broadcastEvent.
  repeat first [apply sendMessage_keeps; [apply P_EVENT] | keeps_step].
Qed.

Hypothesis I_subs_set :
  forall key sub st, I st -> I (set_subscriptions (Nostr.map_set key sub) st).
Hypothesis I_subs_delete :
  forall key st, I st -> I (set_subscriptions (Nostr.map_delete key) st).

Lemma handleRequest_keeps (ws : WebSocket) (subscriptionId : string)
    (filters : list NostrFilter) :
  P (ws, EOSE subscriptionId) ->
  keeps I P (Nostr.handleRequest ws subscriptionId filters).
Proof.
  intros HP. unfold Nostr.handleRequest, Nostr.sendNotice, Db.getEvents.
  repeat first
    [ apply sendMessage_keeps; first [apply P_EVENT | apply P_NOTICE | exact HP]
    | apply keeps_modify; [apply I_subs_set]
    | keeps_step ].
Qed.

Lemma handleMessage_keeps (ws : WebSocket) (message : ClientMessage) :
  (forall s fs, message = ClientREQ s fs -> P (ws, EOSE s)) ->
  keeps I P (Nostr.handleMessage ws message).
Proof.
  intros HP. unfold Nostr.handleMessage, Nostr.handleClose, Nostr.sendNotice.
  apply keeps_try_catch; [|apply sendMessage_keeps, P_NOTICE].
  destruct message as [event|s fs|s|type|].
  - apply handleEvent_keeps, broadcastEvent_keeps.
  - apply handleRequest_keeps. by apply (HP s fs).
  - apply keeps_modify, I_subs_delete.
  - apply sendMessage_keeps, P_NOTICE.
  - apply keeps_throw.
Qed.

End HandlersKeep.

(** * Subscriptions: replay and end of stored events *)

Lemma sendMessage_run (ws : WebSocket) (message : RelayMessage) (st : RelayState) :
  Nostr.sendMessage ws message st
  = (Returned tt, st,
     if bool_decide (ws ∈ open_sockets st) then [(ws, message)] else []).
Proof.
  unfold Nostr.sendMessage, bind, gets, emit, ret.
  by destruct (bool_decide _).
Qed.

Lemma for_each_send {A} (ws : WebSocket) (f : A -> RelayMessage) (l : list A)
    (st : RelayState) :
  for_each l (fun x => Nostr.sendMessage ws (f x)) st
  = (Returned tt, st,
     if bool_decide (ws ∈ open_sockets st)
     then map (fun x => (ws, f x)) l else []).
Proof.
  induction l as [|x l IH]; [by destruct (bool_decide _)|].
  cbn [for_each map]. unfold bind. rewrite sendMessage_run, IH.
  by destruct (bool_decide _).
Qed.

Lemma getEvents_run (filters : list NostrFilter) (limit : Z) (st : RelayState) :
  Db.getEvents filters limit st
  = if Db.query_fits filters
    then (Returned (Db.select_events filters limit (events st)), st, [])
    else (Thrown, st, []).
Proof. unfold Db.getEvents. by destruct (Db.query_fits filters). Qed.

Lemma query_fits_below (filters : list NostrFilter) :
  Db.bound_parameters filters <= 32766 -> Db.expression_depth filters < 1000 ->
  Db.query_fits filters = true.
Proof.
  intros Hp Hd. unfold Db.query_fits, Db.SQLITE_MAX_VARIABLE_NUMBER,
    Db.SQLITE_MAX_EXPR_DEPTH.
  apply andb_true_iff. split; apply Z.leb_le; lia.
Qed.

Lemma query_fits_above (filters : list NostrFilter) :
  32766 < Db.bound_parameters filters \/ 1000 < Db.expression_depth filters ->
  Db.query_fits filters = false.
Proof.
  intros Hover. unfold Db.query_fits, Db.SQLITE_MAX_VARIABLE_NUMBER,
    Db.SQLITE_MAX_EXPR_DEPTH.
  apply andb_false_iff. destruct Hover; [left|right]; apply Z.leb_gt; lia.
Qed.

Lemma handleRequest_run_any (ws : WebSocket) (subscriptionId : string)
    (filters : list NostrFilter) (st : RelayState) :
  Nostr.handleRequest ws subscriptionId filters st
  = (Returned tt,
     set_subscriptions (Nostr.map_set subscriptionId (mkSub ws filters)) st,
     if bool_decide (ws ∈ open_sockets st)
     then if Db.query_fits filters
          then map (fun event => (ws, EVENT subscriptionId event))
                 (Db.select_events filters 100 (events st))
               ++ [(ws, EOSE subscriptionId)]
          else [(ws, NOTICE "Error processing request")]
     else []).
Proof.
  unfold Nostr.handleRequest, try_catch, bind at 1, modify.
  unfold bind at 1. rewrite getEvents_run.
  destruct (Db.query_fits filters).
  - unfold bind. rewrite for_each_send. rewrite sendMessage_run.
    cbn [open_sockets set_subscriptions]. by destruct (bool_decide _).
  - unfold Nostr.sendNotice. rewrite sendMessage_run.
    cbn [open_sockets set_subscriptions]. by destruct (bool_decide _).
Qed.

Lemma handleRequest_run (ws : WebSocket) (subscriptionId : string)
    (filters : list NostrFilter) (st : RelayState) :
  ws ∈ open_sockets st -> Db.query_fits filters = true ->
  Nostr.handleRequest ws subscriptionId filters st
  = (Returned tt,
     set_subscriptions (Nostr.map_set subscriptionId (mkSub ws filters)) st,
     map (fun event => (ws, EVENT subscriptionId event))
       (Db.select_events filters 100 (events st))
     ++ [(ws, EOSE subscriptionId)]).
Proof.
  intros Hopen Hfits. rewrite handleRequest_run_any, Hfits.
  by rewrite bool_decide_eq_true_2.
Qed.

Lemma handleRequest_run_failed (ws : WebSocket) (subscriptionId : string)
    (filters : list NostrFilter) (st : RelayState) :
  ws ∈ open_sockets st -> Db.query_fits filters = false ->
  Nostr.handleRequest ws subscriptionId filters st
  = (Returned tt,
     set_subscriptions (Nostr.map_set subscriptionId (mkSub ws filters)) st,
     [(ws, NOTICE "Error processing request")]).
Proof.
  intros Hopen Hfits. rewrite handleRequest_run_any, Hfits.
  by rewrite bool_decide_eq_true_2.
Qed.

Lemma handleMessage_open_sockets `{Sha256} (ws : WebSocket) (message : ClientMessage)
    (st : RelayState) :
  open_sockets (state_of (Nostr.handleMessage ws message st)) = open_sockets st.
Proof.
  apply (handleMessage_keeps (fun st' => open_sockets st' = open_sockets st)
           (fun _ => True)); auto.
Qed.

Lemma count_eose_app (ws : WebSocket) (s : string) (out1 out2 : list Delivery) :
  Trace.count_eose ws s (out1 ++ out2)
  = (Trace.count_eose ws s out1 + Trace.count_eose ws s out2)%nat.
Proof. unfold Trace.count_eose. by rewrite List.filter_app, length_app. Qed.

Lemma count_eose_none (ws : WebSocket) (s : string) (out : list Delivery) :
  Forall (fun d => Trace.is_eose_for ws s d = false) out ->
  Trace.count_eose ws s out = 0%nat.
Proof.
  unfold Trace.count_eose. induction 1 as [|d out Hd _ IH]; [reflexivity|].
  cbn [List.filter]. by rewrite Hd.
Qed.

Lemma map_get_set_eq {V} (key : string) (v : V) (m : list (string * V)) :
  Nostr.map_get key (Nostr.map_set key v m) = Some v.
Proof.
  induction m as [|[k v'] m IH]; cbn [Nostr.map_set Nostr.map_get].
  - by rewrite String.eqb_refl.
  - destruct (String.eqb k key) eqn:E; cbn [Nostr.map_get]; [|by rewrite E].
    by rewrite String.eqb_refl.
Qed.

Lemma handleMessage_count_eose `{Sha256} (ws w : WebSocket) (s : string)
    (message : ClientMessage) (st : RelayState) :
  ws ∈ open_sockets st ->
  Trace.count_eose w s (sent (Nostr.handleMessage ws message st))
  = length (List.filter (Trace.is_served_req_for w s) [(ws, message)]).
Proof.
  intros Hopen.
  destruct (Trace.is_req_for w s (ws, message)) eqn:Hreq.
  - destruct message as [| s' fs | | |]; try discriminate Hreq.
    cbn [List.filter Trace.is_served_req_for]. rewrite Hreq. cbn [andb].
    unfold Nostr.handleMessage, try_catch. rewrite handleRequest_run_any.
    rewrite (bool_decide_eq_true_2 _ Hopen).
    destruct (Db.query_fits fs); cbn [sent snd length].
    + rewrite count_eose_app, count_eose_none.
      * unfold Trace.count_eose. cbn [List.filter Trace.is_eose_for].
        cbn [Trace.is_req_for] in Hreq. by rewrite Hreq.
      * apply List.Forall_forall. intros d [e [<- _]]%in_map_iff.
        reflexivity.
    + reflexivity.
  - assert (Trace.is_served_req_for w s (ws, message) = false) as Hserved.
    { destruct message; try reflexivity. cbn [Trace.is_served_req_for].
      by rewrite Hreq. }
    cbn [List.filter]. rewrite Hserved. apply count_eose_none.
    apply (handleMessage_keeps (fun _ => True)
             (fun d => Trace.is_eose_for w s d = false)); auto.
    intros s' fs ->. exact Hreq.
Qed.

Lemma count_served_le (w : WebSocket) (s : string)
    (messages : list (WebSocket * ClientMessage)) :
  (Trace.count_served_req w s messages <= Trace.count_req w s messages)%nat.
Proof.
  unfold Trace.count_served_req, Trace.count_req.
  induction messages as [|[w' m] rest IH]; [done|]. cbn [List.filter].
  destruct m as [| s' fs | | |]; cbn [Trace.is_served_req_for]; try exact IH;
    try (destruct (Trace.is_req_for w s _); cbn [length]; lia).
  destruct (Trace.is_req_for w s (w', ClientREQ s' fs)); cbn [andb]; [|exact IH].
  destruct (Db.query_fits fs); cbn [length]; lia.
Qed.

(** C8 (as amended). A REQ on an open socket whose query is within the
    limits of SQLite (at most 32766 bound parameters, and an expression
    below the depth of 1000) is answered, on that socket, by one EVENT
    message per stored event the query selects, each tagged with the
    subscription name, followed by one EOSE for the name; over an empty
    store the answer is the single EOSE.  A REQ whose query exceeds a limit
    is answered by the single NOTICE "Error processing request", with no
    EOSE.  The name is registered in both cases.  Over any sequence of
    client messages on open sockets, none with a query exactly at the depth
    limit, a socket is sent exactly as many EOSE markers for a name as it
    made registrations of the name whose query could be run, so never more
    than it made registrations. *)
Theorem req_reply_then_one_eose `{Sha256} (ws : WebSocket) (subscriptionId : string)
    (filters : list NostrFilter) (st : RelayState) :
  ws ∈ open_sockets st ->
  let r := Nostr.handleMessage ws (ClientREQ subscriptionId filters) st in
  (Db.bound_parameters filters <= 32766 -> Db.expression_depth filters < 1000 ->
   sent r
   = map (fun event => (ws, EVENT subscriptionId event))
       (Db.select_events filters 100 (events st))
     ++ [(ws, EOSE subscriptionId)]
   /\ (events st = [] -> sent r = [(ws, EOSE subscriptionId)]))
  /\ (32766 < Db.bound_parameters filters \/ 1000 < Db.expression_depth filters ->
      sent r = [(ws, NOTICE "Error processing request")])
  /\ Nostr.map_get subscriptionId (subscriptions (state_of r)) = Some (mkSub ws filters)
  /\ (forall messages : list (WebSocket * ClientMessage),
        Forall (fun m => fst m ∈ open_sockets st) messages ->
        Forall Trace.depth_settled messages ->
        forall w s,
          Trace.count_eose w s (snd (Trace.run messages st))
          = Trace.count_served_req w s messages
          /\ (Trace.count_served_req w s messages <= Trace.count_req w s messages)%nat).
Proof.
  intros Hopen r.
  assert (r = Nostr.handleRequest ws subscriptionId filters st) as Hr.
  { unfold r, Nostr.handleMessage, try_catch. by rewrite handleRequest_run_any. }
  split; [|split; [|split]].
  - intros Hparams Hdepth.
    rewrite Hr, handleRequest_run by (try done; by apply query_fits_below).
    cbn [sent snd]. split; [reflexivity|]. by intros ->.
  - intros Hover. rewrite Hr, handleRequest_run_failed; try done.
    by apply query_fits_above.
  - rewrite Hr, handleRequest_run_any. cbn [state_of fst snd subscriptions set_subscriptions].
    apply map_get_set_eq.
  - clear. intros messages Hall _ w s. split; [|apply count_served_le].
    revert st Hall.
    induction messages as [|[w' m] rest IH]; intros st Hall; [reflexivity|].
    apply Forall_cons in Hall as [Hw Hrest]. cbn [fst] in Hw.
    cbn [Trace.run].
    destruct (Trace.run rest _) as [st' out] eqn:Hrun. cbn [snd].
    rewrite count_eose_app, handleMessage_count_eose by done.
    specialize (IH (state_of (Nostr.handleMessage w' m st))).
    rewrite Hrun in IH. cbn [snd] in IH. rewrite IH.
    + unfold Trace.count_served_req. cbn [List.filter].
      by destruct (Trace.is_served_req_for w s (w', m)).
    + by rewrite handleMessage_open_sockets.
Qed.

Lemma req_reply_then_one_eose_witness :
  sent (@Nostr.handleMessage Examples.example_digest 1%nat
          (ClientREQ "s1" [Examples.kind_filter 1]) Examples.state_with_note)
  = [(1%nat, EVENT "s1" Examples.note); (1%nat, EOSE "s1")].
Proof.
  assert ((1%nat : WebSocket) ∈ open_sockets Examples.state_with_note) as Hopen
    by (apply (bool_decide_unpack _); vm_compute; exact Logic.I).
  destruct (@req_reply_then_one_eose Examples.example_digest 1%nat "s1"
              [Examples.kind_filter 1] Examples.state_with_note Hopen)
    as [Hserved _].
  destruct Hserved as [Hsent _].
  - vm_compute. discriminate.
  - vm_compute. reflexivity.
  - rewrite Hsent. vm_compute. reflexivity.
Defined.

(** C8 (counterexample). A REQ whose filter names 32766 ids binds, with
    the limit, 32767 parameters: the query fails, and the answer on the open
    socket is a NOTICE and no EOSE at all. *)
Theorem req_without_eose_counterexample :
  let r := @Nostr.handleMessage Examples.example_digest 1%nat
             (ClientREQ "s1" [Examples.oversized_filter]) Examples.state_with_note in
  sent r = [(1%nat, NOTICE "Error processing request")]
  /\ Trace.count_eose 1%nat "s1" (sent r) = 0%nat
  /\ Nostr.map_get "s1" (subscriptions (state_of r))
     = Some (mkSub 1%nat [Examples.oversized_filter]).
Proof.
  assert (Db.query_fits [Examples.oversized_filter] = false) as Hfits
    by (vm_compute; reflexivity).
  assert ((1%nat : WebSocket) ∈ open_sockets Examples.state_with_note) as Hopen
    by (apply (bool_decide_unpack _); vm_compute; exact Logic.I).
  cbv zeta. unfold Nostr.handleMessage, try_catch.
  rewrite handleRequest_run_failed by done. cbn [sent state_of fst snd].
  split; [reflexivity|]. split; [reflexivity|].
  cbn [subscriptions set_subscriptions Examples.state_with_note]. reflexivity.
Qed.

(** * The subscription registry *)

Lemma map_get_delete_eq {V} (key : string) (m : list (string * V)) :
  Nostr.map_get key (Nostr.map_delete key m) = None.
Proof.
  unfold Nostr.map_delete.
  induction m as [|[k v] m IH]; [reflexivity|]. cbn [List.filter fst].
  destruct (String.eqb k key) eqn:E; cbn [negb]; [exact IH|].
  cbn [Nostr.map_get]. by rewrite E.
Qed.

Lemma map_set_keys {V} (key : string) (v : V) (m : list (string * V)) (k : string) :
  k ∈ map fst (Nostr.map_set key v m) <-> k = key \/ k ∈ map fst m.
Proof.
  induction m as [|[k' v'] m IH]; cbn [Nostr.map_set map fst].
  - rewrite list_elem_of_singleton, elem_of_nil. tauto.
  - destruct (String.eqb k' key) eqn:E; cbn [map fst].
    + apply String.eqb_eq in E as ->. rewrite !elem_of_cons. tauto.
    + rewrite !elem_of_cons, IH. tauto.
Qed.

Lemma map_set_NoDup {V} (key : string) (v : V) (m : list (string * V)) :
  NoDup (map fst m) -> NoDup (map fst (Nostr.map_set key v m)).
Proof.
  induction m as [|[k' v'] m IH]; cbn [Nostr.map_set map fst]; intros Hnd.
  - apply NoDup_singleton.
  - apply NoDup_cons in Hnd as [Hk Hnd].
    destruct (String.eqb k' key) eqn:E; cbn [map fst].
    + apply String.eqb_eq in E as ->. by apply NoDup_cons.
    + apply NoDup_cons. split; [|by apply IH].
      rewrite map_set_keys. intros [->|?]; [|done].
      by rewrite String.eqb_refl in E.
Qed.

Lemma map_delete_NoDup {V} (key : string) (m : list (string * V)) :
  NoDup (map fst m) -> NoDup (map fst (Nostr.map_delete key m)).
Proof.
  unfold Nostr.map_delete.
  induction m as [|[k v] m IH]; cbn [List.filter map fst]; intros Hnd; [done|].
  apply NoDup_cons in Hnd as [Hk Hnd].
  destruct (negb _); cbn [map fst]; [|by apply IH].
  apply NoDup_cons. split; [|by apply IH].
  intros [[k' v'] [Hk' Hin]]%list_elem_of_fmap. cbn in Hk'. subst k'.
  apply list_elem_of_In, List.filter_In in Hin as [Hin _].
  apply Hk, list_elem_of_fmap. exists (k, v'). split; [done|].
  by apply list_elem_of_In.
Qed.

Lemma map_get_elem {V} (key : string) (v : V) (m : list (string * V)) :
  NoDup (map fst m) -> (key, v) ∈ m -> Nostr.map_get key m = Some v.
Proof.
  induction m as [|[k v'] m IH]; cbn [map fst Nostr.map_get]; intros Hnd Hin.
  - by apply elem_of_nil in Hin.
  - apply NoDup_cons in Hnd as [Hk Hnd].
    apply elem_of_cons in Hin as [[= <- <-]|Hin].
    + by rewrite String.eqb_refl.
    + destruct (String.eqb k key) eqn:E; [|by apply IH].
      apply String.eqb_eq in E as ->. destruct Hk.
      apply list_elem_of_fmap. by exists (key, v).
Qed.

Lemma map_get_filter {V} (key : string) (v : V) (p : string * V -> bool)
    (m : list (string * V)) :
  NoDup (map fst m) -> Nostr.map_get key m = Some v ->
  Nostr.map_get key (List.filter p m) = if p (key, v) then Some v else None.
Proof.
  induction m as [|[k v'] m IH]; cbn [map fst Nostr.map_get List.filter];
    intros Hnd Hget; [done|].
  apply NoDup_cons in Hnd as [Hk Hnd].
  destruct (String.eqb k key) eqn:E.
  - apply String.eqb_eq in E as ->. injection Hget as ->.
    destruct (p (key, v)); cbn [Nostr.map_get]; [by rewrite String.eqb_refl|].
    destruct (Nostr.map_get key (List.filter p m)) as [v''|] eqn:G; [|done].
    destruct Hk. clear -G. induction m as [|[k1 v1] m IH]; [done|].
    cbn [List.filter] in G. cbn [map fst]. apply elem_of_cons.
    destruct (p (k1, v1)); [|right; by apply IH].
    cbn [Nostr.map_get] in G. destruct (String.eqb k1 key) eqn:E1.
    + left. symmetry. by apply String.eqb_eq.
    + right. by apply IH.
  - destruct (p (k, v')); cbn [Nostr.map_get]; [rewrite E|]; by apply IH.
Qed.

Lemma deliveries_elem (event event' : NostrEvent) (subs : list (string * Subscription))
    (open : gset WebSocket) (w : WebSocket) (name : string) :
  (w, EVENT name event') ∈ Trace.deliveries event subs open <->
  event' = event
  /\ exists sub, (name, sub) ∈ subs /\ ws sub = w
       /\ Nostr.eventMatchesFilters event (filters sub) = true /\ w ∈ open.
Proof.
  unfold Trace.deliveries. rewrite list_elem_of_In, in_flat_map. split.
  - intros [[s sub] [Hin Hd]]. cbn [fst snd] in Hd.
    destruct (Nostr.eventMatchesFilters _ _) eqn:Hm; [|done].
    destruct (bool_decide _) eqn:Ho; [|done]. cbn in Hd.
    destruct Hd as [[= <- <- <-]|[]]. apply bool_decide_eq_true_1 in Ho.
    split; [done|]. exists sub. by rewrite list_elem_of_In.
  - intros [-> (sub & Hin & <- & Hm & Ho)]. exists (name, sub).
    split; [by apply list_elem_of_In|]. cbn [fst snd].
    rewrite Hm, bool_decide_eq_true_2 by done. by left.
Qed.

Lemma for_each_broadcast (event : NostrEvent) (subs : list (string * Subscription))
    (st : RelayState) :
  for_each subs (fun entry =>
    let '(subId, sub) := entry in
    if Nostr.eventMatchesFilters event (filters sub)
    then Nostr.sendMessage (ws sub) (EVENT subId event)
    else ret tt) st
  = (Returned tt, st, Trace.deliveries event subs (open_sockets st)).
Proof.
  induction subs as [|[s sub] subs IH]; [reflexivity|].
  cbn [for_each]. unfold bind. unfold Trace.deliveries. cbn [flat_map fst snd].
  destruct (Nostr.eventMatchesFilters _ _).
  - rewrite sendMessage_run, IH. by destruct (bool_decide _).
  - unfold ret at 1. by rewrite IH.
Qed.

Lemma broadcastEvent_run (event : NostrEvent) (st : RelayState) :
  Nostr.broadcastEvent event st
  = (Returned tt, st, Trace.deliveries event (subscriptions st) (open_sockets st)).
Proof.
  unfold Nostr.broadcastEvent, bind, gets. by rewrite for_each_broadcast.
Qed.


Lemma saveEvent_run (event : NostrEvent) (st : RelayState) :
  Db.saveEvent event st
  = (Returned tt,
     if bool_decide (id event ∈ map id (events st)) then st
     else set_events (fun rows => rows ++ [event]) st,
     []).
Proof. reflexivity. Qed.

Lemma saveEvent_frame (event : NostrEvent) (st : RelayState) :
  let st' := state_of (Db.saveEvent event st) in
  subscriptions st' = subscriptions st /\ open_sockets st' = open_sockets st
  /\ research_papers st' = research_papers st
  /\ lightning_invoices st' = lightning_invoices st
  /\ relay_config st' = relay_config st.
Proof. rewrite saveEvent_run. cbn. by destruct (bool_decide _). Qed.

(** A valid event of a kind without a handler of its own, or a highlight
    or reaction: saved if new, acknowledged, broadcast. *)
Lemma handleMessage_free_kind `{Sha256} (ws : WebSocket) (event : NostrEvent)
    (st : RelayState) :
  validateEventSignature event = true ->
  kind event <> 30023 -> kind event <> 1 -> kind event <> 1111 ->
  Nostr.handleMessage ws (ClientEVENT event) st
  = (Returned tt, state_of (Db.saveEvent event st),
     (if bool_decide (ws ∈ open_sockets st)
      then [(ws, OK (id event) true "")] else [])
     ++ Trace.deliveries event (subscriptions st) (open_sockets st)).
Proof.
  intros Hv H1 H2 H3.
  unfold Nostr.handleMessage, Nostr.handleEvent. rewrite Hv. cbn [negb].
  apply Z.eqb_neq in H1, H2, H3. rewrite H1, H2, H3.
  assert (bind (Db.saveEvent event)
            (fun _ => bind (Nostr.sendOK ws (id event) true "")
                        (fun _ => Nostr.broadcastEvent event)) st
          = (Returned tt, state_of (Db.saveEvent event st),
             (if bool_decide (ws ∈ open_sockets st)
              then [(ws, OK (id event) true "")] else [])
             ++ Trace.deliveries event (subscriptions st) (open_sockets st))) as Hrun.
  { destruct (saveEvent_frame event st) as (Hs & Ho & _).
    unfold bind at 1. rewrite saveEvent_run in *. cbn [state_of fst snd] in *.
    unfold bind, Nostr.sendOK. rewrite sendMessage_run, broadcastEvent_run.
    rewrite Hs, Ho. reflexivity. }
  unfold Nostr.handleHighlight, Nostr.handleReaction, try_catch.
  destruct (kind event =? 9802); [by rewrite Hrun|].
  destruct (kind event =? 7); by rewrite Hrun.
Qed.

Lemma handleEvent_events_by_registry `{Sha256} (sender : WebSocket)
    (event : NostrEvent) (st : RelayState) :
  Forall (fun d =>
            match d with
            | (w, EVENT name event') =>
                (w, EVENT name event')
                ∈ Trace.deliveries event (subscriptions st) (open_sockets st)
            | _ => True
            end)
    (sent (Nostr.handleMessage sender (ClientEVENT event) st)).
Proof.
  set (P := fun d : Delivery => match d with
            | (w, EVENT name event') =>
                (w, EVENT name event')
                ∈ Trace.deliveries event (subscriptions st) (open_sockets st)
            | _ => True end).
  set (I := fun st' => subscriptions st' = subscriptions st
                       /\ open_sockets st' = open_sockets st).
  assert (Trace.keeps I P (Nostr.handleMessage sender (ClientEVENT event))) as K.
  { unfold Nostr.handleMessage, Nostr.sendNotice. apply keeps_try_catch.
    - apply handleEvent_keeps; try done.
      intros st' [Hs Ho]. rewrite broadcastEvent_run. cbn [state_of sent fst snd].
      split; [done|]. rewrite Hs, Ho. apply List.Forall_forall.
      intros [w [| name e' | |]] Hin; try done. by apply list_elem_of_In.
    - by apply sendMessage_keeps. }
  by apply K.
Qed.

(** C10. The registry is keyed by the subscription name alone.  After
    socket [a] and then a different socket [b] register the same name, the
    name is bound to [b] with [b]'s filters; whatever event is submitted
    next, every EVENT delivered under that name goes to [b], and a valid
    event of a free kind that matches [b]'s filters is delivered to [b] (if
    open) and not to [a]; a CLOSE for the name from any socket [c] removes
    the binding, after which a submission delivers nothing under that
    name; and the teardown of [a] leaves the binding in place, while the
    teardown of [b] removes it. *)
Theorem registry_keyed_by_name `{Sha256} (a b c sender : WebSocket) (name : string)
    (fa fb : list NostrFilter) (event : NostrEvent) (st : RelayState) :
  a <> b ->
  NoDup (map fst (subscriptions st)) ->
  let st1 := state_of (Nostr.handleMessage a (ClientREQ name fa) st) in
  let st2 := state_of (Nostr.handleMessage b (ClientREQ name fb) st1) in
  let st3 := state_of (Nostr.handleMessage c (ClientCLOSE name) st2) in
  Nostr.map_get name (subscriptions st1) = Some (mkSub a fa)
  /\ Nostr.map_get name (subscriptions st2) = Some (mkSub b fb)
  /\ (forall w event',
        (w, EVENT name event')
        ∈ sent (Nostr.handleMessage sender (ClientEVENT event) st2) ->
        w = b)
  /\ (validateEventSignature event = true ->
      kind event <> 30023 -> kind event <> 1 -> kind event <> 1111 ->
      Nostr.eventMatchesFilters event fb = true -> b ∈ open_sockets st ->
      (b, EVENT name event)
      ∈ sent (Nostr.handleMessage sender (ClientEVENT event) st2))
  /\ Nostr.map_get name (subscriptions st3) = None
  /\ (forall w event',
        (w, EVENT name event')
        ∉ sent (Nostr.handleMessage sender (ClientEVENT event) st3))
  /\ Nostr.map_get name (subscriptions (state_of (Nostr.cleanup a st2)))
     = Some (mkSub b fb)
  /\ Nostr.map_get name (subscriptions (state_of (Nostr.cleanup b st2))) = None.
Proof.
  intros Hab Hnd st1 st2 st3.
  assert (st1 = set_subscriptions (Nostr.map_set name (mkSub a fa)) st) as E1.
  { unfold st1, Nostr.handleMessage, try_catch. by rewrite handleRequest_run_any. }
  assert (st2 = set_subscriptions (Nostr.map_set name (mkSub b fb)) st1) as E2.
  { unfold st2, Nostr.handleMessage, try_catch. by rewrite handleRequest_run_any. }
  assert (st3 = set_subscriptions (Nostr.map_delete name) st2) as E3 by reflexivity.
  assert (NoDup (map fst (subscriptions st2))) as Hnd2.
  { rewrite E2, E1. cbn [subscriptions set_subscriptions].
    by do 2 apply map_set_NoDup. }
  assert (Nostr.map_get name (subscriptions st2) = Some (mkSub b fb)) as Hget2.
  { rewrite E2. cbn [subscriptions set_subscriptions]. apply map_get_set_eq. }
  assert (Nostr.map_get name (subscriptions st3) = None) as Hget3.
  { rewrite E3. cbn [subscriptions set_subscriptions]. apply map_get_delete_eq. }
  split; [rewrite E1; apply map_get_set_eq|]. split; [exact Hget2|].
  split; [|split; [|split; [exact Hget3|split; [|split]]]].
  - intros w event' Hin.
    pose proof (handleEvent_events_by_registry sender event st2) as HF.
    rewrite List.Forall_forall in HF. apply list_elem_of_In, HF in Hin.
    apply deliveries_elem in Hin as (_ & sub & Hsub & <- & _).
    apply (map_get_elem _ _ _ Hnd2) in Hsub. rewrite Hget2 in Hsub.
    by injection Hsub as <-.
  - intros Hv H1 H2 H3 Hm Hopen. rewrite handleMessage_free_kind by done.
    cbn [sent snd]. apply elem_of_app. right. apply deliveries_elem.
    split; [done|]. exists (mkSub b fb). repeat split; try done.
    + clear -Hget2. induction (subscriptions st2) as [|[k v] l IH]; [done|].
      cbn [Nostr.map_get] in Hget2. destruct (String.eqb k name) eqn:E.
      * apply String.eqb_eq in E as ->. injection Hget2 as ->. by left.
      * right. by apply IH.
    + by rewrite E2, E1.
  - intros w event' Hin.
    pose proof (handleEvent_events_by_registry sender event st3) as HF.
    rewrite List.Forall_forall in HF. apply list_elem_of_In, HF in Hin.
    apply deliveries_elem in Hin as (_ & sub & Hsub & <- & _).
    apply map_get_elem in Hsub; [congruence|].
    rewrite E3. cbn [subscriptions set_subscriptions]. by apply map_delete_NoDup.
  - cbn [Nostr.cleanup modify state_of fst snd subscriptions set_subscriptions].
    rewrite (map_get_filter name (mkSub b fb)) by done. cbn [snd ws].
    by rewrite (proj2 (Nat.eqb_neq b a)).
  - cbn [Nostr.cleanup modify state_of fst snd subscriptions set_subscriptions].
    rewrite (map_get_filter name (mkSub b fb)) by done. cbn [snd ws].
    by rewrite Nat.eqb_refl.
Qed.

Lemma registry_keyed_by_name_witness :
  Nostr.map_get "s1"
    (subscriptions
       (state_of
          (@Nostr.handleMessage Examples.example_digest 2%nat
             (ClientREQ "s1" [Examples.kind_filter 7])
             (state_of
                (@Nostr.handleMessage Examples.example_digest 1%nat
                   (ClientREQ "s1" [Examples.kind_filter 1])
                   Examples.open_state)))))
  = Some (mkSub 2%nat [Examples.kind_filter 7])
  /\ (2%nat, EVENT "s1" Examples.reaction)
     ∈ sent
         (@Nostr.handleMessage Examples.example_digest 1%nat
            (ClientEVENT Examples.reaction)
            (state_of
               (@Nostr.handleMessage Examples.example_digest 2%nat
                  (ClientREQ "s1" [Examples.kind_filter 7])
                  (state_of
                     (@Nostr.handleMessage Examples.example_digest 1%nat
                        (ClientREQ "s1" [Examples.kind_filter 1])
                        Examples.open_state))))).
Proof.
  destruct (@registry_keyed_by_name Examples.example_digest 1%nat 2%nat 1%nat 1%nat
              "s1" [Examples.kind_filter 1] [Examples.kind_filter 7]
              Examples.reaction Examples.open_state)
    as (_ & Hb & _ & Hdeliver & _).
  - lia.
  - simpl. constructor.
  - split; [exact Hb|]. apply Hdeliver.
    + vm_compute. reflexivity.
    + vm_compute. discriminate.
    + vm_compute. discriminate.
    + vm_compute. discriminate.
    + vm_compute. reflexivity.
    + apply (bool_decide_unpack _). vm_compute. exact Logic.I.
Defined.

(** * Filter matching *)

Lemma excludes_false {A} `{EqDecision A} (o : option (list A)) (x : A) :
  Nostr.excludes o x = false <-> (forall l, o = Some l -> x ∈ l).
Proof.
  destruct o as [l|]; cbn [Nostr.excludes].
  - rewrite negb_false_iff, bool_decide_eq_true. split.
    + by intros Hx l' [= <-].
    + intros Hl. by apply Hl.
  - split; [by intros _ l' [=]|done].
Qed.

Lemma lower_bound_ok (o : option Z) (t : Z) :
  truthy_num o && (t <? default 0 o) = false <->
  (forall s, o = Some s -> s <> 0 -> s <= t).
Proof.
  destruct o as [s|]; cbn [truthy_num default].
  - destruct (Z.eqb_spec s 0) as [->|Hs]; cbn [negb andb].
    + split; [by intros _ s' [= <-]|done].
    + rewrite Z.ltb_ge. split; [by intros Hle s' [= <-]|]. intros Hle. by apply Hle.
  - cbn [andb]. split; [by intros _ s' [=]|done].
Qed.

Lemma upper_bound_ok (o : option Z) (t : Z) :
  truthy_num o && (default 0 o <? t) = false <->
  (forall u, o = Some u -> u <> 0 -> t <= u).
Proof.
  destruct o as [u|]; cbn [truthy_num default].
  - destruct (Z.eqb_spec u 0) as [->|Hu]; cbn [negb andb].
    + split; [by intros _ u' [= <-]|done].
    + rewrite Z.ltb_ge. split; [by intros Hle u' [= <-]|]. intros Hle. by apply Hle.
  - cbn [andb]. split; [by intros _ u' [=]|done].
Qed.

Lemma eventMatchesFilter_spec (event : NostrEvent) (filter : NostrFilter) :
  Nostr.eventMatchesFilter event filter = true <-> Spec.filter_satisfied event filter.
Proof.
  unfold Nostr.eventMatchesFilter, Spec.filter_satisfied.
  rewrite <- !excludes_false, <- lower_bound_ok, <- upper_bound_ok.
  destruct (Nostr.excludes (ids filter) _); [intuition discriminate|].
  destruct (Nostr.excludes (authors filter) _); [intuition discriminate|].
  destruct (Nostr.excludes (kinds filter) _); [intuition discriminate|].
  destruct (truthy_num (since filter) && _); [intuition discriminate|].
  destruct (truthy_num (until filter) && _); intuition discriminate.
Qed.

(** Live matching is disjunctive over the filters and conjunctive inside
    a filter. *)
Lemma eventMatchesFilters_spec (event : NostrEvent) (filters : list NostrFilter) :
  Nostr.eventMatchesFilters event filters = true
  <-> Spec.subscription_matches event filters.
Proof.
  unfold Nostr.eventMatchesFilters, Spec.subscription_matches.
  rewrite existsb_exists. split.
  - intros (f & Hin & Hm). exists f.
    by rewrite list_elem_of_In, <- eventMatchesFilter_spec.
  - intros (f & Hin & Hm). exists f.
    by rewrite <- list_elem_of_In, eventMatchesFilter_spec.
Qed.

(** The stored-event query is conjunctive over the filters: a row is
    selected only if it passes the conditions of every filter. *)
Lemma where_clause_all (filters : list NostrFilter) (row : NostrEvent) :
  Db.where_clause filters row = true
  <-> (forall filter, filter ∈ filters -> Db.filter_conditions filter row = true).
Proof.
  unfold Db.where_clause. rewrite forallb_forall.
  split; intros Hall f Hin; apply Hall; by apply list_elem_of_In.
Qed.

(** C2 (divergence). A stored event of kind 1 by alice matches the
    subscription [{kinds:[1]}, {authors:["carol"]}] under live matching, but
    the replay for a REQ with these filters selects nothing: the query
    requires kind 1 and author carol together.  With no filter at all it is
    the other way round. *)
Theorem replay_conjoins_filters :
  let filters := [Examples.kind_filter 1; Examples.author_filter "carol"] in
  Nostr.eventMatchesFilters Examples.note filters = true
  /\ sent (@Nostr.handleMessage Examples.example_digest 1%nat
             (ClientREQ "s1" filters) Examples.state_with_note)
     = [(1%nat, EOSE "s1")]
  /\ Nostr.eventMatchesFilters Examples.note [] = false
  /\ sent (@Nostr.handleMessage Examples.example_digest 1%nat
             (ClientREQ "s1" []) Examples.state_with_note)
     = [(1%nat, EVENT "s1" Examples.note); (1%nat, EOSE "s1")].
Proof. vm_compute. repeat split. Qed.

(** * Running handlers *)

Lemma bind_gets {A B} (f : RelayState -> A) (k : A -> M B) (st : RelayState) :
  bind (gets f) k st = k (f st) st.
Proof. unfold bind, gets. by destruct (k (f st) st) as [[r st2] out2]. Qed.

Lemma bind_ret {A B} (a : A) (k : A -> M B) (st : RelayState) :
  bind (ret a) k st = k a st.
Proof. unfold bind, ret. by destruct (k a st) as [[r st2] out2]. Qed.

Lemma bind_modify {B} (f : RelayState -> RelayState) (k : unit -> M B)
    (st : RelayState) :
  bind (modify f) k st = k tt (f st).
Proof. unfold bind, modify. by destruct (k tt (f st)) as [[r st2] out2]. Qed.

Lemma bind_throw {A B} (k : A -> M B) (st : RelayState) :
  bind throw k st = (Thrown, st, []).
Proof. reflexivity. Qed.

Lemma bind_returned {A B} (m : M A) (k : A -> M B) (st st1 : RelayState) (a : A) :
  m st = (Returned a, st1, []) -> bind m k st = k a st1.
Proof. unfold bind. intros ->. by destruct (k a st1) as [[r st2] out2]. Qed.

Lemma bind_bind {A B C} (m : M A) (k : A -> M B) (k' : B -> M C) (st : RelayState) :
  bind (bind m k) k' st = bind m (fun a => bind (k a) k') st.
Proof.
  unfold bind. destruct (m st) as [[[a|] st1] out1]; [|reflexivity].
  destruct (k a st1) as [[[b|] st2] out2]; [|reflexivity].
  destruct (k' b st2) as [[r st3] out3]. by rewrite app_assoc.
Qed.

Lemma bind_sendOK {B} (ws : WebSocket) (eventId : string) (success : bool)
    (reason : string) (k : unit -> M B) (st : RelayState) :
  bind (Nostr.sendOK ws eventId success reason) k st
  = let '(r, st', out) := k tt st in
    (r, st',
     (if bool_decide (ws ∈ open_sockets st)
      then [(ws, OK eventId success reason)] else []) ++ out).
Proof. unfold bind, Nostr.sendOK. by rewrite sendMessage_run. Qed.

Lemma calculatePrice_run (sizeBytes : Z) (durationYears : Q) (st : RelayState) :
  Pricing.calculatePrice sizeBytes durationYears st
  = (Returned (mkPrice (Spec.quoted_amount st)
                 (inject_Z sizeBytes / inject_Z (1024 * 1024))%Q durationYears),
     st, []).
Proof. reflexivity. Qed.

Lemma bind_calculatePrice {B} (sizeBytes : Z) (durationYears : Q)
    (k : PriceCalculation -> M B) (st : RelayState) :
  bind (Pricing.calculatePrice sizeBytes durationYears) k st
  = k (mkPrice (Spec.quoted_amount st)
         (inject_Z sizeBytes / inject_Z (1024 * 1024))%Q durationYears) st.
Proof.
  unfold bind. rewrite calculatePrice_run.
  by destruct (k _ st) as [[r st2] out2].
Qed.

Lemma saveResearchPaper_run (paper : ResearchPaper) (st : RelayState) :
  Db.saveResearchPaper paper st
  = if negb (from_option valid_date true (published_at paper))
       || bool_decide (event_id paper ∈ map event_id (research_papers st))
    then (Thrown, st, [])
    else (Returned tt,
          set_research_papers (fun rows => rows ++ [Db.stored_paper paper]) st, []).
Proof.
  unfold Db.saveResearchPaper.
  destruct (published_at paper) as [instant|]; cbn [from_option].
  - destruct (valid_date instant); cbn [negb orb]; [|reflexivity].
    rewrite bind_ret, bind_gets. by destruct (bool_decide _).
  - cbn [negb orb]. rewrite bind_ret, bind_gets. by destruct (bool_decide _).
Qed.

Lemma saveResearchPaper_cases (paper : ResearchPaper) (st : RelayState) :
  Db.saveResearchPaper paper st = (Thrown, st, [])
  \/ ((event_id paper ∉ map event_id (research_papers st))
      /\ Db.saveResearchPaper paper st
         = (Returned tt,
            set_research_papers (fun rows => rows ++ [Db.stored_paper paper]) st, [])).
Proof.
  rewrite saveResearchPaper_run. destruct (negb _); cbn [orb]; [by left|].
  destruct (bool_decide _) eqn:E; [by left|]. right.
  by apply bool_decide_eq_false_1 in E.
Qed.

(** The tail of [handleResearchPaper] once the payment check is passed or
    skipped. *)
Lemma publish_run (ws : WebSocket) (event : NostrEvent) (price : JsNum)
    (st : RelayState) :
  bind (Db.saveResearchPaper (Spec.paper_record event price))
    (fun _ => bind (Nostr.storage_saveResearchPaper (id event) (content event))
    (fun _ => bind (Db.saveEvent event)
    (fun _ => bind (Nostr.sendOK ws (id event) true "Paper published successfully")
    (fun _ => Nostr.broadcastEvent event)))) st
  = if negb (valid_date (created_at event * 1000))
       || bool_decide (id event ∈ map event_id (research_papers st))
    then (Thrown, st, [])
    else (Returned tt, Spec.published_state event price st,
          (if bool_decide (ws ∈ open_sockets st)
           then [(ws, OK (id event) true "Paper published successfully")] else [])
          ++ Trace.deliveries event (subscriptions st) (open_sockets st)).
Proof.
  pose proof (saveResearchPaper_run (Spec.paper_record event price) st) as Hsave.
  cbn [Spec.paper_record published_at event_id from_option] in Hsave.
  fold (Spec.paper_record event price) in Hsave.
  destruct (negb _ || bool_decide _).
  { unfold bind at 1. by rewrite Hsave. }
  rewrite (bind_returned _ _ _ _ _ Hsave). cbv beta.
  unfold Nostr.storage_saveResearchPaper. rewrite bind_modify.
  unfold Spec.published_state. fold (Spec.paper_record event price).
  set (st1 := set_storage_files _ _).
  destruct (saveEvent_frame event st1) as (Hs & Ho & _).
  unfold bind at 1. rewrite saveEvent_run in *. cbn [state_of fst snd] in *.
  rewrite bind_sendOK, broadcastEvent_run, Hs, Ho. reflexivity.
Qed.

Lemma handleResearchPaper_run (ws : WebSocket) (event : NostrEvent) (st : RelayState) :
  Nostr.handleResearchPaper ws event st
  = if num_gt (Num (calculateContentSize (content event))) (Spec.max_content_size st)
    then Nostr.sendOK ws (id event) false "Content too large" st
    else
      let price := Spec.quoted_amount st in
      let publish :=
        if negb (valid_date (created_at event * 1000))
           || bool_decide (id event ∈ map event_id (research_papers st))
        then (Thrown, st, [])
        else (Returned tt, Spec.published_state event price st,
              (if bool_decide (ws ∈ open_sockets st)
               then [(ws, OK (id event) true "Paper published successfully")]
               else [])
              ++ Trace.deliveries event (subscriptions st) (open_sockets st)) in
      if num_gt price (Num 0) then
        match Spec.payment_reference event with
        | None =>
            Nostr.sendOK ws (id event) false
              ("Payment required: " +:+ num_to_string price
                 +:+ " sats. Create invoice first.") st
        | Some hash =>
            match lightning_invoices st !! hash with
            | None => Nostr.sendOK ws (id event) false "Invalid payment hash" st
            | Some inv =>
                if negb (paid inv) then
                  Nostr.sendOK ws (id event) false "Payment not completed" st
                else if num_lt (Num (amount_sats inv)) price then
                  Nostr.sendOK ws (id event) false "Insufficient payment amount" st
                else publish
            end
        end
      else publish.
Proof.
  unfold Nostr.handleResearchPaper, Db.getConfig. rewrite bind_gets.
  fold (Spec.max_content_size st).
  destruct (num_gt _ (Spec.max_content_size st)); [reflexivity|].
  rewrite bind_calculatePrice. cbn [price_sats]. cbv zeta.
  fold (Spec.paper_record event (Spec.quoted_amount st)).
  fold (Spec.payment_reference event).
  destruct (num_gt (Spec.quoted_amount st) (Num 0)); [|apply publish_run].
  destruct (Spec.payment_reference event) as [hash|]; [|reflexivity].
  unfold Db.getInvoice. rewrite bind_gets.
  destruct (lightning_invoices st !! hash) as [inv|]; [|reflexivity].
  destruct (negb (paid inv)); [reflexivity|].
  destruct (num_lt _ _); [reflexivity|]. apply publish_run.
Qed.

Lemma handleMessage_event `{Sha256} (ws : WebSocket) (event : NostrEvent)
    (st : RelayState) :
  Nostr.handleMessage ws (ClientEVENT event) st = Nostr.handleEvent ws event st.
Proof.
  unfold Nostr.handleMessage, Nostr.handleEvent.
  set (m := if negb _ then _ else _).
  unfold try_catch at 1. unfold try_catch.
  destruct (m st) as [[[[]|] st1] out1]; [reflexivity|].
  unfold Nostr.sendOK. by rewrite sendMessage_run.
Qed.

Lemma handleMessage_paper `{Sha256} (ws : WebSocket) (event : NostrEvent)
    (st : RelayState) :
  validateEventSignature event = true -> kind event = 30023 ->
  Nostr.handleMessage ws (ClientEVENT event) st
  = try_catch (Nostr.handleResearchPaper ws event)
      (Nostr.sendOK ws (id event) false "Server error") st.
Proof.
  intros Hv Hk. rewrite handleMessage_event. unfold Nostr.handleEvent, try_catch.
  by rewrite Hv, Hk.
Qed.

Lemma sendOK_run (ws : WebSocket) (eventId : string) (success : bool)
    (reason : string) (st : RelayState) :
  ws ∈ open_sockets st ->
  Nostr.sendOK ws eventId success reason st
  = (Returned tt, st, [(ws, OK eventId success reason)]).
Proof.
  intros Hopen. unfold Nostr.sendOK. by rewrite sendMessage_run, bool_decide_eq_true_2.
Qed.

Lemma published_state_events (event : NostrEvent) (price : JsNum) (st : RelayState) :
  id event ∈ map id (events (Spec.published_state event price st)).
Proof.
  unfold Spec.published_state. rewrite saveEvent_run. cbn [state_of fst snd].
  destruct (bool_decide _) eqn:E.
  - by apply bool_decide_eq_true_1 in E.
  - cbn [events set_events]. rewrite map_app. apply elem_of_app. right.
    by apply list_elem_of_singleton.
Qed.

Lemma handleMessage_paper_verdict `{Sha256} (ws : WebSocket) (event : NostrEvent)
    (st : RelayState) (A : Z) :
  validateEventSignature event = true -> kind event = 30023 ->
  ws ∈ open_sockets st ->
  valid_date (created_at event * 1000) = true ->
  id event ∉ map event_id (research_papers st) ->
  num_gt (Num (calculateContentSize (content event))) (Spec.max_content_size st) = false ->
  Spec.quoted_amount st = Num A -> 0 < A ->
  let r := Nostr.handleMessage ws (ClientEVENT event) st in
  match Spec.payment_reference event with
  | None =>
      Spec.rejected_with ws event
        ("Payment required: " +:+ pretty A +:+ " sats. Create invoice first.") st r
  | Some hash =>
      match lightning_invoices st !! hash with
      | None => Spec.rejected_with ws event "Invalid payment hash" st r
      | Some inv =>
          if negb (paid inv) then
            Spec.rejected_with ws event "Payment not completed" st r
          else if amount_sats inv <? A then
            Spec.rejected_with ws event "Insufficient payment amount" st r
          else
            r = (Returned tt, Spec.published_state event (Num A) st,
                 (ws, OK (id event) true "Paper published successfully")
                 :: Trace.deliveries event (subscriptions st) (open_sockets st))
      end
  end.
Proof.
  intros Hv Hk Hopen Hdate Hnew Hsize Hq HA r. unfold r, Spec.rejected_with.
  rewrite handleMessage_paper by done. unfold try_catch.
  rewrite handleResearchPaper_run, Hsize, Hq. cbv zeta. cbn [num_gt num_lt num_to_string].
  rewrite (proj2 (Z.ltb_lt 0 A) HA), Hdate.
  rewrite (bool_decide_eq_false_2 _ Hnew), (bool_decide_eq_true_2 _ Hopen).
  cbn [negb orb].
  destruct (Spec.payment_reference event) as [hash|]; [|by rewrite sendOK_run].
  destruct (lightning_invoices st !! hash) as [inv|]; [|by rewrite sendOK_run].
  destruct (negb (paid inv)); [by rewrite sendOK_run|].
  destruct (amount_sats inv <? A); [by rewrite sendOK_run|]. reflexivity.
Qed.

Lemma rejected_not_admitted (ws : WebSocket) (event : NostrEvent) (reason : string)
    (st : RelayState) (r : Completion unit * RelayState * list Delivery) :
  Spec.rejected_with ws event reason st r -> ~ Spec.admitted ws event r.
Proof.
  unfold Spec.rejected_with. intros -> [[reason' Hin] _]. cbn [sent snd] in Hin.
  by apply list_elem_of_singleton in Hin.
Qed.

(** A priced paper whose record cannot be inserted is refused: by the
    payment check, or else with a server error. *)
Lemma handleMessage_paper_insert_fails `{Sha256} (ws : WebSocket) (event : NostrEvent)
    (st : RelayState) (A : Z) :
  validateEventSignature event = true -> kind event = 30023 ->
  ws ∈ open_sockets st ->
  negb (valid_date (created_at event * 1000))
  || bool_decide (id event ∈ map event_id (research_papers st)) = true ->
  num_gt (Num (calculateContentSize (content event))) (Spec.max_content_size st) = false ->
  Spec.quoted_amount st = Num A -> 0 < A ->
  let r := Nostr.handleMessage ws (ClientEVENT event) st in
  (Spec.payment_verified st event A ->
   Spec.rejected_with ws event "Server error" st r)
  /\ exists reason, Spec.rejected_with ws event reason st r.
Proof.
  intros Hv Hk Hopen Hfail Hsize Hq HA r. unfold r, Spec.rejected_with.
  rewrite handleMessage_paper by done. unfold try_catch.
  rewrite handleResearchPaper_run, Hsize, Hq. cbv zeta. cbn [num_gt num_lt].
  rewrite (proj2 (Z.ltb_lt 0 A) HA), Hfail. unfold Spec.payment_verified.
  destruct (Spec.payment_reference event) as [hash|].
  2: { rewrite sendOK_run by done. split; [|by eexists].
       by intros (h & inv & [=] & _). }
  destruct (lightning_invoices st !! hash) as [inv|] eqn:Hinv.
  2: { rewrite sendOK_run by done. split; [|by eexists].
       intros (h & inv & [= <-] & Hinv' & _). congruence. }
  destruct (paid inv) eqn:Hpaid; cbn [negb].
  2: { rewrite sendOK_run by done. split; [|by eexists].
       intros (h & inv' & [= <-] & Hinv' & Hpaid' & _). congruence. }
  destruct (Z.ltb_spec (amount_sats inv) A) as [Hlt|Hge].
  { rewrite sendOK_run by done. split; [|by eexists].
    intros (h & inv' & [= <-] & Hinv' & _ & Hle).
    assert (inv' = inv) as -> by congruence. lia. }
  rewrite sendOK_run by done. split; [done|by eexists].
Qed.

Lemma handleMessage_paper_iff `{Sha256} (ws : WebSocket) (event : NostrEvent)
    (st : RelayState) (A : Z) :
  validateEventSignature event = true -> kind event = 30023 ->
  ws ∈ open_sockets st ->
  valid_date (created_at event * 1000) = true ->
  id event ∉ map event_id (research_papers st) ->
  num_gt (Num (calculateContentSize (content event))) (Spec.max_content_size st) = false ->
  Spec.quoted_amount st = Num A -> 0 < A ->
  Spec.admitted ws event (Nostr.handleMessage ws (ClientEVENT event) st)
  <-> Spec.payment_verified st event A.
Proof.
  intros Hv Hk Hopen Hdate Hnew Hsize Hq HA.
  pose proof (handleMessage_paper_verdict ws event st A Hv Hk Hopen Hdate Hnew Hsize Hq HA)
    as Hverdict. cbv zeta in Hverdict. unfold Spec.payment_verified.
  destruct (Spec.payment_reference event) as [hash|].
  2: { split; [by intros ?%(rejected_not_admitted _ _ _ _ _ Hverdict)|].
       by intros (h & inv & [=] & _). }
  destruct (lightning_invoices st !! hash) as [inv|] eqn:Hinv.
  2: { split; [by intros ?%(rejected_not_admitted _ _ _ _ _ Hverdict)|].
       intros (h & inv & [= <-] & Hinv' & _). congruence. }
  destruct (paid inv) eqn:Hpaid; cbn [negb] in Hverdict.
  2: { split; [by intros ?%(rejected_not_admitted _ _ _ _ _ Hverdict)|].
       intros (h & inv' & [= <-] & Hinv' & Hpaid' & _). congruence. }
  destruct (Z.ltb_spec (amount_sats inv) A) as [Hlt|Hge].
  { split; [by intros ?%(rejected_not_admitted _ _ _ _ _ Hverdict)|].
    intros (h & inv' & [= <-] & Hinv' & _ & Hle).
    assert (inv' = inv) as -> by congruence. lia. }
  split.
  - intros _. by exists hash, inv.
  - intros _. rewrite Hverdict. split.
    + exists "Paper published successfully". cbn [sent snd]. apply elem_of_cons. by left.
    + cbn [state_of fst snd]. apply published_state_events.
Qed.

Lemma handleMessage_paper_unpriced `{Sha256} (ws : WebSocket) (event : NostrEvent)
    (st : RelayState) :
  validateEventSignature event = true -> kind event = 30023 ->
  ws ∈ open_sockets st ->
  valid_date (created_at event * 1000) = true ->
  id event ∉ map event_id (research_papers st) ->
  num_gt (Num (calculateContentSize (content event))) (Spec.max_content_size st) = false ->
  num_gt (Spec.quoted_amount st) (Num 0) = false ->
  Nostr.handleMessage ws (ClientEVENT event) st
  = (Returned tt, Spec.published_state event (Spec.quoted_amount st) st,
     (ws, OK (id event) true "Paper published successfully")
     :: Trace.deliveries event (subscriptions st) (open_sockets st)).
Proof.
  intros Hv Hk Hopen Hdate Hnew Hsize Hq.
  rewrite handleMessage_paper by done. unfold try_catch.
  rewrite handleResearchPaper_run, Hsize. cbv zeta. rewrite Hq, Hdate.
  by rewrite (bool_decide_eq_false_2 _ Hnew), (bool_decide_eq_true_2 _ Hopen).
Qed.

Lemma handleMessage_paper_oversize `{Sha256} (ws : WebSocket) (event : NostrEvent)
    (st : RelayState) :
  validateEventSignature event = true -> kind event = 30023 ->
  ws ∈ open_sockets st ->
  num_gt (Num (calculateContentSize (content event))) (Spec.max_content_size st) = true ->
  Spec.rejected_with ws event "Content too large" st
    (Nostr.handleMessage ws (ClientEVENT event) st).
Proof.
  intros Hv Hk Hopen Hsize. unfold Spec.rejected_with.
  rewrite handleMessage_paper by done. unfold try_catch.
  by rewrite handleResearchPaper_run, Hsize, sendOK_run.
Qed.

Lemma handleMessage_comment `{Sha256} (ws : WebSocket) (event : NostrEvent)
    (st : RelayState) :
  validateEventSignature event = true -> kind event = 1111 ->
  ws ∈ open_sockets st ->
  Nostr.handleMessage ws (ClientEVENT event) st
  = (Returned tt,
     state_of (Db.saveEvent event
       (set_storage_files (insert ("comments/" +:+ id event +:+ ".txt") (content event))
          st)),
     [(ws, NOTICE ("Comment price: " +:+ num_to_string (Spec.quoted_amount st)
                     +:+ " sats. Use /get-comment-invoice endpoint to pay."));
      (ws, OK (id event) true "")]).
Proof.
  intros Hv Hk Hopen. rewrite handleMessage_event.
  unfold Nostr.handleEvent, try_catch. rewrite Hv, Hk. cbn [negb Z.eqb Pos.eqb].
  unfold Nostr.handleComment, Pricing.calculateCommentPrice, Db.getConfig.
  rewrite bind_bind, bind_gets, bind_ret. cbn [price_sats].
  fold (Spec.quoted_amount st).
  unfold bind at 1. rewrite sendMessage_run, (bool_decide_eq_true_2 _ Hopen).
  unfold Nostr.storage_saveComment. rewrite bind_modify.
  set (st1 := set_storage_files _ st).
  destruct (saveEvent_frame event st1) as (_ & Ho & _).
  unfold bind. rewrite saveEvent_run in *. cbn [state_of fst snd] in *.
  rewrite sendOK_run; [reflexivity|]. by rewrite Ho.
Qed.

Lemma saveEvent_events (event : NostrEvent) (st : RelayState) :
  id event ∈ map id (events (state_of (Db.saveEvent event st))).
Proof.
  rewrite saveEvent_run. cbn [state_of fst snd].
  destruct (bool_decide _) eqn:E.
  - by apply bool_decide_eq_true_1 in E.
  - cbn [events set_events]. rewrite map_app. apply elem_of_app. right.
    by apply list_elem_of_singleton.
Qed.

Lemma legacy_handleResearchPaper_run (ws : WebSocket) (event : NostrEvent)
    (st : RelayState) :
  ws ∈ open_sockets st ->
  id event ∉ map event_id (research_papers st) ->
  num_gt (Num (calculateContentSize (content event))) (Spec.max_content_size st) = false ->
  exists price,
    NostrLegacy.handleResearchPaper ws event st
    = (Returned tt,
       set_storage_files (insert ("papers/" +:+ id event +:+ ".md") (content event))
         (set_research_papers (fun rows => rows ++
            [mkPaper (id event)
               (or_default (Nostr.getTagValue (tags event) "title") "Untitled")
               [pubkey event]
               (or_default (Nostr.getTagValue (tags event) "summary") "")
               submitted (calculateContentSize (content event))
               None None None None ("./storage/" +:+ id event +:+ ".md")]) st),
       [(ws, NOTICE ("Paper submitted. Price: " +:+ num_to_string price
                       +:+ " sats. Use /get-invoice endpoint to pay."));
        (ws, OK (id event) true "")]).
Proof.
  intros Hopen Hnew Hsize. eexists.
  unfold NostrLegacy.handleResearchPaper, Db.getConfig. rewrite bind_gets.
  fold (Spec.max_content_size st). rewrite Hsize.
  unfold PricingPerMb.calculatePrice, Db.getConfig.
  rewrite bind_bind, bind_gets, bind_ret. cbn [price_sats].
  match goal with
  | |- bind (Db.saveResearchPaper ?paper) _ _ = _ =>
      pose proof (saveResearchPaper_run paper st) as Hsave
  end.
  cbn [published_at event_id from_option negb orb] in Hsave.
  rewrite (bool_decide_eq_false_2 _ Hnew) in Hsave.
  rewrite (bind_returned _ _ _ _ _ Hsave). cbv beta.
  unfold Nostr.storage_saveResearchPaper. rewrite bind_modify.
  unfold bind. rewrite sendMessage_run, sendOK_run by done.
  cbn [open_sockets set_storage_files set_research_papers].
  rewrite (bool_decide_eq_true_2 _ Hopen). reflexivity.
Qed.

(** C1 (as amended). For a valid paper (kind 30023) submitted on an open
    socket, whose timestamp in milliseconds is a valid date (at most
    8.64e15 in magnitude):
    - if it is within the size limit, its quoted amount [A] is a positive
      safe integer and it has no paper record yet, it is admitted exactly
      when it carries a
      payment reference whose invoice exists, is marked paid and has a
      recorded amount of at least [A]; a missing reference, an unknown
      invoice, an unpaid invoice and a recorded amount below [A] are each
      refused with their own reason and without any change of state;
    - if it is within the size limit and its quoted amount is not positive
      (zero, or not a number), it is admitted without any payment check;
    - if it is over the size limit, it is refused whatever it paid. *)
Theorem payment_gate `{Sha256} (ws : WebSocket) (event : NostrEvent) (st : RelayState) :
  validateEventSignature event = true ->
  kind event = 30023 ->
  ws ∈ open_sockets st ->
  valid_date (created_at event * 1000) = true ->
  let r := Nostr.handleMessage ws (ClientEVENT event) st in
  let fits :=
    num_gt (Num (calculateContentSize (content event))) (Spec.max_content_size st)
    = false in
  let fresh := id event ∉ map event_id (research_papers st) in
  (forall A,
     fits -> fresh -> Spec.quoted_amount st = Num A -> 0 < A <= MAX_SAFE_INTEGER ->
     (Spec.admitted ws event r <-> Spec.payment_verified st event A)
     /\ (Spec.payment_reference event = None ->
         Spec.rejected_with ws event
           ("Payment required: " +:+ pretty A +:+ " sats. Create invoice first.")
           st r)
     /\ (forall h,
           Spec.payment_reference event = Some h ->
           lightning_invoices st !! h = None ->
           Spec.rejected_with ws event "Invalid payment hash" st r)
     /\ (forall h inv,
           Spec.payment_reference event = Some h ->
           lightning_invoices st !! h = Some inv ->
           paid inv = false ->
           Spec.rejected_with ws event "Payment not completed" st r)
     /\ (forall h inv,
           Spec.payment_reference event = Some h ->
           lightning_invoices st !! h = Some inv ->
           paid inv = true -> amount_sats inv < A ->
           Spec.rejected_with ws event "Insufficient payment amount" st r))
  /\ (fits -> fresh ->
      num_gt (Spec.quoted_amount st) (Num 0) = false ->
      Spec.admitted ws event r)
  /\ (~ fits -> Spec.rejected_with ws event "Content too large" st r).
Proof.
  intros Hv Hk Hopen Hdate r fits fresh.
  split; [|split].
  - intros A Hfits Hfresh Hq [HA _].
    pose proof (handleMessage_paper_verdict ws event st A Hv Hk Hopen Hdate Hfresh
                  Hfits Hq HA) as V.
    cbv zeta in V. fold r in V.
    split; [by apply handleMessage_paper_iff|].
    split; [intros Href; by rewrite Href in V|].
    split; [intros h Href Hinv; by rewrite Href, Hinv in V|].
    split; [intros h inv Href Hinv Hpaid; by rewrite Href, Hinv, Hpaid in V|].
    intros h inv Href Hinv Hpaid Hlt. rewrite Href, Hinv, Hpaid in V.
    cbn [negb] in V. by rewrite (proj2 (Z.ltb_lt _ _) Hlt) in V.
  - intros Hfits Hfresh Hq. unfold r, Spec.admitted.
    rewrite handleMessage_paper_unpriced by done. cbn [sent state_of fst snd].
    split; [|apply published_state_events].
    exists "Paper published successfully". apply elem_of_cons. by left.
  - intros Hbig. apply handleMessage_paper_oversize; try done.
    unfold fits in Hbig. by destruct (num_gt _ _).
Qed.

Lemma payment_gate_witness :
  Spec.admitted 1%nat Examples.paid_paper
    (@Nostr.handleMessage Examples.example_digest 1%nat
       (ClientEVENT Examples.paid_paper) Examples.paid_state).
Proof.
  destruct (@payment_gate Examples.example_digest 1%nat Examples.paid_paper
              Examples.paid_state) as [Hgate _].
  - vm_compute. reflexivity.
  - reflexivity.
  - apply (bool_decide_unpack _). vm_compute. exact Logic.I.
  - vm_compute. reflexivity.
  - destruct (Hgate 1) as [Hiff _].
    + vm_compute. reflexivity.
    + apply (bool_decide_unpack _). vm_compute. exact Logic.I.
    + vm_compute. reflexivity.
    + unfold MAX_SAFE_INTEGER. lia.
    + apply Hiff.
      exists "inv1", (mkInvoice "lnbc1" 1 "Research paper storage" 0 true (Some 0)).
      repeat split; first [vm_compute; reflexivity | cbn; lia].
Defined.

(** C1 (counterexample). With the flat rate configured as 0, a valid
    paper that carries no payment reference is quoted 0 and admitted. *)
Lemma payment_gate_counterexample :
  Spec.quoted_amount Examples.zero_rate_state = Num 0
  /\ ~ (Spec.admitted 1%nat Examples.unpaid_paper
          (@Nostr.handleMessage Examples.example_digest 1%nat
             (ClientEVENT Examples.unpaid_paper) Examples.zero_rate_state)
        <-> Spec.payment_verified Examples.zero_rate_state Examples.unpaid_paper 0).
Proof.
  split; [vm_compute; reflexivity|].
  intros [Hadm _].
  destruct Hadm as (h & inv & Href & _); [|by vm_compute in Href].
  split.
  - exists "Paper published successfully".
    apply list_elem_of_In. vm_compute. by left.
  - apply list_elem_of_In. vm_compute. by left.
Qed.

(** A priced comment (kind 1111) is quoted by a NOTICE, stored and
    acknowledged; no invoice is consulted. *)
Lemma comment_admitted_unpaid `{Sha256} (ws : WebSocket) (event : NostrEvent)
    (st : RelayState) :
  validateEventSignature event = true -> kind event = 1111 ->
  ws ∈ open_sockets st ->
  Spec.admitted ws event (Nostr.handleMessage ws (ClientEVENT event) st).
Proof.
  intros Hv Hk Hopen. unfold Spec.admitted.
  rewrite handleMessage_comment by done. cbn [sent state_of fst snd].
  split; [|apply saveEvent_events].
  exists "". apply elem_of_cons. right. apply elem_of_cons. by left.
Qed.

(** * Idempotence of admission *)

Lemma saveEvent_idempotent (event : NostrEvent) (st : RelayState) :
  state_of (Db.saveEvent event (state_of (Db.saveEvent event st)))
  = state_of (Db.saveEvent event st).
Proof.
  pose proof (saveEvent_events event st) as Hin.
  rewrite (saveEvent_run event (state_of _)). cbn [state_of fst snd] in *.
  by rewrite bool_decide_eq_true_2.
Qed.

(** A valid event of a free kind can be submitted again: it is
    acknowledged again and the state does not change. *)
Lemma free_kind_resubmission `{Sha256} (ws : WebSocket) (event : NostrEvent)
    (st : RelayState) :
  validateEventSignature event = true ->
  kind event <> 30023 -> kind event <> 1 -> kind event <> 1111 ->
  ws ∈ open_sockets st ->
  let r1 := Nostr.handleMessage ws (ClientEVENT event) st in
  let r2 := Nostr.handleMessage ws (ClientEVENT event) (state_of r1) in
  state_of r2 = state_of r1 /\ (ws, OK (id event) true "") ∈ sent r2.
Proof.
  intros Hv H1 H2 H3 Hopen r1 r2. unfold r2, r1.
  rewrite !handleMessage_free_kind by done. cbn [state_of sent fst snd].
  split; [apply saveEvent_idempotent|].
  destruct (saveEvent_frame event st) as (_ & Ho & _). cbn [state_of fst snd] in Ho.
  rewrite Ho, bool_decide_eq_true_2 by done. apply elem_of_app. left.
  by apply list_elem_of_singleton.
Qed.

(** A paper whose record exists and that passes the payment check is
    answered with a server error: the insert into [research_papers]
    violates the UNIQUE constraint. *)
Lemma recorded_paper_server_error `{Sha256} (ws : WebSocket) (event : NostrEvent)
    (st : RelayState) (A : Z) :
  validateEventSignature event = true -> kind event = 30023 ->
  ws ∈ open_sockets st ->
  id event ∈ map event_id (research_papers st) ->
  num_gt (Num (calculateContentSize (content event))) (Spec.max_content_size st) = false ->
  Spec.quoted_amount st = Num A -> 0 < A ->
  Spec.payment_verified st event A ->
  Nostr.handleMessage ws (ClientEVENT event) st
  = (Returned tt, st, [(ws, OK (id event) false "Server error")]).
Proof.
  intros Hv Hk Hopen Hold Hsize Hq HA Hpaid.
  apply (handleMessage_paper_insert_fails ws event st A); try done.
  by rewrite (bool_decide_eq_true_2 _ Hold), orb_true_r.
Qed.

(** C4 (divergence). A paid paper is admitted; the same event submitted a
    second time is answered [OK(id, false, "Server error")].  No record is
    duplicated: the state after the second submission is the state after
    the first. *)
Theorem resubmitted_paper_server_error :
  let r1 := @Nostr.handleMessage Examples.example_digest 1%nat
              (ClientEVENT Examples.paid_paper) Examples.paid_state in
  let r2 := @Nostr.handleMessage Examples.example_digest 1%nat
              (ClientEVENT Examples.paid_paper) (state_of r1) in
  sent r1 = [(1%nat, OK (id Examples.paid_paper) true "Paper published successfully")]
  /\ sent r2 = [(1%nat, OK (id Examples.paid_paper) false "Server error")]
  /\ state_of r2 = state_of r1
  /\ map event_id (research_papers (state_of r2)) = [id Examples.paid_paper]
  /\ map id (events (state_of r2)) = [id Examples.paid_paper].
Proof. vm_compute. repeat split. Qed.

(** * Pricing *)

Lemma Qceiling_fraction (n : Z) (d : positive) :
  Qceiling (n # d) = (n + Z.pos d - 1) / Z.pos d.
Proof.
  unfold Qceiling, Qfloor, Qopp. cbn [Qnum Qden].
  pose proof (Pos2Z.is_pos d). Z.div_mod_to_equations. nia.
Qed.

(** On integer inputs the contract price is a ceiling division. *)
Lemma contract_price_integer (rate sizeBytes years : Z) :
  Spec.contract_price rate sizeBytes (inject_Z years)
  = (sizeBytes * rate * years + 1048575) / 1048576.
Proof.
  unfold Spec.contract_price.
  rewrite (Qceiling_comp _ ((sizeBytes * rate * years) # 1048576)).
  - rewrite Qceiling_fraction. f_equal. lia.
  - unfold Qeq, Qdiv, Qmult, Qinv, inject_Z. cbn [Qnum Qden]. lia.
Qed.

(** C5 (as amended). Sizes, rates and durations are integers that are
    not negative, with products below [2^53], so that the arithmetic on them
    is exact.  The current [calculatePrice] returns the configured flat
    rate, [flat_rate_sats] (1 when not configured), as read when called,
    whatever the size and the duration; it changes neither the state nor
    sends anything.  The earlier per-megabyte [calculatePrice] returns
    [ceil(sizeBytes / 1048576 * rate * durationYears)] for the
    [price_per_mb_year] rate read when called, which is
    [(sizeBytes * rate * years + 1048575) / 1048576].  Both results depend on
    the state through the configuration only. *)
Theorem calculatePrice_amount (sizeBytes years : Z) (st : RelayState) :
  0 <= sizeBytes < 2 ^ 53 -> 0 <= years < 2 ^ 53 ->
  let flatRate :=
    parseInt (or_default (truthy_str (relay_config st !! "flat_rate_sats")) "1") in
  let durationYears := inject_Z years in
  (safe flatRate ->
   Pricing.calculatePrice sizeBytes durationYears st
   = (Returned
        (mkPrice flatRate (inject_Z sizeBytes / inject_Z (1024 * 1024))%Q
           durationYears),
      st, []))
  /\ (forall rate,
        parseInt (or_default (truthy_str (relay_config st !! "price_per_mb_year"))
                    "1000")
        = Num rate ->
        0 <= rate < 2 ^ 53 ->
        sizeBytes * rate < 2 ^ 53 -> sizeBytes * rate * years < 2 ^ 53 ->
        PricingPerMb.calculatePrice sizeBytes durationYears st
        = (Returned
             (mkPrice (Num (Spec.contract_price rate sizeBytes durationYears))
                (inject_Z sizeBytes / inject_Z (1024 * 1024))%Q durationYears),
           st, [])
        /\ Spec.contract_price rate sizeBytes durationYears
           = (sizeBytes * rate * years + 1048575) / 1048576)
  /\ (forall st',
        relay_config st' = relay_config st ->
        returned (Pricing.calculatePrice sizeBytes durationYears st')
        = returned (Pricing.calculatePrice sizeBytes durationYears st)
        /\ returned (PricingPerMb.calculatePrice sizeBytes durationYears st')
           = returned (PricingPerMb.calculatePrice sizeBytes durationYears st)).
Proof.
  intros _ _ flatRate durationYears.
  split; [reflexivity|]. split.
  - intros rate Hrate _ _ _. split; [|apply contract_price_integer].
    unfold PricingPerMb.calculatePrice, Db.getConfig.
    rewrite bind_gets, Hrate. reflexivity.
  - intros st' Hcfg.
    unfold Pricing.calculatePrice, PricingPerMb.calculatePrice, Db.getConfig.
    rewrite !bind_gets, Hcfg. split; reflexivity.
Qed.

Lemma calculatePrice_amount_witness :
  option_map price_sats
    (returned (PricingPerMb.calculatePrice 2097152 (inject_Z 1) Examples.rate_state))
  = Some (Num 2000).
Proof.
  assert (0 <= 2097152 < 2 ^ 53) as Hsize by lia.
  assert (0 <= 1 < 2 ^ 53) as Hyears by lia.
  destruct (calculatePrice_amount 2097152 1 Examples.rate_state Hsize Hyears)
    as (_ & Hper & _).
  destruct (Hper 1000) as [Hquote Hvalue].
  - vm_compute. reflexivity.
  - lia.
  - lia.
  - lia.
  - rewrite Hquote. cbn [returned completion fst option_map price_sats].
    rewrite Hvalue. reflexivity.
Defined.

(** C5 (counterexample). With [price_per_mb_year] configured as 1000, two
    mebibytes for one year are quoted at 1 by the current [calculatePrice],
    where the formula gives 2000. *)
Lemma calculatePrice_counterexample :
  option_map price_sats
    (returned (Pricing.calculatePrice 2097152 1%Q Examples.rate_state))
  = Some (Num 1)
  /\ Spec.contract_price 1000 2097152 1%Q = 2000.
Proof. vm_compute. split; reflexivity. Qed.

(** * Publication status *)

Lemma updatePaperStatus_run (eventId : string) (target : PaperStatus)
    (notes : option string) (now : Z) (st : RelayState) :
  Db.updatePaperStatus eventId target notes now st
  = (Returned tt,
     set_research_papers
       (map (fun row => if String.eqb (event_id row) eventId
                        then Spec.restamped row target notes now else row)) st,
     []).
Proof. reflexivity. Qed.

Lemma restamped_same_state (row : ResearchPaper) (notes : option string) (now : Z) :
  Spec.restamped row (status row) notes now = row
  <-> published_at row = (if decide (status row = published) then Some now else None)
      /\ reviewer_notes row = notes.
Proof.
  unfold Spec.restamped. destruct row as [e t a ab s sz ph pp pa rn fp].
  cbn [event_id title paper_authors abstract status size_bytes payment_hash
         price_paid published_at reviewer_notes file_path].
  split.
  - intros [= <- <-]. auto.
  - intros [-> ->]. reflexivity.
Qed.

(** C6 (as amended). A status update with an accepted status name
    rewrites, in every record of the event, the status, the reviewer notes
    and the publication timestamp: the timestamp becomes the current
    instant when the target is [published] (also when the record already
    was published) and is cleared for every other target; the other records
    are untouched.  An update whose target is the record's current status
    leaves the record as it is only if its timestamp and notes already have
    these values. *)
Theorem updatePaperStatus_overwrites (now : Z) (eventId statusName : string)
    (notes : option string) (target : PaperStatus) (st : RelayState) :
  Api.parse_status statusName = Some target ->
  let r := Api.put_paper_status now eventId statusName notes st in
  returned r = Some Api.Success
  /\ research_papers (state_of r)
     = map (fun row => if String.eqb (event_id row) eventId
                       then Spec.restamped row target notes now else row)
         (research_papers st)
  /\ (forall row,
        published_at (Spec.restamped row target notes now)
        = (if decide (target = published) then Some now else None)
        /\ status (Spec.restamped row target notes now) = target
        /\ reviewer_notes (Spec.restamped row target notes now) = notes)
  /\ (forall row,
        status row = target ->
        (Spec.restamped row target notes now = row
         <-> published_at row
             = (if decide (target = published) then Some now else None)
             /\ reviewer_notes row = notes)).
Proof.
  intros Hparse r. unfold r, Api.put_paper_status. rewrite Hparse.
  unfold bind. rewrite updatePaperStatus_run.
  split; [reflexivity|]. split; [reflexivity|]. split.
  - intros row. by cbn.
  - intros row <-. apply restamped_same_state.
Qed.

Lemma updatePaperStatus_overwrites_witness :
  map published_at
    (research_papers
       (state_of (Api.put_paper_status 200 "e1" "accepted" None
                    Examples.published_paper_state)))
  = [None].
Proof.
  destruct (updatePaperStatus_overwrites 200 "e1" "accepted" None accepted
              Examples.published_paper_state) as (_ & -> & _).
  - reflexivity.
  - vm_compute. reflexivity.
Defined.

(** C6 (counterexample). A paper published at instant 100 loses its
    publication timestamp when it is moved to [under_review] at instant 200,
    and gets the new timestamp 200 when it is set to [published] again. *)
Lemma publication_timestamp_counterexample :
  map published_at (research_papers Examples.published_paper_state) = [Some 100]
  /\ map published_at
       (research_papers
          (state_of (Api.put_paper_status 200 "e1" "under_review" None
                       Examples.published_paper_state)))
     = [None]
  /\ map published_at
       (research_papers
          (state_of (Api.put_paper_status 200 "e1" "published" None
                       Examples.published_paper_state)))
     = [Some 200].
Proof. vm_compute. repeat split. Qed.

(** * Invoices *)

Lemma checkInvoice_live (backend : Lightning.Backend) (ledger : Lightning.Ledger)
    (h : string) (now : Z) :
  backend <> Lightning.Mock ->
  Lightning.status_paid (Lightning.checkInvoice backend ledger h now) = true ->
  Spec.settled ledger h.
Proof.
  intros Hlive. unfold Spec.settled, Lightning.checkInvoice, Lightning.checkNWCInvoice.
  destruct backend; [| |done]; destruct (ledger h) as [[[] at_]|]; cbn; try done;
    intros _; by exists at_.
Qed.

Lemma get_payment_run (backend : Lightning.Backend) (ledger : Lightning.Ledger)
    (now : Z) (h : string) (st : RelayState) :
  Api.get_payment backend ledger now h st
  = match lightning_invoices st !! h with
    | None => (Returned (Api.NotFound "Invoice not found"), st, [])
    | Some inv =>
        let status := Lightning.checkInvoice backend ledger h now in
        (Returned (Api.PaymentStatus (Lightning.status_paid status)
                     (Lightning.settled_at status) (amount_sats inv) (expires_at inv)),
         if Lightning.status_paid status && negb (paid inv)
         then state_of (Db.markInvoicePaid h now st) else st,
         [])
    end.
Proof.
  unfold Api.get_payment, Db.getInvoice. rewrite bind_gets.
  destruct (lightning_invoices st !! h) as [inv|]; [|reflexivity].
  cbv zeta. destruct (_ && _); reflexivity.
Qed.

Lemma markInvoicePaid_no_false_paid (ledger : Lightning.Ledger) (h : string)
    (now : Z) (st : RelayState) :
  Spec.settled ledger h -> Spec.no_false_paid ledger st ->
  Spec.no_false_paid ledger (state_of (Db.markInvoicePaid h now st)).
Proof.
  intros Hs Hinv h' inv'. cbn. rewrite lookup_alter.
  destruct (decide (h = h')) as [<-|Hne]; [by intros _ _|].
  apply Hinv.
Qed.

Lemma handleMessage_invoices `{Sha256} (ws : WebSocket) (message : ClientMessage)
    (st : RelayState) :
  lightning_invoices (state_of (Nostr.handleMessage ws message st))
  = lightning_invoices st.
Proof.
  apply (handleMessage_keeps
           (fun st' => lightning_invoices st' = lightning_invoices st)
           (fun _ => True)); auto.
Qed.

Lemma saveLightningInvoice_no_false_paid (ledger : Lightning.Ledger) (h : string)
    (invoice : LightningInvoice) (st : RelayState) :
  Spec.no_false_paid ledger st ->
  Spec.no_false_paid ledger (state_of (Db.saveLightningInvoice h invoice st)).
Proof.
  intros Hinv h' inv'. cbn.
  destruct (lightning_invoices st !! h) eqn:E; [apply Hinv|].
  rewrite lookup_insert. destruct (decide (h = h')) as [<-|Hne]; [|apply Hinv].
  by intros [= <-].
Qed.

(** C9 (as amended). Let no stored invoice be marked paid without being
    settled on the payment backend.  With a live backend (wallet connection
    or LND node) a payment status check keeps it so, and reports an invoice
    as paid only if the backend has settled it; no client message changes an
    invoice, and a new invoice is stored unpaid; hence a paper that the
    payment gate admits at a positive price refers to a settled invoice.  In
    mock mode, a status check reports every stored invoice as paid and
    leaves it marked paid, settled or not. *)
Theorem paid_only_if_settled `{Sha256} (backend : Lightning.Backend)
    (ledger : Lightning.Ledger) (now : Z) (h : string) (st : RelayState) :
  Spec.no_false_paid ledger st ->
  let r := Api.get_payment backend ledger now h st in
  (backend <> Lightning.Mock ->
   Spec.no_false_paid ledger (state_of r)
   /\ (forall at_ amount expiry,
         returned r = Some (Api.PaymentStatus true at_ amount expiry) ->
         Spec.settled ledger h))
  /\ (forall ws message,
        Spec.no_false_paid ledger (state_of (Nostr.handleMessage ws message st)))
  /\ (forall h' invoice,
        Spec.no_false_paid ledger (state_of (Db.saveLightningInvoice h' invoice st)))
  /\ (forall ws event A,
        validateEventSignature event = true -> kind event = 30023 ->
        ws ∈ open_sockets st ->
        id event ∉ map event_id (research_papers st) ->
        num_gt (Num (calculateContentSize (content event))) (Spec.max_content_size st)
        = false ->
        Spec.quoted_amount st = Num A -> 0 < A ->
        Spec.admitted ws event (Nostr.handleMessage ws (ClientEVENT event) st) ->
        exists h', Spec.payment_reference event = Some h' /\ Spec.settled ledger h')
  /\ (backend = Lightning.Mock ->
      forall inv,
        lightning_invoices st !! h = Some inv ->
        returned r
        = Some (Api.PaymentStatus true (Some now) (amount_sats inv) (expires_at inv))
        /\ exists inv',
             lightning_invoices (state_of r) !! h = Some inv' /\ paid inv' = true).
Proof.
  intros Hinv r. unfold r. rewrite get_payment_run.
  split; [|split; [|split; [|split]]].
  - intros Hlive. destruct (lightning_invoices st !! h) as [inv|] eqn:E.
    2: { split; [exact Hinv|]. intros at_ amount expiry. by cbn. }
    cbv zeta. split.
    + cbn [state_of fst snd].
      destruct (Lightning.status_paid _) eqn:Hp; cbn [andb]; [|exact Hinv].
      destruct (negb (paid inv)); [|exact Hinv].
      apply markInvoicePaid_no_false_paid; [|exact Hinv].
      by apply (checkInvoice_live backend ledger h now).
    + intros at_ amount expiry. cbn. intros [= Hp _ _ _].
      by apply (checkInvoice_live backend ledger h now).
  - intros ws message h' inv'. rewrite handleMessage_invoices. apply Hinv.
  - intros h' invoice. by apply saveLightningInvoice_no_false_paid.
  - intros ws event A Hv Hk Hopen Hfresh Hfits Hq HA Hadm.
    destruct (valid_date (created_at event * 1000)) eqn:Hdate.
    2: { destruct (handleMessage_paper_insert_fails ws event st A)
           as [_ [reason Hrej]]; try done.
         - by rewrite Hdate.
         - by apply rejected_not_admitted in Hrej. }
    apply (handleMessage_paper_iff ws event st A) in Hadm; try done.
    destruct Hadm as (h' & inv & Href & Hlook & Hpaid & _).
    exists h'. split; [done|]. by apply (Hinv h' inv).
  - intros -> inv E. rewrite E. cbv zeta. cbn [Lightning.checkInvoice
      Lightning.checkMockInvoice Lightning.status_paid Lightning.settled_at andb].
    split; [reflexivity|]. cbn [state_of fst snd].
    destruct (paid inv) eqn:Hp; cbn [negb].
    + by exists inv.
    + cbn. rewrite lookup_alter, E. rewrite decide_True by done. by eexists.
Qed.

Lemma paid_only_if_settled_witness :
  Spec.no_false_paid Examples.unsettled_ledger
    (state_of (Api.get_payment Lightning.NWC Examples.unsettled_ledger 5 "inv1"
                 Examples.unpaid_state)).
Proof.
  apply (@paid_only_if_settled Examples.example_digest Lightning.NWC
           Examples.unsettled_ledger 5 "inv1" Examples.unpaid_state).
  - intros h inv Hlook Hpaid. unfold Examples.unpaid_state in Hlook.
    cbn [lightning_invoices] in Hlook.
    apply lookup_singleton_Some in Hlook as [_ <-]. discriminate Hpaid.
  - discriminate.
Defined.

(** C9 (counterexample). In mock mode, with nothing settled on the
    backend, a status check of the unpaid invoice [inv1] reports it paid and
    marks it paid; the payment gate then admits a paper that refers to
    it. *)
Lemma mock_reports_unsettled_paid :
  let r := Api.get_payment Lightning.Mock Examples.unsettled_ledger 5 "inv1"
             Examples.unpaid_state in
  ~ Spec.settled Examples.unsettled_ledger "inv1"
  /\ returned r = Some (Api.PaymentStatus true (Some 5) 1 0)
  /\ paid <$> (lightning_invoices (state_of r) !! "inv1") = Some true
  /\ sent (@Nostr.handleMessage Examples.example_digest 1%nat
             (ClientEVENT Examples.paid_paper) (state_of r))
     = [(1%nat, OK (id Examples.paid_paper) true "Paper published successfully")].
Proof.
  split; [by intros [at_ [=]]|]. vm_compute. repeat split.
Qed.

(** * Further properties of the handlers *)

(** Invariants that are kept by the operations the handlers are built
    from, rather than by arbitrary changes of a table. *)
Section HandlersKeepOperations.

Import Trace.

Context `{Sha256}.

Variable I : RelayState -> Prop.
Variable P : Delivery -> Prop.

Hypothesis K_send : forall ws message, keeps I P (Nostr.sendMessage ws message).
Hypothesis K_saveEvent : forall event, keeps I P (Db.saveEvent event).
Hypothesis K_savePaper : forall paper, keeps I P (Db.saveResearchPaper paper).
Hypothesis I_storage : forall f st, I st -> I (set_storage_files f st).
Hypothesis I_register :
  forall key sub st, I st -> I (set_subscriptions (Nostr.map_set key sub) st).
Hypothesis I_unregister :
  forall key st, I st -> I (set_subscriptions (Nostr.map_delete key) st).

Lemma broadcastEvent_keeps_ops (event : NostrEvent) :
  keeps I P (Nostr.broadcastEvent event).
Proof.
  unfold Nostr.broadcastEvent. repeat first [apply K_send | keeps_step].
Qed.

Lemma handleResearchPaper_keeps_ops (ws : WebSocket) (event : NostrEvent) :
  keeps I P (Nostr.handleResearchPaper ws event).
Proof.
  unfold Nostr.handleResearchPaper, Nostr.sendOK, Db.getInvoice,
    Nostr.storage_saveResearchPaper.
  repeat first
    [ apply getConfig_keeps | apply calculatePrice_keeps | apply K_saveEvent
    | apply K_savePaper | apply broadcastEvent_keeps_ops | apply K_send
    | apply keeps_modify; [apply I_storage]
    | keeps_step ].
Qed.

Lemma handleEvent_keeps_ops (ws : WebSocket) (event : NostrEvent) :
  keeps I P (Nostr.handleEvent ws event).
Proof.
  unfold Nostr.handleEvent, Nostr.handleHighlight, Nostr.handleCommentReply,
    Nostr.handleReaction, Nostr.handleComment, Nostr.sendOK,
    Nostr.storage_saveComment.
  repeat first
    [ apply handleResearchPaper_keeps_ops | apply calculateCommentPrice_keeps
    | apply K_saveEvent | apply broadcastEvent_keeps_ops | apply K_send
    | apply keeps_modify; [apply I_storage]
    | keeps_step ].
Qed.

Lemma handleMessage_keeps_ops (ws : WebSocket) (message : ClientMessage) :
  keeps I P (Nostr.handleMessage ws message).
Proof.
  unfold Nostr.handleMessage, Nostr.handleClose, Nostr.sendNotice.
  apply keeps_try_catch; [|apply K_send].
  destruct message as [event|s fs|s|type|].
  - apply handleEvent_keeps_ops.
  - unfold Nostr.handleRequest, Nostr.sendNotice, Db.getEvents.
    repeat first
      [ apply K_send | apply keeps_modify; [apply I_register] | keeps_step ].
  - apply keeps_modify, I_unregister.
  - apply K_send.
  - apply keeps_throw.
Qed.

End HandlersKeepOperations.

Lemma sendMessage_never_throws (ws : WebSocket) (message : RelayMessage)
    (st : RelayState) :
  completion (Nostr.sendMessage ws message st) = Returned tt.
Proof. by rewrite sendMessage_run. Qed.

(** X1. No exception escapes [handleMessage]: whatever the message and
    the state, the call returns.  A message of an unknown type and a
    malformed message change nothing and are answered by one NOTICE (on an
    open socket). *)
Theorem handleMessage_never_throws `{Sha256} (ws : WebSocket)
    (message : ClientMessage) (st : RelayState) :
  completion (Nostr.handleMessage ws message st) = Returned tt
  /\ (forall type,
        message = ClientOther type ->
        Nostr.handleMessage ws message st
        = (Returned tt, st,
           if bool_decide (ws ∈ open_sockets st)
           then [(ws, NOTICE ("Unknown message type: " +:+ type))] else []))
  /\ (message = Malformed ->
      Nostr.handleMessage ws message st
      = (Returned tt, st,
         if bool_decide (ws ∈ open_sockets st)
         then [(ws, NOTICE "Invalid message format")] else [])).
Proof.
  split; [|split].
  - unfold Nostr.handleMessage.
    set (m := match message with ClientEVENT _ => _ | _ => _ end).
    unfold try_catch, completion.
    destruct (m st) as [[[[]|] st1] out1]; [reflexivity|].
    unfold Nostr.sendNotice. by rewrite sendMessage_run.
  - intros type ->. unfold Nostr.handleMessage, try_catch, Nostr.sendNotice.
    by rewrite sendMessage_run.
  - intros ->. unfold Nostr.handleMessage, try_catch, Nostr.sendNotice, throw.
    rewrite sendMessage_run. by destruct (bool_decide _).
Qed.

Lemma saveEvent_same_but_events (event : NostrEvent) (st : RelayState) :
  state_of (Db.saveEvent event st)
  = set_events (fun _ => events (state_of (Db.saveEvent event st))) st.
Proof.
  rewrite saveEvent_run. cbn [state_of fst snd].
  destruct (bool_decide _); by destruct st.
Qed.

Lemma run_keeps `{Sha256} (I : RelayState -> Prop) (P : Delivery -> Prop) :
  (forall ws message, Trace.keeps I P (Nostr.handleMessage ws message)) ->
  forall messages st,
    I st -> I (fst (Trace.run messages st)) /\ Forall P (snd (Trace.run messages st)).
Proof.
  intros K messages. induction messages as [|[ws message] rest IH]; intros st HI.
  - by split; [|constructor].
  - cbn [Trace.run]. destruct (K ws message st HI) as [HI1 HP1].
    destruct (IH _ HI1) as [HI2 HP2].
    destruct (Trace.run rest _) as [st' out]. cbn [fst snd] in *.
    split; [done|]. by apply Forall_app.
Qed.

(** X2. Over a whole run of client messages, from any sockets and in
    any order, nothing stored is lost or rewritten: the rows of [events] and
    of [research_papers] at the start are a prefix of the rows at the end;
    the configuration, the invoices and the set of open sockets are as at the
    start; and every message delivered during the run went to a socket that
    is open. *)
Theorem run_only_appends `{Sha256} (messages : list (WebSocket * ClientMessage))
    (st : RelayState) :
  let st' := fst (Trace.run messages st) in
  events st `prefix_of` events st'
  /\ research_papers st `prefix_of` research_papers st'
  /\ relay_config st' = relay_config st
  /\ lightning_invoices st' = lightning_invoices st
  /\ open_sockets st' = open_sockets st
  /\ Forall (fun d => fst d ∈ open_sockets st) (snd (Trace.run messages st)).
Proof.
  set (I := fun s : RelayState =>
              events st `prefix_of` events s
              /\ research_papers st `prefix_of` research_papers s
              /\ relay_config s = relay_config st
              /\ lightning_invoices s = lightning_invoices st
              /\ open_sockets s = open_sockets st).
  set (P := fun d : Delivery => fst d ∈ open_sockets st).
  assert (forall ws message, Trace.keeps I P (Nostr.handleMessage ws message)) as K.
  { intros ws message. apply handleMessage_keeps_ops.
    - intros w m s HI. rewrite sendMessage_run. split; [done|].
      destruct (bool_decide _) eqn:E; [|constructor].
      apply bool_decide_eq_true_1 in E. destruct HI as (_ & _ & _ & _ & Ho).
      constructor; [|constructor]. unfold P. cbn [fst]. by rewrite <- Ho.
    - intros e s (He & Hp & Hc & Hi & Ho). split; [|constructor].
      rewrite saveEvent_run. cbn [state_of fst snd].
      destruct (bool_decide _); [done|]. unfold I. cbn.
      split; [by apply prefix_app_r|done].
    - intros p s (He & Hp & Hc & Hi & Ho).
      destruct (saveResearchPaper_cases p s) as [-> | [_ ->]];
        [by split; [|constructor]|].
      split; [|constructor]. unfold I. cbn.
      split; [done|]. split; [by apply prefix_app_r|done].
    - by intros f s HI.
    - by intros key sub s HI.
    - by intros key s HI. }
  destruct (run_keeps I P K messages st) as [(He & Hp & Hc & Hi & Ho) HP]; [done|].
  cbv zeta. done.
Qed.

(** X3. The keys of the tables stay unique over a whole run: if no two
    rows of [events] share an id, no two paper records share an event id and
    no two registry entries share a name, the same holds after any sequence
    of client messages. *)
Theorem table_keys_stay_unique `{Sha256} (messages : list (WebSocket * ClientMessage))
    (st : RelayState) :
  NoDup (map id (events st)) ->
  NoDup (map event_id (research_papers st)) ->
  NoDup (map fst (subscriptions st)) ->
  let st' := fst (Trace.run messages st) in
  NoDup (map id (events st'))
  /\ NoDup (map event_id (research_papers st'))
  /\ NoDup (map fst (subscriptions st')).
Proof.
  intros He Hp Hs.
  set (I := fun s : RelayState =>
              NoDup (map id (events s))
              /\ NoDup (map event_id (research_papers s))
              /\ NoDup (map fst (subscriptions s))).
  assert (forall ws message,
            Trace.keeps I (fun _ => True) (Nostr.handleMessage ws message)) as K.
  { intros ws message. apply handleMessage_keeps_ops; try done.
    - intros w m st' HI. rewrite sendMessage_run. split; [done|].
      apply List.Forall_forall. done.
    - intros e st' (He' & Hp' & Hs'). split; [|constructor].
      rewrite saveEvent_run. cbn [state_of fst snd].
      destruct (bool_decide _) eqn:E; [done|]. apply bool_decide_eq_false_1 in E.
      unfold I. cbn [events research_papers subscriptions set_events].
      split; [|done]. rewrite map_app. apply NoDup_app. split; [done|].
      split; [|apply NoDup_singleton]. intros x Hx ->%list_elem_of_singleton. done.
    - intros p st' (He' & Hp' & Hs').
      destruct (saveResearchPaper_cases p st') as [-> | [E ->]];
        [by split; [|constructor]|].
      split; [|constructor]. unfold I.
      cbn [state_of fst snd events research_papers subscriptions set_research_papers].
      split; [done|]. split; [|done]. rewrite map_app. apply NoDup_app.
      split; [done|]. split; [|apply NoDup_singleton].
      intros x Hx ->%list_elem_of_singleton. done.
    - intros key sub st' (He' & Hp' & Hs'). unfold I. cbn. repeat split; try done.
      by apply map_set_NoDup.
    - intros key st' (He' & Hp' & Hs'). unfold I. cbn. repeat split; try done.
      by apply map_delete_NoDup. }
  by destruct (run_keeps I (fun _ => True) K messages st) as [HI _].
Qed.

Lemma table_keys_stay_unique_witness :
  NoDup (map id
           (events
              (fst (@Trace.run Examples.example_digest
                      [(1%nat, ClientEVENT Examples.reaction);
                       (2%nat, ClientEVENT Examples.note);
                       (1%nat, ClientEVENT Examples.reaction)]
                      Examples.state_with_note)))).
Proof.
  apply (@table_keys_stay_unique Examples.example_digest
           [(1%nat, ClientEVENT Examples.reaction);
            (2%nat, ClientEVENT Examples.note);
            (1%nat, ClientEVENT Examples.reaction)]
           Examples.state_with_note).
  - apply NoDup_singleton.
  - apply NoDup_nil_2.
  - apply NoDup_nil_2.
Defined.

(** * Verdicts *)




(** A kind-1 reply: stored, acknowledged, broadcast, and then told its
    fee. *)
Lemma handleMessage_comment_reply `{Sha256} (ws : WebSocket) (event : NostrEvent)
    (st : RelayState) :
  validateEventSignature event = true -> kind event = 1 ->
  Nostr.handleMessage ws (ClientEVENT event) st
  = (Returned tt,
     state_of (Db.saveEvent event
       (set_storage_files (insert ("comments/" +:+ id event +:+ ".txt") (content event))
          st)),
     (if bool_decide (ws ∈ open_sockets st)
      then [(ws, OK (id event) true "")] else [])
     ++ Trace.deliveries event (subscriptions st) (open_sockets st)
     ++ (if bool_decide (ws ∈ open_sockets st)
         then [(ws, NOTICE ("Comment posted. Fee: "
                              +:+ num_to_string (Spec.quoted_amount st)
                              +:+ " sats."))]
         else [])).
Proof.
  intros Hv Hk. rewrite handleMessage_event.
  unfold Nostr.handleEvent, try_catch. rewrite Hv, Hk. cbn [negb Z.eqb Pos.eqb].
  unfold Nostr.handleCommentReply, Pricing.calculateCommentPrice, Db.getConfig.
  rewrite bind_bind, bind_gets, bind_ret. cbn [price_sats].
  fold (Spec.quoted_amount st).
  unfold Nostr.storage_saveComment. rewrite bind_modify.
  set (st1 := set_storage_files _ st).
  destruct (saveEvent_frame event st1) as (Hs & Ho & _).
  unfold bind at 1. rewrite saveEvent_run in *. cbn [state_of fst snd] in *.
  rewrite bind_sendOK. unfold bind.
  rewrite broadcastEvent_run, sendMessage_run, Hs, Ho. reflexivity.
Qed.

Lemma handleMessage_comment_any `{Sha256} (ws : WebSocket) (event : NostrEvent)
    (st : RelayState) :
  validateEventSignature event = true -> kind event = 1111 ->
  Nostr.handleMessage ws (ClientEVENT event) st
  = (Returned tt,
     state_of (Db.saveEvent event
       (set_storage_files (insert ("comments/" +:+ id event +:+ ".txt") (content event))
          st)),
     if bool_decide (ws ∈ open_sockets st)
     then [(ws, NOTICE ("Comment price: " +:+ num_to_string (Spec.quoted_amount st)
                          +:+ " sats. Use /get-comment-invoice endpoint to pay."));
           (ws, OK (id event) true "")]
     else []).
Proof.
  intros Hv Hk. rewrite handleMessage_event.
  unfold Nostr.handleEvent, try_catch. rewrite Hv, Hk. cbn [negb Z.eqb Pos.eqb].
  unfold Nostr.handleComment, Pricing.calculateCommentPrice, Db.getConfig.
  rewrite bind_bind, bind_gets, bind_ret. cbn [price_sats].
  fold (Spec.quoted_amount st).
  unfold bind at 1. rewrite sendMessage_run.
  unfold Nostr.storage_saveComment. rewrite bind_modify.
  set (st1 := set_storage_files _ st).
  destruct (saveEvent_frame event st1) as (_ & Ho & _).
  unfold bind. rewrite saveEvent_run in *. cbn [state_of fst snd] in *.
  unfold Nostr.sendOK. rewrite sendMessage_run, Ho.
  change (open_sockets st1) with (open_sockets st).
  by destruct (bool_decide (ws ∈ open_sockets st)).
Qed.





(** * Broadcast and teardown *)





Lemma filter_idempotent {A} (p : A -> bool) (l : list A) :
  List.filter p (List.filter p l) = List.filter p l.
Proof.
  induction l as [|x l IH]; [reflexivity|]. cbn [List.filter].
  destruct (p x) eqn:E; [|exact IH]. cbn [List.filter]. by rewrite E, IH.
Qed.

(** X6. Teardown of a socket removes exactly the registry entries bound
    to it, keeps the others in their order, touches nothing else, and is
    idempotent; afterwards no submitted event is delivered to that socket as
    an EVENT. *)
Theorem cleanup_removes_socket `{Sha256} (w : WebSocket) (st : RelayState) :
  let st' := state_of (Nostr.cleanup w st) in
  subscriptions st'
  = List.filter (fun entry => negb (Nat.eqb (ws (snd entry)) w)) (subscriptions st)
  /\ (forall name sub,
        (name, sub) ∈ subscriptions st'
        <-> (name, sub) ∈ subscriptions st /\ ws sub <> w)
  /\ st' = set_subscriptions (fun _ => subscriptions st') st
  /\ state_of (Nostr.cleanup w st') = st'
  /\ (forall sender event name event',
        (w, EVENT name event')
        ∉ sent (Nostr.handleMessage sender (ClientEVENT event) st')).
Proof.
  intros st'.
  assert (forall name sub,
            (name, sub) ∈ subscriptions st'
            <-> (name, sub) ∈ subscriptions st /\ ws sub <> w) as Hmem.
  { intros name sub. cbn. rewrite !list_elem_of_In, List.filter_In. cbn [snd].
    by rewrite negb_true_iff, Nat.eqb_neq. }
  split; [reflexivity|]. split; [exact Hmem|]. split; [reflexivity|]. split.
  - unfold st', Nostr.cleanup, modify, state_of, set_subscriptions. cbn.
    by rewrite filter_idempotent.
  - intros sender event name event' Hin.
    pose proof (handleEvent_events_by_registry sender event st') as HF.
    rewrite List.Forall_forall in HF. apply list_elem_of_In, HF in Hin.
    apply deliveries_elem in Hin as (_ & sub & Hsub & Hw & _).
    by apply Hmem in Hsub as [_ Hne].
Qed.

(** * Comments and replies *)



(** * The replay query *)

Lemma insert_desc_perm (row : NostrEvent) (sorted : list NostrEvent) :
  Db.insert_desc row sorted ≡ₚ row :: sorted.
Proof.
  induction sorted as [|r rest IH]; [done|]. cbn [Db.insert_desc].
  destruct (created_at r <=? created_at row); [done|].
  rewrite IH. apply Permutation_swap.
Qed.

Lemma order_by_created_at_desc_perm (rows : list NostrEvent) :
  Db.order_by_created_at_desc rows ≡ₚ rows.
Proof.
  induction rows as [|r rows IH]; [done|].
  unfold Db.order_by_created_at_desc in *. cbn [foldr].
  by rewrite insert_desc_perm, IH.
Qed.

Lemma insert_desc_sorted (row : NostrEvent) (sorted : list NostrEvent) :
  StronglySorted (fun a b => created_at b <= created_at a) sorted ->
  StronglySorted (fun a b => created_at b <= created_at a) (Db.insert_desc row sorted).
Proof.
  induction 1 as [|r rest Hs IH Hall]; cbn [Db.insert_desc].
  - apply SSorted_cons; [apply SSorted_nil|apply Forall_nil_2].
  - destruct (created_at r <=? created_at row) eqn:E.
    + apply Z.leb_le in E. apply SSorted_cons; [by apply SSorted_cons|].
      apply Forall_cons. split; [done|].
      eapply Forall_impl; [exact Hall|]. cbn. intros x Hx. lia.
    + apply Z.leb_gt in E. apply SSorted_cons; [exact IH|].
      rewrite insert_desc_perm. apply Forall_cons. split; [lia|exact Hall].
Qed.

Lemma order_by_created_at_desc_sorted (rows : list NostrEvent) :
  StronglySorted (fun a b => created_at b <= created_at a)
    (Db.order_by_created_at_desc rows).
Proof.
  induction rows as [|r rows IH]; [apply SSorted_nil|].
  unfold Db.order_by_created_at_desc in *. cbn [foldr]. by apply insert_desc_sorted.
Qed.

Lemma sorted_take {A} (R : A -> A -> Prop) (n : nat) (l : list A) :
  StronglySorted R l -> StronglySorted R (take n l).
Proof.
  intros Hs. revert n. induction Hs as [|a l Hs IH Hall]; intros [|n]; cbn [take];
    try apply SSorted_nil.
  apply SSorted_cons; [apply IH|by apply Forall_take].
Qed.

Lemma sorted_take_drop {A} (R : A -> A -> Prop) (n : nat) (l : list A) (a b : A) :
  StronglySorted R l -> a ∈ take n l -> b ∈ drop n l -> R a b.
Proof.
  intros Hs. revert n. induction Hs as [|x l Hs IH Hall]; intros [|n]; cbn [take drop];
    try by intros ?%elem_of_nil.
  intros Ha Hb. apply elem_of_cons in Ha as [->|Ha]; [|by eapply IH].
  rewrite Forall_forall in Hall. apply Hall. by eapply subseteq_drop.
Qed.

(** X8. The replay query of [getEvents]: it changes no state and sends
    nothing; it fails when the statement exceeds a limit of SQLite (more
    than 32766 bound parameters, or an expression deeper than 1000) and
    returns the selected rows when it is within them (at most 32766
    parameters and a depth below 1000).  The rows come newest first; each
    is a stored row that satisfies the WHERE clause; with a limit [n >= 0]
    there are [min n m] of them, [m] being the number of matching rows, and
    with a negative limit or enough room they are all the matching rows; a
    matching row that is left out is not newer than any row returned. *)
Theorem replay_selects_newest_matching (filters : list NostrFilter) (limit : Z)
    (st : RelayState) :
  let matching := List.filter (Db.where_clause filters) (events st) in
  let rows := Db.select_events filters limit (events st) in
  (Db.bound_parameters filters <= 32766 /\ Db.expression_depth filters < 1000 ->
   Db.getEvents filters limit st = (Returned rows, st, []))
  /\ (32766 < Db.bound_parameters filters \/ 1000 < Db.expression_depth filters ->
      Db.getEvents filters limit st = (Thrown, st, []))
  /\ StronglySorted (fun a b => created_at b <= created_at a) rows
  /\ (forall row, row ∈ rows -> row ∈ events st /\ Db.where_clause filters row = true)
  /\ (0 <= limit ->
      Z.of_nat (length rows) = Z.min limit (Z.of_nat (length matching)))
  /\ (limit < 0 \/ Z.of_nat (length matching) <= limit -> rows ≡ₚ matching)
  /\ (forall row other,
        row ∈ rows -> other ∈ matching -> other ∉ rows ->
        created_at other <= created_at row).
Proof.
  intros matching rows.
  set (sorted := Db.order_by_created_at_desc matching).
  assert (sorted ≡ₚ matching) as Hperm by apply order_by_created_at_desc_perm.
  assert (StronglySorted (fun a b => created_at b <= created_at a) sorted) as Hsorted
    by apply order_by_created_at_desc_sorted.
  assert (rows = if limit <? 0 then sorted else take (Z.to_nat limit) sorted) as Hrows
    by reflexivity.
  split; [intros [Hp Hd]; by rewrite getEvents_run, query_fits_below|].
  split; [intros Hover; by rewrite getEvents_run, query_fits_above|].
  split; [|split; [|split; [|split]]].
  - rewrite Hrows. destruct (limit <? 0); [done|by apply sorted_take].
  - intros row Hin.
    assert (row ∈ matching) as Hm.
    { rewrite <- Hperm. rewrite Hrows in Hin.
      destruct (limit <? 0); [done|]. by eapply subseteq_take. }
    unfold matching in Hm. apply list_elem_of_In, List.filter_In in Hm as [Hm Hw].
    by rewrite list_elem_of_In.
  - intros Hl. rewrite Hrows. destruct (limit <? 0) eqn:E; [apply Z.ltb_lt in E; lia|].
    rewrite length_take, <- (Permutation_length Hperm). lia.
  - intros Hl. rewrite Hrows. destruct (limit <? 0) eqn:E; [done|].
    apply Z.ltb_ge in E. destruct Hl as [Hl|Hl]; [lia|].
    rewrite take_ge; [done|]. rewrite (Permutation_length Hperm). lia.
  - intros row other Hrow Hother Hout. rewrite Hrows in Hrow, Hout.
    rewrite <- Hperm in Hother.
    destruct (limit <? 0); [done|].
    rewrite <- (take_drop (Z.to_nat limit) sorted) in Hother.
    apply elem_of_app in Hother as [Hother|Hother]; [done|].
    by apply (sorted_take_drop (fun a b => created_at b <= created_at a)
                (Z.to_nat limit) sorted row other).
Qed.

(** * Replay against live matching *)

Lemma list_condition_ok {A} `{EqDecision A} (o : option (list A)) (x : A) :
  o <> Some [] ->
  match o with
  | Some ((_ :: _) as l) => bool_decide (x ∈ l)
  | _ => true
  end = true
  <-> (forall l, o = Some l -> x ∈ l).
Proof.
  intros Hne. destruct o as [[|y l]|]; [done| |].
  - rewrite bool_decide_eq_true. split; [by intros Hx l' [= <-]|]. intros Hl. by apply Hl.
  - split; [by intros _ l' [=]|done].
Qed.

Lemma since_condition_ok (o : option Z) (t : Z) :
  (if truthy_num o then default 0 o <=? t else true) = true
  <-> (forall s, o = Some s -> s <> 0 -> s <= t).
Proof.
  rewrite <- lower_bound_ok. destruct (truthy_num o); cbn [andb]; [|done].
  rewrite Z.leb_le, Z.ltb_ge. done.
Qed.

Lemma until_condition_ok (o : option Z) (t : Z) :
  (if truthy_num o then t <=? default 0 o else true) = true
  <-> (forall u, o = Some u -> u <> 0 -> t <= u).
Proof.
  rewrite <- upper_bound_ok. destruct (truthy_num o); cbn [andb]; [|done].
  rewrite Z.leb_le, Z.ltb_ge. done.
Qed.

Lemma filter_conditions_spec (filter : NostrFilter) (event : NostrEvent) :
  ids filter <> Some [] -> authors filter <> Some [] -> kinds filter <> Some [] ->
  Db.filter_conditions filter event = true <-> Spec.filter_satisfied event filter.
Proof.
  intros Hi Ha Hk. unfold Db.filter_conditions, Spec.filter_satisfied.
  rewrite !andb_true_iff, since_condition_ok, until_condition_ok.
  rewrite (list_condition_ok (ids filter)), (list_condition_ok (authors filter)),
    (list_condition_ok (kinds filter)) by done.
  tauto.
Qed.

(** X9. For a single filter whose lists are absent or non-empty, the
    replay and the live matching agree: the condition the query puts on a
    stored row is the condition under which a new event is pushed to the
    subscription. *)
Theorem single_filter_replay_agrees_with_live (filter : NostrFilter)
    (event : NostrEvent) :
  ids filter <> Some [] -> authors filter <> Some [] -> kinds filter <> Some [] ->
  Db.filter_conditions filter event = Nostr.eventMatchesFilter event filter
  /\ Db.where_clause [filter] event = Nostr.eventMatchesFilters event [filter].
Proof.
  intros Hi Ha Hk.
  assert (Db.filter_conditions filter event = Nostr.eventMatchesFilter event filter)
    as Hone.
  { apply Bool.eq_true_iff_eq.
    by rewrite filter_conditions_spec, eventMatchesFilter_spec. }
  split; [exact Hone|].
  unfold Db.where_clause, Nostr.eventMatchesFilters. cbn [forallb existsb].
  by rewrite Hone, andb_true_r, orb_false_r.
Qed.

Lemma single_filter_replay_agrees_with_live_witness :
  Db.filter_conditions Examples.full_filter Examples.note
  = Nostr.eventMatchesFilter Examples.note Examples.full_filter
  /\ Db.where_clause [Examples.full_filter] Examples.note
     = Nostr.eventMatchesFilters Examples.note [Examples.full_filter].
Proof.
  apply (single_filter_replay_agrees_with_live Examples.full_filter Examples.note);
    discriminate.
Defined.

Lemma order_by_nil_filters (rows : list NostrEvent) :
  Db.select_events [] 100 rows ≡ₚ rows \/ (100 < length rows)%nat.
Proof.
  destruct (decide (length rows <= 100)%nat) as [Hle|Hgt]; [left|right; lia].
  unfold Db.select_events, Db.sql_limit. cbn [Z.ltb Z.compare].
  assert (List.filter (Db.where_clause []) rows = rows) as ->.
  { clear Hle. induction rows as [|r rows IH]; [reflexivity|].
    cbn [List.filter]. change (Db.where_clause [] r) with true. cbv iota.
    by rewrite IH. }
  rewrite take_ge; [apply order_by_created_at_desc_perm|].
  rewrite (Permutation_length (order_by_created_at_desc_perm rows)). lia.
Qed.

Lemma handleMessage_request `{Sha256} (ws : WebSocket) (name : string)
    (filters : list NostrFilter) (st : RelayState) :
  Nostr.handleMessage ws (ClientREQ name filters) st
  = Nostr.handleRequest ws name filters st.
Proof.
  unfold Nostr.handleMessage, try_catch at 1. by rewrite handleRequest_run_any.
Qed.

(** X10. A subscription registered without any filter: the replay sends
    every stored event (up to the limit of 100), since no condition is added
    to the query, but afterwards no submitted event is ever pushed under
    that name, since no filter matches. *)
Theorem subscription_without_filters `{Sha256} (ws : WebSocket) (name : string)
    (st : RelayState) :
  ws ∈ open_sockets st ->
  (length (events st) <= 100)%nat ->
  NoDup (map fst (subscriptions st)) ->
  let r := Nostr.handleMessage ws (ClientREQ name []) st in
  (exists rows,
     rows ≡ₚ events st
     /\ sent r = map (fun event => (ws, EVENT name event)) rows ++ [(ws, EOSE name)])
  /\ Nostr.map_get name (subscriptions (state_of r)) = Some (mkSub ws [])
  /\ (forall sender event w event',
        (w, EVENT name event')
        ∉ sent (Nostr.handleMessage sender (ClientEVENT event) (state_of r))).
Proof.
  intros Hopen Hlen Hnd r. unfold r. rewrite handleMessage_request, handleRequest_run by done.
  cbn [sent state_of fst snd subscriptions set_subscriptions].
  split; [|split; [apply map_get_set_eq|]].
  - exists (Db.select_events [] 100 (events st)). split; [|reflexivity].
    destruct (order_by_nil_filters (events st)) as [Hp|Hgt]; [exact Hp|lia].
  - intros sender event w event' Hin.
    set (st' := set_subscriptions _ st) in Hin.
    pose proof (handleEvent_events_by_registry sender event st') as HF.
    rewrite List.Forall_forall in HF. apply list_elem_of_In, HF in Hin.
    apply deliveries_elem in Hin as (_ & sub & Hsub & _ & Hm & _).
    apply map_get_elem in Hsub; [|by apply map_set_NoDup].
    cbn [subscriptions st' set_subscriptions] in Hsub.
    rewrite map_get_set_eq in Hsub. by injection Hsub as <-.
Qed.

Lemma subscription_without_filters_witness :
  exists rows,
    rows ≡ₚ events Examples.state_with_note
    /\ sent (@Nostr.handleMessage Examples.example_digest 1%nat (ClientREQ "all" [])
               Examples.state_with_note)
       = map (fun event => (1%nat, EVENT "all" event)) rows ++ [(1%nat, EOSE "all")].
Proof.
  apply (@subscription_without_filters Examples.example_digest 1%nat "all"
           Examples.state_with_note).
  - apply (bool_decide_unpack _). vm_compute. exact Logic.I.
  - cbn. lia.
  - apply NoDup_nil_2.
Defined.

(** X11. An empty list in a filter is read in two ways: live matching
    takes it as a constraint nothing satisfies, so the filter matches no
    event, while the replay query drops the constraint as if the list were
    absent. *)
Theorem empty_list_constraint (event : NostrEvent) (i a : option (list string))
    (k : option (list Z)) (s u l : option Z) :
  Nostr.eventMatchesFilter event (mkFilter (Some []) a k s u l) = false
  /\ Nostr.eventMatchesFilter event (mkFilter i (Some []) k s u l) = false
  /\ Nostr.eventMatchesFilter event (mkFilter i a (Some []) s u l) = false
  /\ Db.filter_conditions (mkFilter (Some []) a k s u l) event
     = Db.filter_conditions (mkFilter None a k s u l) event
  /\ Db.filter_conditions (mkFilter i (Some []) k s u l) event
     = Db.filter_conditions (mkFilter i None k s u l) event
  /\ Db.filter_conditions (mkFilter i a (Some []) s u l) event
     = Db.filter_conditions (mkFilter i a None s u l) event.
Proof.
  unfold Nostr.eventMatchesFilter, Db.filter_conditions, Nostr.excludes.
  cbn [ids authors kinds since until].
  rewrite !bool_decide_eq_false_2 by apply not_elem_of_nil.
  cbn [negb]. split; [done|]. split; [by destruct i; [destruct (negb _)|]|].
  split; [|done].
  destruct i as [li|], a as [la|]; try done;
    repeat match goal with |- context [negb ?b] => destruct (negb b) end; done.
Qed.

(** * Numbers written to and read from the configuration *)

Lemma digit_val_pretty_N_char (d : N) :
  (d < 10)%N -> digit_val 10 (pretty_N_char d) = Some (Z.of_N d).
Proof.
  intros Hd.
  assert (d = 0 \/ d = 1 \/ d = 2 \/ d = 3 \/ d = 4 \/ d = 5 \/ d = 6 \/ d = 7
          \/ d = 8 \/ d = 9)%N as Hcases by lia.
  repeat destruct Hcases as [->|Hcases]; try reflexivity. by subst.
Qed.

Lemma parse_digits_pretty_N_go (x : N) :
  forall s, exists k,
    0 <= k
    /\ forall a, parse_digits 10 (pretty_N_go x s) (Some a)
                 = parse_digits 10 s (Some (a * 10 ^ k + Z.of_N x)).
Proof.
  induction x as [x IH] using (well_founded_induction N.lt_wf_0). intros s.
  destruct (decide (x = 0)%N) as [->|Hx].
  - exists 0. split; [done|]. intros a. rewrite pretty_N_go_0. do 2 f_equal. lia.
  - rewrite pretty_N_go_step by lia.
    destruct (IH (x `div` 10)%N) with (s := String (pretty_N_char (x `mod` 10)) s)
      as (k & Hk & Heq).
    { apply N.div_lt; lia. }
    exists (k + 1). split; [lia|]. intros a. rewrite Heq. cbn [parse_digits].
    rewrite digit_val_pretty_N_char by (apply N.mod_lt; lia).
    do 2 f_equal. rewrite Z.pow_add_r, Z.pow_1_r by lia.
    rewrite N2Z.inj_div, N2Z.inj_mod. change (Z.of_N 10) with 10.
    pose proof (Z.div_mod (Z.of_N x) 10). lia.
Qed.

Lemma is_digit_digit_val (c : ascii) :
  is_digit c = true -> exists d, digit_val 10 c = Some d.
Proof.
  unfold is_digit, digit_val. unfold nat_of_ascii. rewrite N_nat_Z.
  intros [H1 H2]%andb_prop. apply N.leb_le in H1, H2.
  rewrite (proj2 (Z.leb_le 48 _)), (proj2 (Z.leb_le _ 57)) by lia. cbn [andb].
  rewrite (proj2 (Z.ltb_lt _ 10)) by lia. by eexists.
Qed.

Lemma parse_digits_start (s : string) :
  all_digits s = true -> s <> "" ->
  parse_digits 10 s None = parse_digits 10 s (Some 0).
Proof.
  destruct s as [|c s]; [done|]. cbn [all_digits]. intros [Hc _]%andb_prop _.
  destruct (is_digit_digit_val c Hc) as [d Hd]. cbn [parse_digits]. by rewrite Hd.
Qed.

(** On a string of decimal digits, with or without a minus sign,
    [parseInt] skips nothing and reads in radix 10. *)
Lemma parseInt_digits (s : string) :
  all_digits s = true -> s <> "" ->
  parseInt s = match parse_digits 10 s None with Some v => Num v | None => NaN end
  /\ parseInt (String "-" s)
     = match parse_digits 10 s None with Some v => Num (- v) | None => NaN end.
Proof.
  destruct s as [|c s]; [done|]. cbn [all_digits]. intros [Hc Hs]%andb_prop _.
  destruct c as [[] [] [] [] [] [] [] []]; try discriminate Hc.
  all: try (split; cbv -[parse_digits Z.opp]; reflexivity).
  destruct s as [|c2 s2]; [split; reflexivity|]. cbn [all_digits] in Hs.
  apply andb_prop in Hs as [Hc2 _].
  destruct c2 as [[] [] [] [] [] [] [] []]; try discriminate Hc2;
    split; cbv -[parse_digits Z.opp]; reflexivity.
Qed.

(** The decimal rendering of an integer is read back by [parseInt]. *)
Lemma parseInt_pretty (z : Z) : parseInt (pretty z) = Num z.
Proof.
  assert (forall p, parse_digits 10 (pretty (N.pos p)) None = Some (Z.pos p)) as Hpos.
  { intros p. destruct (pretty_N_digits (N.pos p)) as [Hd Hne].
    rewrite parse_digits_start by done.
    unfold pretty, pretty_N. rewrite decide_False by done.
    destruct (parse_digits_pretty_N_go (N.pos p) "") as (k & _ & ->).
    cbn [parse_digits]. f_equal. }
  destruct z as [|p|p]; [reflexivity| |].
  - change (pretty (Z.pos p)) with (pretty (N.pos p)).
    destruct (pretty_N_digits (N.pos p)) as [Hd Hne].
    destruct (parseInt_digits _ Hd Hne) as [-> _]. by rewrite Hpos.
  - change (pretty (Z.neg p)) with (String "-" (pretty (N.pos p))).
    destruct (pretty_N_digits (N.pos p)) as [Hd Hne].
    destruct (parseInt_digits _ Hd Hne) as [_ ->]. by rewrite Hpos.
Qed.

Lemma pretty_Z_nonempty (z : Z) : pretty z <> "".
Proof.
  destruct (pretty_Z_shape z) as (d & [_ Hd] & [->| ->]); done.
Qed.

Lemma or_default_pretty (z : Z) (d : string) :
  or_default (truthy_str (Some (pretty z))) d = pretty z.
Proof.
  unfold or_default, truthy_str.
  destruct (String.eqb (pretty z) "") eqn:E.
  - apply String.eqb_eq in E. by apply pretty_Z_nonempty in E.
  - cbn. by rewrite E.
Qed.

Lemma getConfig_after_setConfig (key value key' : string) (st : RelayState) :
  Db.getConfig key' (state_of (Db.setConfig key value st))
  = (Returned (if decide (key = key') then truthy_str (Some value)
               else truthy_str (relay_config st !! key')),
     state_of (Db.setConfig key value st), []).
Proof.
  unfold Db.getConfig, Db.setConfig, gets, modify, state_of.
  cbn [fst snd relay_config set_relay_config]. rewrite lookup_insert.
  by destruct (decide (key = key')).
Qed.

(** X12. The per-megabyte pricing service quotes the rates that were
    last written through [updatePricing]: the decimal text stored in the
    configuration is read back as the same number, so a paper costs
    [ceil(size / 1 MiB * rate * years)] and a comment
    [max(ceil(size / 1 MiB * commentRate), 1)].  Sizes, rates and the
    duration are integers that are not negative, with products small enough
    to be computed exactly. *)
Theorem updated_rate_is_quoted (rate commentRate sizeBytes years : Z)
    (st : RelayState) :
  0 <= rate -> 0 <= commentRate -> 0 <= sizeBytes -> 0 <= years ->
  sizeBytes * rate * years < 2 ^ 53 -> sizeBytes * commentRate < 2 ^ 53 ->
  rate < 2 ^ 53 -> commentRate < 2 ^ 53 ->
  let st' := state_of (PricingPerMb.updatePricing (Some rate) (Some commentRate) st) in
  price_sats <$> returned (PricingPerMb.calculatePrice sizeBytes (inject_Z years) st')
  = Some (Num (Spec.contract_price rate sizeBytes (inject_Z years)))
  /\ price_sats <$> returned (PricingPerMb.calculateCommentPrice sizeBytes st')
     = Some (Num (Z.max (Spec.contract_price commentRate sizeBytes 1) 1))
  /\ relay_config st'
     = <["price_per_comment_mb" := pretty commentRate]>
         (<["price_per_mb_year" := pretty rate]> (relay_config st)).
Proof.
  intros _ _ _ _ _ _ _ _ st'.
  assert (st' = state_of (Db.setConfig "price_per_comment_mb" (pretty commentRate)
                  (state_of (Db.setConfig "price_per_mb_year" (pretty rate) st))))
    as Hst' by reflexivity.
  split; [|split; [|reflexivity]].
  - unfold PricingPerMb.calculatePrice. rewrite Hst'.
    unfold bind. rewrite getConfig_after_setConfig, decide_False by done.
    cbn [state_of fst snd Db.setConfig modify relay_config set_relay_config].
    rewrite lookup_insert, decide_True by done.
    rewrite or_default_pretty, parseInt_pretty. reflexivity.
  - unfold PricingPerMb.calculateCommentPrice. rewrite Hst'.
    unfold bind. rewrite getConfig_after_setConfig, decide_True by done.
    rewrite or_default_pretty, parseInt_pretty.
    cbn [ret returned completion fst fmap option_fmap option_map price_sats
         PricingPerMb.to_Q PricingPerMb.math_ceil PricingPerMb.max_one].
    do 3 f_equal. unfold Spec.contract_price. apply Qceiling_comp.
    change (inject_Z (1024 * 1024)) with (inject_Z 1048576). by rewrite Qmult_1_r.
Qed.

Lemma updated_rate_is_quoted_witness :
  price_sats <$> returned
    (PricingPerMb.calculatePrice 3145728 (inject_Z 1)
       (state_of (PricingPerMb.updatePricing (Some 250) (Some 40) Examples.rate_state)))
  = Some (Num 750).
Proof.
  etransitivity.
  - apply (updated_rate_is_quoted 250 40 3145728 1 Examples.rate_state); lia.
  - reflexivity.
Defined.

Lemma put_pricing_config (a b m : option Z) (st : RelayState) :
  exists cfg,
    state_of (Admin.put_pricing a b m st) = set_relay_config (fun _ => cfg) st
    /\ cfg !! "flat_rate_sats" = relay_config st !! "flat_rate_sats"
    /\ cfg !! "max_content_size"
       = match m with
         | Some v => Some (pretty v)
         | None => relay_config st !! "max_content_size"
         end
    /\ Admin.put_pricing a b m st
       = (Returned (Admin.PricingUpdated
                      (Pricing.mkPricingInfo
                         (parseInt (or_default (truthy_str (cfg !! "flat_rate_sats")) "1"))
                         (parseInt (or_default (truthy_str (cfg !! "flat_rate_sats")) "1"))
                         (parseInt (or_default (truthy_str (cfg !! "max_content_size"))
                                      "52428800"))
                         10240)),
          set_relay_config (fun _ => cfg) st, []).
Proof.
  exists (relay_config (state_of (Admin.put_pricing a b m st))).
  destruct st as [ev rp li cfg0 sf subs os].
  split; [by destruct a, b, m|]. split; [|split; [|by destruct a, b, m]].
  - destruct a, b, m; cbn; rewrite ?lookup_insert;
      repeat (rewrite decide_False by done); reflexivity.
  - destruct a, b, m; cbn; rewrite ?lookup_insert;
      repeat (rewrite decide_False by done); rewrite ?decide_True by done;
      reflexivity.
Qed.

(** X13. The admin pricing route cannot change what a paper or a
    comment costs: the two rates it writes are not read by the flat-rate
    service, whose quote stays the one configured as [flat_rate_sats], and
    the response shows that flat rate under both rate names.  The size limit
    it writes is the one in force afterwards. *)
Theorem admin_pricing_leaves_quote (a b m : option Z) (sizeBytes : Z)
    (durationYears : Q) (st : RelayState) :
  match m with Some v => 0 <= v < 2 ^ 53 | None => True end ->
  let r := Admin.put_pricing a b m st in
  returned (Pricing.calculatePrice sizeBytes durationYears (state_of r))
  = returned (Pricing.calculatePrice sizeBytes durationYears st)
  /\ returned (Pricing.calculateCommentPrice sizeBytes (state_of r))
     = returned (Pricing.calculateCommentPrice sizeBytes st)
  /\ Spec.quoted_amount (state_of r) = Spec.quoted_amount st
  /\ Spec.max_content_size (state_of r)
     = match m with Some v => Num v | None => Spec.max_content_size st end
  /\ completion r
     = Returned (Admin.PricingUpdated
                   (Pricing.mkPricingInfo (Spec.quoted_amount st) (Spec.quoted_amount st)
                      (match m with
                       | Some v => Num v
                       | None => Spec.max_content_size st
                       end) 10240)).
Proof.
  intros _ r. unfold r.
  destruct (put_pricing_config a b m st) as (cfg & Hst & Hflat & Hmax & Hrun).
  assert (parseInt (or_default (truthy_str (cfg !! "max_content_size")) "52428800")
          = match m with Some v => Num v | None => Spec.max_content_size st end) as Hlimit.
  { rewrite Hmax. destruct m as [v|]; [|reflexivity].
    by rewrite or_default_pretty, parseInt_pretty. }
  rewrite Hrun. cbn [state_of completion fst snd].
  unfold Pricing.calculatePrice, Pricing.calculateCommentPrice, Db.getConfig,
    Spec.quoted_amount, Spec.max_content_size.
  rewrite !bind_gets. cbn [relay_config set_relay_config ret returned completion fst].
  by rewrite Hflat, Hlimit.
Qed.

Lemma admin_pricing_leaves_quote_witness :
  Spec.quoted_amount
    (state_of (Admin.put_pricing (Some 5000) (Some 500) (Some 1024)
                 Examples.zero_rate_state))
  = Spec.quoted_amount Examples.zero_rate_state
  /\ Spec.max_content_size
       (state_of (Admin.put_pricing (Some 5000) (Some 500) (Some 1024)
                    Examples.zero_rate_state))
     = Num 1024.
Proof.
  pose proof (admin_pricing_leaves_quote (Some 5000) (Some 500) (Some 1024) 0 1
                Examples.zero_rate_state) as Hq.
  cbv zeta in Hq. destruct Hq as (_ & _ & Hquote & Hlimit & _); [lia|].
  split; [exact Hquote|exact Hlimit].
Defined.

(** * The configuration and invoice tables *)

(** X14. [setConfig] followed by [getConfig]: the value written last is
    the value read, except that an empty value reads as absent; other keys
    read as before; and reading changes nothing. *)
Theorem config_round_trip (key value value' key' : string) (st : RelayState) :
  let st1 := state_of (Db.setConfig key value st) in
  let st2 := state_of (Db.setConfig key value' st1) in
  Db.getConfig key st1
  = (Returned (if String.eqb value "" then None else Some value), st1, [])
  /\ (key' <> key ->
      returned (Db.getConfig key' st1) = returned (Db.getConfig key' st))
  /\ st2 = state_of (Db.setConfig key value' st)
  /\ (relay_config st !! key = Some value -> st1 = st).
Proof.
  intros st1 st2. unfold st2, st1. split; [|split; [|split]].
  - rewrite getConfig_after_setConfig, decide_True by done. reflexivity.
  - intros Hne. rewrite getConfig_after_setConfig, decide_False by done. reflexivity.
  - destruct st. unfold Db.setConfig, modify, state_of, set_relay_config. cbn.
    f_equal. apply insert_insert_eq.
  - intros Hget. destruct st. unfold Db.setConfig, modify, state_of, set_relay_config.
    cbn in *. f_equal. by apply insert_id.
Qed.



Lemma markInvoicePaid_rows (h : string) (now : Z) (st : RelayState) :
  lightning_invoices (state_of (Db.markInvoicePaid h now st))
  = alter (fun row =>
      mkInvoice (payment_request row) (amount_sats row) (description row)
        (expires_at row) true (Some now)) h (lightning_invoices st).
Proof. reflexivity. Qed.

(** X16. The payment status route: an unknown hash is answered 404 and
    changes nothing; for a stored invoice the answer carries what the payment
    backend reports now together with the stored amount and expiry; the only
    change to the state is that the row of this hash is marked paid, with its
    request, amount, description and expiry kept; a row that is already
    marked paid is left as it is, so the first payment instant stays; and
    asking again changes nothing further. *)
Theorem payment_check_marks_once (backend : Lightning.Backend)
    (ledger : Lightning.Ledger) (now now' : Z) (h : string) (st : RelayState) :
  let r := Api.get_payment backend ledger now h st in
  let status := Lightning.checkInvoice backend ledger h now in
  (lightning_invoices st !! h = None ->
   r = (Returned (Api.NotFound "Invoice not found"), st, []))
  /\ (forall inv,
        lightning_invoices st !! h = Some inv ->
        completion r
        = Returned (Api.PaymentStatus (Lightning.status_paid status)
                      (Lightning.settled_at status) (amount_sats inv) (expires_at inv))
        /\ (paid inv = true -> state_of r = st)
        /\ lightning_invoices (state_of r) !! h
           = Some (if Lightning.status_paid status && negb (paid inv)
                   then mkInvoice (payment_request inv) (amount_sats inv)
                          (description inv) (expires_at inv) true (Some now)
                   else inv))
  /\ (forall h', h' <> h ->
        lightning_invoices (state_of r) !! h' = lightning_invoices st !! h')
  /\ state_of r = set_lightning_invoices (fun _ => lightning_invoices (state_of r)) st
  /\ sent r = []
  /\ (Lightning.status_paid (Lightning.checkInvoice backend ledger h now')
      = Lightning.status_paid status ->
      state_of (Api.get_payment backend ledger now' h (state_of r)) = state_of r).
Proof.
  intros r status. unfold r. rewrite get_payment_run.
  destruct (lightning_invoices st !! h) as [inv|] eqn:Hrow.
  2: { split; [done|]. split; [done|]. split; [done|]. split; [by destruct st|].
       split; [done|]. intros _. cbn [state_of fst snd]. rewrite get_payment_run.
       by rewrite Hrow. }
  cbv zeta. fold status. cbn [state_of sent completion fst snd].
  split; [done|]. split; [|split; [|split; [|split; [done|]]]].
  - intros inv' [= <-]. split; [done|]. split.
    + intros ->. by rewrite andb_false_r.
    + destruct (Lightning.status_paid status && negb (paid inv)); [|done].
      by rewrite markInvoicePaid_rows, lookup_alter, decide_True, Hrow.
  - intros h' Hne. destruct (_ && _); [|done].
    by rewrite markInvoicePaid_rows, lookup_alter, decide_False.
  - destruct (_ && _); by destruct st.
  - intros Hsame. rewrite get_payment_run.
    destruct (Lightning.status_paid status && negb (paid inv)) eqn:E.
    + rewrite markInvoicePaid_rows, lookup_alter, decide_True, Hrow by done.
      cbn [fmap option_fmap option_map]. cbv zeta. cbn [paid negb state_of fst snd].
      by rewrite andb_false_r.
    + rewrite Hrow. cbv zeta. cbn [state_of fst snd]. by rewrite Hsame, E.
Qed.

(** * Review of a paper *)

(** X17. The status route of the admin: a status outside the five known
    names is answered 400 and changes nothing; otherwise the answer is a
    success even when no paper has the given event id, in which case nothing
    changes; the update never adds or removes a row, and leaves the event id,
    title, authors, abstract, size, payment reference, price and file path of
    every row as they were, as well as every row of another event. *)
Theorem status_update_touches_review_fields_only (now : Z) (eventId status : string)
    (notes : option string) (st : RelayState) :
  let r := Api.put_paper_status now eventId status notes st in
  let kept := fun row : ResearchPaper =>
    (event_id row, title row, paper_authors row, abstract row, size_bytes row,
     payment_hash row, price_paid row, file_path row) in
  (Api.parse_status status = None ->
   r = (Returned (Api.BadRequest "Invalid status"), st, []))
  /\ (is_Some (Api.parse_status status) -> completion r = Returned Api.Success)
  /\ map kept (research_papers (state_of r)) = map kept (research_papers st)
  /\ (forall i row,
        research_papers st !! i = Some row -> event_id row <> eventId ->
        research_papers (state_of r) !! i = Some row)
  /\ (eventId ∉ map event_id (research_papers st) -> state_of r = st)
  /\ state_of r = set_research_papers (fun _ => research_papers (state_of r)) st
  /\ sent r = [].
Proof.
  intros r kept. unfold r, Api.put_paper_status.
  destruct (Api.parse_status status) as [target|].
  2: { split; [done|]. split; [by intros [? [=]]|]. split; [done|]. split; [done|].
       split; [done|]. split; [by destruct st|done]. }
  unfold bind. rewrite updatePaperStatus_run. cbn [ret state_of sent completion fst snd app].
  split; [done|]. split; [done|]. cbn [research_papers set_research_papers].
  split; [|split; [|split; [|split; [by destruct st|done]]]].
  - rewrite map_map. apply map_ext. intros row. by destruct (String.eqb _ _).
  - intros i row Hrow Hne. rewrite list_lookup_fmap, Hrow. cbn.
    by rewrite (proj2 (String.eqb_neq _ _) Hne).
  - intros Hnone. destruct st as [ev rp li cfg sf subs os]. unfold set_research_papers.
    cbn in *. f_equal. induction rp as [|row rp IH]; [reflexivity|].
    cbn [map] in *. apply not_elem_of_cons in Hnone as [Hne Hnone].
    rewrite IH by done. by rewrite (proj2 (String.eqb_neq _ _) (not_eq_sym Hne)).
Qed.

(** * Deleting an event *)

Lemma unlink_each_run (locations : list string) (deleted : bool) (st : RelayState) :
  exists found,
    Storage.unlink_each locations deleted st
    = (Returned found,
       set_storage_files (fun files => foldl (fun m p => delete p m) files locations) st,
       []).
Proof.
  revert deleted st. induction locations as [|p rest IH]; intros deleted st.
  - exists deleted. by destruct st.
  - cbn [Storage.unlink_each foldl]. rewrite bind_gets.
    destruct (bool_decide (is_Some (storage_files st !! p))) eqn:E.
    + rewrite bind_modify. destruct (IH true (set_storage_files (delete p) st))
        as [found ->]. exists found. by destruct st.
    + apply bool_decide_eq_false_1 in E. rewrite <- eq_None_not_Some in E.
      destruct (IH deleted st) as [found ->]. exists found.
      unfold set_storage_files. by rewrite (delete_id _ _ E).
Qed.

Lemma find_by_id (id' : string) (rows : list NostrEvent) :
  is_Some (List.find (fun row => String.eqb (id row) id') rows) <-> id' ∈ map id rows.
Proof.
  induction rows as [|row rows IH]; cbn [List.find map].
  - rewrite elem_of_nil. split; [by intros [? [=]]|done].
  - rewrite elem_of_cons. destruct (String.eqb (id row) id') eqn:E.
    + apply String.eqb_eq in E. split; [by left|by eexists].
    + apply String.eqb_neq in E. rewrite IH. split; [by right|]. by intros [?|?].
Qed.

Lemma filter_out_key {A} (key : A -> string) (k : string) (rows : list A) :
  k ∉ map key (List.filter (fun row => negb (String.eqb (key row) k)) rows).
Proof.
  intros (row & -> & Hin)%list_elem_of_fmap.
  apply list_elem_of_In, List.filter_In in Hin as [_ Hne].
  by rewrite String.eqb_refl in Hne.
Qed.

Lemma delete_event_run (id' : string) (st : RelayState) :
  exists found : bool,
    Admin.delete_event id' st
    = if bool_decide (id' ∈ map id (events st))
      then (Returned (Admin.Deleted "Event deleted successfully"),
            mkState
              (List.filter (fun row => negb (String.eqb (id row) id')) (events st))
              (List.filter (fun row => negb (String.eqb (event_id row) id'))
                 (research_papers st))
              (lightning_invoices st) (relay_config st)
              (delete (Storage.legacy_path id')
                 (delete (Storage.comment_path id')
                    (delete (Storage.paper_path id') (storage_files st))))
              (subscriptions st) (open_sockets st),
            [])
      else (Returned (Admin.NotFound "Event not found"), st, []).
Proof.
  unfold Admin.delete_event. rewrite bind_gets.
  pose proof (find_by_id id' (events st)) as Hfind.
  destruct (List.find _ (events st)) as [row|].
  - rewrite bool_decide_eq_true_2 by (apply Hfind; by eexists).
    rewrite !bind_modify. unfold Storage.deleteContent, bind.
    edestruct unlink_each_run as [found ->]. exists found. by destruct st.
  - exists false. rewrite bool_decide_eq_false_2; [done|].
    intros Hin. apply Hfind in Hin. by destruct Hin.
Qed.

(** X18. Deleting an event through the admin route: an id that is not in
    the [events] table is answered 404 and nothing changes, even when a paper
    row or a file for that id exists; otherwise the rows of that id are
    removed from [events] and [research_papers] with the other rows kept in
    order, no content of that id can be read any more, and the invoices, the
    configuration and the subscriptions are as before. *)
Theorem delete_event_removes_rows_and_files (id' : string) (st : RelayState) :
  let r := Admin.delete_event id' st in
  (id' ∉ map id (events st) ->
   r = (Returned (Admin.NotFound "Event not found"), st, []))
  /\ (id' ∈ map id (events st) ->
      completion r = Returned (Admin.Deleted "Event deleted successfully")
      /\ events (state_of r)
         = List.filter (fun row => negb (String.eqb (id row) id')) (events st)
      /\ research_papers (state_of r)
         = List.filter (fun row => negb (String.eqb (event_id row) id'))
             (research_papers st)
      /\ (id' ∉ map id (events (state_of r)))
      /\ (id' ∉ map event_id (research_papers (state_of r)))
      /\ (forall type,
            Storage.getContent id' type (state_of r) = (Returned None, state_of r, [])))
  /\ lightning_invoices (state_of r) = lightning_invoices st
  /\ relay_config (state_of r) = relay_config st
  /\ subscriptions (state_of r) = subscriptions st
  /\ sent r = [].
Proof.
  intros r. unfold r. destruct (delete_event_run id' st) as [found ->].
  destruct (bool_decide (id' ∈ map id (events st))) eqn:E.
  - apply bool_decide_eq_true_1 in E. cbn [state_of sent completion fst snd].
    split; [done|]. split; [|done]. intros _.
    cbn [events research_papers storage_files].
    split; [done|]. split; [done|]. split; [done|].
    split; [apply (filter_out_key id)|]. split; [apply (filter_out_key event_id)|].
    assert (forall p,
              p ∈ [Storage.paper_path id'; Storage.comment_path id';
                   Storage.legacy_path id'] ->
              (delete (Storage.legacy_path id')
                 (delete (Storage.comment_path id')
                    (delete (Storage.paper_path id') (storage_files st)))) !! p
              = None)
      as Hgone.
    { intros p Hp. rewrite !lookup_delete.
      repeat match goal with |- context [decide ?P] => destruct (decide P) end;
        try done.
      rewrite !elem_of_cons, elem_of_nil in Hp.
      by destruct Hp as [?|[?|[?|[]]]]. }
    intros [[]|]; unfold Storage.getContent, gets;
      cbn [storage_files Storage.read_first];
      rewrite ?Hgone; try done;
      rewrite ?elem_of_cons; auto.
  - apply bool_decide_eq_false_1 in E. cbn [state_of sent completion fst snd].
    split; [done|]. split; [done|]. done.
Qed.

Lemma published_state_frame (event : NostrEvent) (price : JsNum) (st : RelayState) :
  let st' := Spec.published_state event price st in
  relay_config st' = relay_config st
  /\ lightning_invoices st' = lightning_invoices st
  /\ open_sockets st' = open_sockets st
  /\ subscriptions st' = subscriptions st
  /\ research_papers st'
     = research_papers st ++ [Db.stored_paper (Spec.paper_record event price)].
Proof.
  unfold Spec.published_state. rewrite saveEvent_run. cbn [state_of fst snd].
  by destruct (bool_decide _).
Qed.

(** What decides the fate of a paper once it passed the checks of another
    submission: if event [e1] was admitted in [st], then an event [e2] with
    the same payment reference and an acceptable size, submitted in a state
    with the same configuration and invoices, is published unless a row for
    it exists. *)
Lemma paper_outcome_transfer `{Sha256} (ws : WebSocket) (e1 e2 : NostrEvent)
    (st st' : RelayState) :
  validateEventSignature e1 = true -> kind e1 = 30023 ->
  validateEventSignature e2 = true -> kind e2 = 30023 ->
  ws ∈ open_sockets st -> ws ∈ open_sockets st' ->
  relay_config st' = relay_config st ->
  lightning_invoices st' = lightning_invoices st ->
  Spec.payment_reference e2 = Spec.payment_reference e1 ->
  num_gt (Num (calculateContentSize (content e2))) (Spec.max_content_size st) = false ->
  Spec.admitted ws e1 (Nostr.handleMessage ws (ClientEVENT e1) st) ->
  Nostr.handleMessage ws (ClientEVENT e2) st'
  = if negb (valid_date (created_at e2 * 1000))
                || bool_decide (id e2 ∈ map event_id (research_papers st'))
    then (Returned tt, st', [(ws, OK (id e2) false "Server error")])
    else (Returned tt, Spec.published_state e2 (Spec.quoted_amount st') st',
          (ws, OK (id e2) true "Paper published successfully")
          :: Trace.deliveries e2 (subscriptions st') (open_sockets st')).
Proof.
  intros Hv1 Hk1 Hv2 Hk2 Hopen Hopen' Hcfg Hinv Href Hsize [[reason Hok] _].
  assert (Spec.max_content_size st' = Spec.max_content_size st) as Hmax
    by (unfold Spec.max_content_size; by rewrite Hcfg).
  assert (Spec.quoted_amount st' = Spec.quoted_amount st) as Hquote
    by (unfold Spec.quoted_amount; by rewrite Hcfg).
  rewrite handleMessage_paper in Hok |- * by done. unfold try_catch in Hok |- *.
  rewrite handleResearchPaper_run in Hok |- *. rewrite Hmax, Hsize, Hquote, Hinv, Href.
  cbv zeta in Hok |- *.
  assert ((if negb (valid_date (created_at e2 * 1000))
                || bool_decide (id e2 ∈ map event_id (research_papers st'))
           then (Thrown, st', [])
           else (Returned tt, Spec.published_state e2 (Spec.quoted_amount st) st',
                 (if bool_decide (ws ∈ open_sockets st')
                  then [(ws, OK (id e2) true "Paper published successfully")]
                  else [])
                 ++ Trace.deliveries e2 (subscriptions st') (open_sockets st')))
          = (if negb (valid_date (created_at e2 * 1000))
                || bool_decide (id e2 ∈ map event_id (research_papers st'))
             then (Thrown, st', [])
             else (Returned tt, Spec.published_state e2 (Spec.quoted_amount st) st',
                   (ws, OK (id e2) true "Paper published successfully")
                   :: Trace.deliveries e2 (subscriptions st') (open_sockets st'))))
    as Hpub by (by rewrite (bool_decide_eq_true_2 _ Hopen')).
  assert (match (if negb (valid_date (created_at e2 * 1000))
                || bool_decide (id e2 ∈ map event_id (research_papers st'))
                 then (Thrown, st', [])
                 else (Returned tt, Spec.published_state e2 (Spec.quoted_amount st) st',
                       (if bool_decide (ws ∈ open_sockets st')
                        then [(ws, OK (id e2) true "Paper published successfully")]
                        else [])
                       ++ Trace.deliveries e2 (subscriptions st') (open_sockets st')))
          with
          | (Returned a, st1, out1) => (Returned a, st1, out1)
          | (Thrown, st1, out1) =>
              let '(r0, st2, out2) :=
                Nostr.sendOK ws (id e2) false "Server error" st1 in
              (r0, st2, out1 ++ out2)
          end
          = if negb (valid_date (created_at e2 * 1000))
                || bool_decide (id e2 ∈ map event_id (research_papers st'))
            then (Returned tt, st', [(ws, OK (id e2) false "Server error")])
            else (Returned tt, Spec.published_state e2 (Spec.quoted_amount st) st',
                  (ws, OK (id e2) true "Paper published successfully")
                  :: Trace.deliveries e2 (subscriptions st') (open_sockets st')))
    as Hgoal.
  { clear Hok. rewrite Hpub.
    destruct (negb _ || bool_decide _); [|done].
    by rewrite sendOK_run. }
  assert (forall text,
            (ws, OK (id e1) true reason)
            ∈ sent (let '(c, st1, out1) := Nostr.sendOK ws (id e1) false text st in
                    match c with
                    | Returned a => (Returned a, st1, out1)
                    | Thrown =>
                        let '(r, st2, out2) :=
                          Nostr.sendOK ws (id e1) false "Server error" st1 in
                        (r, st2, out1 ++ out2)
                    end) -> False) as Hno.
  { intros text Hin. rewrite sendOK_run in Hin by done. unfold sent in Hin.
    cbn [snd] in Hin. apply list_elem_of_singleton in Hin. discriminate Hin. }
  destruct (num_gt (Num (calculateContentSize (content e1))) (Spec.max_content_size st)).
  { by apply Hno in Hok. }
  destruct (num_gt (Spec.quoted_amount st) (Num 0)); [|exact Hgoal].
  destruct (Spec.payment_reference e1) as [hash|]; [|by apply Hno in Hok].
  destruct (lightning_invoices st !! hash) as [inv|]; [|by apply Hno in Hok].
  destruct (negb (paid inv)); [by apply Hno in Hok|].
  destruct (num_lt _ _); [by apply Hno in Hok|exact Hgoal].
Qed.

Lemma admitted_paper_fits `{Sha256} (ws : WebSocket) (event : NostrEvent)
    (st : RelayState) :
  validateEventSignature event = true -> kind event = 30023 ->
  ws ∈ open_sockets st ->
  Spec.admitted ws event (Nostr.handleMessage ws (ClientEVENT event) st) ->
  num_gt (Num (calculateContentSize (content event))) (Spec.max_content_size st) = false
  /\ (id event ∉ map event_id (research_papers st))
  /\ valid_date (created_at event * 1000) = true
  /\ Nostr.handleMessage ws (ClientEVENT event) st
     = (Returned tt, Spec.published_state event (Spec.quoted_amount st) st,
        (ws, OK (id event) true "Paper published successfully")
        :: Trace.deliveries event (subscriptions st) (open_sockets st)).
Proof.
  intros Hv Hk Hopen Hadm.
  destruct (num_gt (Num (calculateContentSize (content event)))
              (Spec.max_content_size st)) eqn:Hsize.
  { exfalso. pose proof (handleMessage_paper_oversize ws event st Hv Hk Hopen Hsize) as Hr.
    unfold Spec.rejected_with in Hr. rewrite Hr in Hadm.
    destruct Hadm as [[reason Hin] _]. unfold sent in Hin. cbn [snd] in Hin.
    apply list_elem_of_singleton in Hin. discriminate Hin. }
  split; [done|].
  pose proof (paper_outcome_transfer ws event event st st Hv Hk Hv Hk Hopen Hopen
                eq_refl eq_refl eq_refl Hsize Hadm) as Hrun.
  destruct (negb (valid_date (created_at event * 1000))
            || bool_decide (id event ∈ map event_id (research_papers st))) eqn:E.
  - exfalso. rewrite Hrun in Hadm. destruct Hadm as [[reason Hin] _].
    unfold sent in Hin. cbn [snd] in Hin.
    apply list_elem_of_singleton in Hin. discriminate Hin.
  - apply orb_false_iff in E as [Hdate E]. apply negb_false_iff in Hdate.
    apply bool_decide_eq_false_1 in E. by repeat split.
Qed.

(** X19. A published paper cannot be submitted again, but it can after
    the admin deleted it: the second submission of an admitted paper is
    answered "Server error" and changes nothing; deleting the event removes
    the paper row as well, and since neither the invoices nor the
    configuration are touched, the same event, with the same payment
    reference, is then admitted again. *)
Theorem deleted_paper_can_be_resubmitted `{Sha256} (ws : WebSocket)
    (event : NostrEvent) (st : RelayState) :
  validateEventSignature event = true -> kind event = 30023 ->
  ws ∈ open_sockets st ->
  Spec.admitted ws event (Nostr.handleMessage ws (ClientEVENT event) st) ->
  let st1 := state_of (Nostr.handleMessage ws (ClientEVENT event) st) in
  let deletion := Admin.delete_event (id event) st1 in
  let st2 := state_of deletion in
  Nostr.handleMessage ws (ClientEVENT event) st1
  = (Returned tt, st1, [(ws, OK (id event) false "Server error")])
  /\ completion deletion = Returned (Admin.Deleted "Event deleted successfully")
  /\ lightning_invoices st2 = lightning_invoices st
  /\ Spec.admitted ws event (Nostr.handleMessage ws (ClientEVENT event) st2).
Proof.
  intros Hv Hk Hopen Hadm st1 deletion st2.
  destruct (admitted_paper_fits ws event st Hv Hk Hopen Hadm)
    as (Hsize & Hnew & Hdate & Hrun).
  assert (st1 = Spec.published_state event (Spec.quoted_amount st) st) as Hst1
    by (unfold st1; by rewrite Hrun).
  destruct (published_state_frame event (Spec.quoted_amount st) st)
    as (Hcfg & Hinv & Ho & _ & Hpapers).
  rewrite <- Hst1 in Hcfg, Hinv, Ho, Hpapers.
  assert (ws ∈ open_sockets st1) as Hopen1 by (by rewrite Ho).
  assert (id event ∈ map event_id (research_papers st1)) as Hrow.
  { rewrite Hpapers, map_app. apply elem_of_app. right. by left. }
  assert (id event ∈ map id (events st1)) as Hstored.
  { rewrite Hst1. apply published_state_events. }
  split; [|split; [|split]].
  - rewrite (paper_outcome_transfer ws event event st st1) by done.
    by rewrite bool_decide_eq_true_2, orb_true_r.
  - unfold deletion. destruct (delete_event_run (id event) st1) as [found ->].
    by rewrite bool_decide_eq_true_2.
  - unfold st2, deletion. destruct (delete_event_run (id event) st1) as [found ->].
    by rewrite bool_decide_eq_true_2.
  - assert (relay_config st2 = relay_config st /\ lightning_invoices st2 = lightning_invoices st
            /\ open_sockets st2 = open_sockets st
            /\ id event ∉ map event_id (research_papers st2)) as (Hc2 & Hi2 & Ho2 & Hnew2).
    { unfold st2, deletion. destruct (delete_event_run (id event) st1) as [found ->].
      rewrite bool_decide_eq_true_2 by done. cbn [state_of fst snd].
      cbn [relay_config lightning_invoices open_sockets research_papers].
      split; [done|]. split; [done|]. split; [done|]. apply (filter_out_key event_id). }
    rewrite (paper_outcome_transfer ws event event st st2); try done.
    2: by rewrite Ho2.
    rewrite Hdate, bool_decide_eq_false_2 by done. cbn [negb orb]. split.
    + exists "Paper published successfully". unfold sent. cbn [snd]. by left.
    + apply published_state_events.
Qed.

Lemma deleted_paper_can_be_resubmitted_witness :
  Spec.admitted 1%nat Examples.paid_paper
    (@Nostr.handleMessage Examples.example_digest 1%nat (ClientEVENT Examples.paid_paper)
       (state_of (Admin.delete_event (id Examples.paid_paper)
          (state_of (@Nostr.handleMessage Examples.example_digest 1%nat
                       (ClientEVENT Examples.paid_paper) Examples.paid_state))))).
Proof.
  apply (@deleted_paper_can_be_resubmitted Examples.example_digest 1%nat
           Examples.paid_paper Examples.paid_state).
  - reflexivity.
  - reflexivity.
  - apply (bool_decide_unpack _). vm_compute. exact Logic.I.
  - split.
    + exists "Paper published successfully".
      apply (bool_decide_unpack _). vm_compute. exact Logic.I.
    + apply (bool_decide_unpack _). vm_compute. exact Logic.I.
Defined.

(** X20. A paid invoice is not used up by a publication: after a paper
    was admitted, a different paper that carries the same payment reference
    (or none, when the first needed none), fits the size limit and has a
    timestamp that is a valid date in milliseconds is admitted as well. *)
Theorem paid_invoice_admits_further_papers `{Sha256} (ws : WebSocket)
    (first second : NostrEvent) (st : RelayState) :
  validateEventSignature first = true -> kind first = 30023 ->
  validateEventSignature second = true -> kind second = 30023 ->
  ws ∈ open_sockets st ->
  Spec.payment_reference second = Spec.payment_reference first ->
  num_gt (Num (calculateContentSize (content second))) (Spec.max_content_size st)
  = false ->
  valid_date (created_at second * 1000) = true ->
  id second <> id first ->
  id second ∉ map event_id (research_papers st) ->
  Spec.admitted ws first (Nostr.handleMessage ws (ClientEVENT first) st) ->
  let st1 := state_of (Nostr.handleMessage ws (ClientEVENT first) st) in
  Spec.admitted ws second (Nostr.handleMessage ws (ClientEVENT second) st1)
  /\ lightning_invoices st1 = lightning_invoices st.
Proof.
  intros Hv1 Hk1 Hv2 Hk2 Hopen Href Hsize Hdate Hne Hnew Hadm st1.
  destruct (admitted_paper_fits ws first st Hv1 Hk1 Hopen Hadm) as (_ & _ & _ & Hrun).
  assert (st1 = Spec.published_state first (Spec.quoted_amount st) st) as Hst1
    by (unfold st1; by rewrite Hrun).
  destruct (published_state_frame first (Spec.quoted_amount st) st)
    as (Hcfg & Hinv & Ho & _ & Hpapers).
  rewrite <- Hst1 in Hcfg, Hinv, Ho, Hpapers.
  split; [|done].
  rewrite (paper_outcome_transfer ws first second st st1); try done.
  2: by rewrite Ho.
  rewrite Hdate, bool_decide_eq_false_2.
  - cbn [negb orb]. split.
    + exists "Paper published successfully". unfold sent. cbn [snd]. by left.
    + apply published_state_events.
  - rewrite Hpapers, map_app. intros [Hin|Hin]%elem_of_app; [done|].
    cbn in Hin. apply list_elem_of_singleton in Hin. done.
Qed.

Lemma paid_invoice_admits_further_papers_witness :
  Spec.admitted 1%nat Examples.second_paid_paper
    (@Nostr.handleMessage Examples.example_digest 1%nat
       (ClientEVENT Examples.second_paid_paper)
       (state_of (@Nostr.handleMessage Examples.example_digest 1%nat
                    (ClientEVENT Examples.paid_paper) Examples.paid_state))).
Proof.
  apply (@paid_invoice_admits_further_papers Examples.example_digest 1%nat
           Examples.paid_paper Examples.second_paid_paper Examples.paid_state).
  - reflexivity.
  - reflexivity.
  - reflexivity.
  - reflexivity.
  - apply (bool_decide_unpack _). vm_compute. exact Logic.I.
  - reflexivity.
  - reflexivity.
  - reflexivity.
  - apply (bool_decide_unpack _). vm_compute. exact Logic.I.
  - apply not_elem_of_nil.
  - split.
    + exists "Paper published successfully".
      apply (bool_decide_unpack _). vm_compute. exact Logic.I.
    + apply (bool_decide_unpack _). vm_compute. exact Logic.I.
Defined.

(** * Mock mode *)

(** X21. Without a wallet the relay publishes for free: take a paper,
    with a timestamp that is a valid date in milliseconds, that needs a
    payment of [A], a safe integer; an invoice made by [createMockInvoice] for
    that amount and stored under the hash the paper refers to is not enough,
    the paper is refused as not paid; but one call of the payment status
    route, which in mock mode reports every invoice as paid whatever the
    backend knows, marks the invoice paid, and the paper is admitted. *)
Theorem mock_mode_publishes_without_payment `{Sha256} (ws : WebSocket)
    (event : NostrEvent) (h : string) (A now now' : Z) (ledger : Lightning.Ledger)
    (st : RelayState) :
  validateEventSignature event = true -> kind event = 30023 ->
  ws ∈ open_sockets st ->
  valid_date (created_at event * 1000) = true ->
  id event ∉ map event_id (research_papers st) ->
  num_gt (Num (calculateContentSize (content event))) (Spec.max_content_size st) = false ->
  Spec.quoted_amount st = Num A -> 0 < A <= MAX_SAFE_INTEGER ->
  Spec.payment_reference event = Some h ->
  lightning_invoices st !! h = None ->
  let invoice :=
    Lightning.createMockInvoice A ("Research paper storage: " +:+ id event) 3600 h now in
  let st1 := state_of (Db.saveLightningInvoice (fst invoice) (snd invoice) st) in
  let check := Api.get_payment Lightning.Mock ledger now' h st1 in
  let st2 := state_of check in
  Spec.rejected_with ws event "Payment not completed" st1
    (Nostr.handleMessage ws (ClientEVENT event) st1)
  /\ completion check
     = Returned (Api.PaymentStatus true (Some now') A (now + 3600 * 1000))
  /\ Spec.admitted ws event (Nostr.handleMessage ws (ClientEVENT event) st2).
Proof.
  intros Hv Hk Hopen Hdate Hnew Hsize Hq [HA _] Href Hfresh invoice st1 check st2.
  set (row := mkInvoice
                ("lnbc" +:+ pretty A +:+ "u1p" +:+ substring 0 10 h +:+ "mock") A
                ("Research paper storage: " +:+ id event) (now + 3600 * 1000) false None).
  assert (st1 = set_lightning_invoices (fun _ => <[h := row]> (lightning_invoices st)) st)
    as Hst1.
  { unfold st1, invoice, Lightning.createMockInvoice, Db.saveLightningInvoice, modify,
      state_of. cbn [fst snd]. unfold set_lightning_invoices. by rewrite Hfresh. }
  assert (lightning_invoices st1 !! h = Some row) as Hrow1.
  { rewrite Hst1. cbn [lightning_invoices set_lightning_invoices].
    by rewrite lookup_insert, decide_True. }
  assert (check
          = (Returned (Api.PaymentStatus true (Some now') A (now + 3600 * 1000)),
             state_of (Db.markInvoicePaid h now' st1), [])) as Hcheck.
  { unfold check. rewrite get_payment_run, Hrow1. reflexivity. }
  assert (lightning_invoices st2 !! h
          = Some (mkInvoice (payment_request row) A (description row)
                    (now + 3600 * 1000) true (Some now'))) as Hrow2.
  { unfold st2. rewrite Hcheck. cbn [state_of fst snd].
    by rewrite markInvoicePaid_rows, lookup_alter, decide_True, Hrow1. }
  assert (forall st', st' = st1 \/ st' = st2 ->
            ws ∈ open_sockets st'
            /\ (id event ∉ map event_id (research_papers st'))
            /\ num_gt (Num (calculateContentSize (content event)))
                 (Spec.max_content_size st') = false
            /\ Spec.quoted_amount st' = Num A) as Hframe.
  { intros st' [->| ->]; [rewrite Hst1|unfold st2; rewrite Hcheck, Hst1]; by destruct st. }
  split; [|split; [by rewrite Hcheck|]].
  - destruct (Hframe st1) as (Ho & Hn & Hs & Hq'); [by left|].
    pose proof (handleMessage_paper_verdict ws event st1 A Hv Hk Ho Hdate Hn Hs Hq' HA)
      as Hr.
    cbv zeta in Hr. by rewrite Href, Hrow1 in Hr.
  - destruct (Hframe st2) as (Ho & Hn & Hs & Hq'); [by right|].
    pose proof (handleMessage_paper_verdict ws event st2 A Hv Hk Ho Hdate Hn Hs Hq' HA)
      as Hr.
    cbv zeta in Hr. rewrite Href, Hrow2 in Hr. cbn [paid negb amount_sats] in Hr.
    rewrite Z.ltb_irrefl in Hr. rewrite Hr. split.
    + exists "Paper published successfully". unfold sent. cbn [snd]. by left.
    + apply published_state_events.
Qed.

Lemma mock_mode_publishes_without_payment_witness :
  Spec.admitted 1%nat Examples.paid_paper
    (@Nostr.handleMessage Examples.example_digest 1%nat (ClientEVENT Examples.paid_paper)
       (state_of
          (Api.get_payment Lightning.Mock Examples.unsettled_ledger 20 "inv1"
             (state_of
                (Db.saveLightningInvoice "inv1"
                   (snd (Lightning.createMockInvoice 1
                           ("Research paper storage: " +:+ id Examples.paid_paper)
                           3600 "inv1" 10))
                   Examples.open_state))))).
Proof.
  apply (@mock_mode_publishes_without_payment Examples.example_digest 1%nat
           Examples.paid_paper "inv1" 1 10 20 Examples.unsettled_ledger
           Examples.open_state).
  - reflexivity.
  - reflexivity.
  - apply (bool_decide_unpack _). vm_compute. exact Logic.I.
  - reflexivity.
  - apply not_elem_of_nil.
  - reflexivity.
  - reflexivity.
  - unfold MAX_SAFE_INTEGER. lia.
  - reflexivity.
  - reflexivity.
Defined.

(** * The signature field *)

(** X22. The [sig] field of an event is never read: replacing it by any
    text leaves the validation result as it was, and an event that passes
    validation and is not a paper is acknowledged whatever its signature
    field holds, and stored with that field unless a row with its id
    exists. *)
Theorem signature_field_is_not_checked `{Sha256} (ws : WebSocket) (event : NostrEvent)
    (forged : string) (st : RelayState) :
  let event' :=
    mkEvent (id event) (pubkey event) (created_at event) (kind event) (tags event)
      (content event) forged in
  let r := Nostr.handleMessage ws (ClientEVENT event') st in
  validateEventSignature event' = validateEventSignature event
  /\ (validateEventSignature event = true -> kind event <> 30023 ->
      ws ∈ open_sockets st ->
      Spec.admitted ws event' r
      /\ (id event ∉ map id (events st) -> event' ∈ events (state_of r))).
Proof.
  intros event' r. split; [reflexivity|]. intros Hv Hk Hopen.
  assert (validateEventSignature event' = true) as Hv' by exact Hv.
  assert (forall st1 : RelayState,
            events st1 = events st -> id event ∉ map id (events st) ->
            event' ∈ events (state_of (Db.saveEvent event' st1))) as Hstored.
  { intros st1 E Hnew. rewrite saveEvent_run. cbn [state_of fst snd].
    rewrite bool_decide_eq_false_2 by (by rewrite E).
    cbn [events set_events]. apply elem_of_app. right. by left. }
  unfold r.
  destruct (decide (kind event = 1)) as [Hk1|Hk1];
    [|destruct (decide (kind event = 1111)) as [Hk2|Hk2]].
  - rewrite handleMessage_comment_reply, (bool_decide_eq_true_2 _ Hopen) by done.
    cbn [state_of fst snd]. split; [|by apply Hstored].
    split; [|apply saveEvent_events]. exists "". unfold sent. cbn [snd]. by left.
  - split; [by apply comment_admitted_unpaid|].
    rewrite handleMessage_comment_any by done. cbn [state_of fst snd]. by apply Hstored.
  - rewrite handleMessage_free_kind, (bool_decide_eq_true_2 _ Hopen) by done.
    cbn [state_of fst snd]. split; [|by apply Hstored].
    split; [|apply saveEvent_events]. exists "". unfold sent. cbn [snd]. by left.
Qed.

Lemma signature_field_is_not_checked_witness :
  Spec.admitted 1%nat
    (mkEvent (id Examples.note) "alice" 1700000000 1 [["t"; "rocq"]] "hello" "forged")
    (@Nostr.handleMessage Examples.example_digest 1%nat
       (ClientEVENT
          (mkEvent (id Examples.note) "alice" 1700000000 1 [["t"; "rocq"]] "hello"
             "forged"))
       Examples.open_state).
Proof.
  apply (@signature_field_is_not_checked Examples.example_digest 1%nat Examples.note
           "forged" Examples.open_state).
  - reflexivity.
  - discriminate.
  - apply (bool_decide_unpack _). vm_compute. exact Logic.I.
Defined.

(** * The earlier handler for papers *)

(** X23. The earlier [handleResearchPaper] asks for no payment: a paper
    within the size limit that has no row yet is recorded as submitted, with
    no payment reference and no price, the client is told the per-megabyte
    quote in a NOTICE and receives a positive OK; the event itself is not
    stored in [events] and nothing is pushed to subscribers.  When a row for
    the event exists, the insert fails and the exception leaves the handler
    with nothing sent. *)
Theorem legacy_paper_recorded_without_payment (ws : WebSocket) (event : NostrEvent)
    (st : RelayState) :
  ws ∈ open_sockets st ->
  num_gt (Num (calculateContentSize (content event))) (Spec.max_content_size st) = false ->
  let r := NostrLegacy.handleResearchPaper ws event st in
  (id event ∉ map event_id (research_papers st) ->
   completion r = Returned tt
   /\ (forall quote,
         price_sats <$> returned
           (PricingPerMb.calculatePrice (calculateContentSize (content event)) 1 st)
         = Some quote ->
         sent r
         = [(ws, NOTICE ("Paper submitted. Price: " +:+ num_to_string quote
                           +:+ " sats. Use /get-invoice endpoint to pay."));
            (ws, OK (id event) true "")])
   /\ events (state_of r) = events st
   /\ lightning_invoices (state_of r) = lightning_invoices st
   /\ exists row,
        research_papers (state_of r) = research_papers st ++ [row]
        /\ event_id row = id event /\ status row = submitted
        /\ payment_hash row = None /\ price_paid row = None
        /\ published_at row = None)
  /\ (id event ∈ map event_id (research_papers st) -> r = (Thrown, st, [])).
Proof.
  intros Hopen Hsize r. unfold r.
  unfold NostrLegacy.handleResearchPaper, Db.getConfig. rewrite bind_gets.
  fold (Spec.max_content_size st). rewrite Hsize.
  unfold PricingPerMb.calculatePrice, Db.getConfig.
  rewrite bind_bind, !bind_gets, bind_ret. cbn [price_sats].
  match goal with
  | |- context [bind (Db.saveResearchPaper ?paper) _ _] =>
      pose proof (saveResearchPaper_run paper st) as Hsave
  end.
  cbn [published_at event_id from_option negb orb] in Hsave.
  split; intros Hrow.
  - rewrite (bool_decide_eq_false_2 _ Hrow) in Hsave.
    rewrite (bind_returned _ _ _ _ _ Hsave). cbv beta.
    unfold Nostr.storage_saveResearchPaper. rewrite bind_modify.
    unfold bind. rewrite sendMessage_run, sendOK_run by done.
    cbn [open_sockets set_storage_files set_research_papers].
    rewrite (bool_decide_eq_true_2 _ Hopen).
    cbn [completion sent state_of fst snd app ret returned fmap option_fmap option_map
         price_sats events lightning_invoices research_papers].
    split; [done|]. split; [by intros quote [= <-]|]. split; [done|]. split; [done|].
    eexists. split; [reflexivity|]. done.
  - rewrite (bool_decide_eq_true_2 _ Hrow) in Hsave.
    unfold bind at 1. by rewrite Hsave.
Qed.

Lemma legacy_paper_recorded_without_payment_witness :
  completion (NostrLegacy.handleResearchPaper 1%nat Examples.unpaid_paper
                Examples.open_state)
  = Returned tt.
Proof.
  apply (legacy_paper_recorded_without_payment 1%nat Examples.unpaid_paper
           Examples.open_state).
  - apply (bool_decide_unpack _). vm_compute. exact Logic.I.
  - reflexivity.
  - apply not_elem_of_nil.
Defined.

(** * The per-megabyte pricing service *)

Lemma Qceiling_nonneg (x : Q) : (0 <= x)%Q -> 0 <= Qceiling x.
Proof.
  intros Hx. rewrite Zle_Qle. change (inject_Z 0) with 0%Q.
  eapply Qle_trans; [exact Hx|apply Qle_ceiling].
Qed.

Lemma Qceiling_pos (x : Q) : (0 < x)%Q -> 1 <= Qceiling x.
Proof.
  intros Hx. assert (0 < Qceiling x); [|lia].
  rewrite Zlt_Qlt. change (inject_Z 0) with 0%Q.
  eapply Qlt_le_trans; [exact Hx|apply Qle_ceiling].
Qed.

Lemma size_mb_nonneg (size : Z) :
  0 <= size -> (0 <= inject_Z size / inject_Z (1024 * 1024))%Q.
Proof.
  intros Hs. apply Qle_shift_div_l; [reflexivity|].
  rewrite Qmult_0_l. change 0%Q with (inject_Z 0). by rewrite <- Zle_Qle.
Qed.

Lemma size_mb_mono (size size' : Z) :
  size <= size' ->
  (inject_Z size / inject_Z (1024 * 1024) <= inject_Z size' / inject_Z (1024 * 1024))%Q.
Proof.
  intros Hs. unfold Qdiv. apply Qmult_le_compat_r; [by rewrite <- Zle_Qle|done].
Qed.

(** X24. The per-megabyte quotes, for sizes, rates and a duration that
    are integers with products below [2^53], which the arithmetic computes
    exactly: for a configured rate that is not negative, a duration that is
    not negative and sizes [0 <= size <= size'], the quote for a paper is
    not negative and grows with the size; it is at least 1 as soon as size
    and rate are positive and the duration is at least 1, and 0 when the size
    or the rate is 0.  The quote for a comment is never below 1, whatever the
    sign of the configured comment rate. *)
Theorem per_megabyte_quote_bounds (size size' rate commentRate years : Z)
    (st : RelayState) :
  parseInt (or_default (truthy_str (relay_config st !! "price_per_mb_year")) "1000")
  = Num rate ->
  parseInt (or_default (truthy_str (relay_config st !! "price_per_comment_mb")) "100")
  = Num commentRate ->
  0 <= rate < 2 ^ 53 -> 0 <= years < 2 ^ 53 -> 0 <= size <= size' ->
  size' < 2 ^ 53 -> size' * rate < 2 ^ 53 -> size' * rate * years < 2 ^ 53 ->
  Z.abs commentRate < 2 ^ 53 -> size * Z.abs commentRate < 2 ^ 53 ->
  exists p p' q,
    price_sats <$> returned (PricingPerMb.calculatePrice size (inject_Z years) st)
    = Some (Num p)
    /\ price_sats <$> returned (PricingPerMb.calculatePrice size' (inject_Z years) st)
       = Some (Num p')
    /\ price_sats <$> returned (PricingPerMb.calculateCommentPrice size st)
       = Some (Num q)
    /\ 0 <= p <= p'
    /\ (0 < size -> 0 < rate -> 1 <= years -> 1 <= p)
    /\ (size = 0 \/ rate = 0 -> p = 0)
    /\ 1 <= q
    /\ (commentRate <= 0 -> q = 1).
Proof.
  intros Hrate Hcomment [Hr _] [Hyears _] [Hs Hss] _ _ _ _ _.
  assert (0 <= inject_Z years)%Q as Hy
    by (change 0%Q with (inject_Z 0); by rewrite <- Zle_Qle).
  unfold PricingPerMb.calculatePrice, PricingPerMb.calculateCommentPrice, Db.getConfig.
  rewrite !bind_gets, Hrate, Hcomment.
  cbn [ret returned completion fst fmap option_fmap option_map price_sats
       PricingPerMb.to_Q PricingPerMb.math_ceil PricingPerMb.max_one].
  do 3 eexists. split; [reflexivity|]. split; [reflexivity|]. split; [reflexivity|].
  assert (0 <= inject_Z rate)%Q as Hr'
    by (change 0%Q with (inject_Z 0); by rewrite <- Zle_Qle).
  split; [split|split; [|split; [|split]]].
  - apply Qceiling_nonneg. apply Qmult_le_0_compat; [|done].
    apply Qmult_le_0_compat; [|done]. by apply size_mb_nonneg.
  - apply Qceiling_resp_le. apply Qmult_le_compat_r; [|done].
    apply Qmult_le_compat_r; [|done]. by apply size_mb_mono.
  - intros Hs0 Hr0 Hy1. apply Qceiling_pos.
    assert (0 < inject_Z years)%Q as Hy0
      by (change 0%Q with (inject_Z 0); rewrite <- Zlt_Qlt; lia).
    apply Qmult_lt_0_compat; [|done]. apply Qmult_lt_0_compat.
    + apply Qlt_shift_div_l; [reflexivity|]. rewrite Qmult_0_l.
      change 0%Q with (inject_Z 0). by rewrite <- Zlt_Qlt.
    + change 0%Q with (inject_Z 0). by rewrite <- Zlt_Qlt.
  - intros [-> | ->].
    + apply (Qceiling_comp _ 0%Q). unfold Qdiv. by rewrite !Qmult_0_l.
    + apply (Qceiling_comp _ 0%Q). by rewrite Qmult_0_r, Qmult_0_l.
  - lia.
  - intros Hc.
    assert (Qceiling (inject_Z size / inject_Z (1024 * 1024) * inject_Z commentRate) <= 0);
      [|lia].
    change 0 with (Qceiling 0). apply Qceiling_resp_le.
    rewrite <- (Qmult_0_r (inject_Z size / inject_Z (1024 * 1024))).
    rewrite !(Qmult_comm (inject_Z size / inject_Z (1024 * 1024))).
    apply Qmult_le_compat_r; [|by apply size_mb_nonneg].
    change 0%Q with (inject_Z 0). by rewrite <- Zle_Qle.
Qed.

Lemma per_megabyte_quote_bounds_witness :
  exists p p' q,
    price_sats <$> returned
      (PricingPerMb.calculatePrice 1 (inject_Z 1) Examples.rate_state)
    = Some (Num p)
    /\ price_sats <$> returned
         (PricingPerMb.calculatePrice 3145728 (inject_Z 1) Examples.rate_state)
       = Some (Num p')
    /\ price_sats <$> returned (PricingPerMb.calculateCommentPrice 1 Examples.rate_state)
       = Some (Num q)
    /\ 0 <= p <= p'
    /\ (0 < 1 -> 0 < 1000 -> 1 <= 1 -> 1 <= p)
    /\ (1 = 0 \/ 1000 = 0 -> p = 0)
    /\ 1 <= q
    /\ (100 <= 0 -> q = 1).
Proof.
  apply (per_megabyte_quote_bounds 1 3145728 1000 100 1 Examples.rate_state).
  - reflexivity.
  - reflexivity.
  - lia.
  - lia.
  - lia.
  - lia.
  - lia.
  - lia.
  - lia.
  - lia.
Defined.

(** * Papers that cannot be dated *)

(** X25. A paper whose timestamp, in milliseconds, is outside the range
    of [Date] is never published, paid or not: whatever it is answered, the
    answer is a single negative OK and the state is unchanged; and when it
    is within the size limit and passes the payment check (or needs none),
    the answer is "Server error", since the insert of its record fails on
    the date. *)
Theorem undatable_paper_server_error `{Sha256} (ws : WebSocket) (event : NostrEvent)
    (st : RelayState) :
  validateEventSignature event = true -> kind event = 30023 ->
  safe_integer (created_at event) ->
  valid_date (created_at event * 1000) = false ->
  ws ∈ open_sockets st ->
  let r := Nostr.handleMessage ws (ClientEVENT event) st in
  (exists reason, Spec.rejected_with ws event reason st r)
  /\ (num_gt (Num (calculateContentSize (content event))) (Spec.max_content_size st)
      = false ->
      num_gt (Spec.quoted_amount st) (Num 0) = false
      \/ (exists A, Spec.quoted_amount st = Num A /\ 0 < A <= MAX_SAFE_INTEGER
                    /\ Spec.payment_verified st event A) ->
      Spec.rejected_with ws event "Server error" st r).
Proof.
  intros Hv Hk _ Hdate Hopen r.
  assert (num_gt (Num (calculateContentSize (content event))) (Spec.max_content_size st)
          = false ->
          num_gt (Spec.quoted_amount st) (Num 0) = false ->
          Spec.rejected_with ws event "Server error" st r) as Hfree.
  { intros Hsize Hq. unfold r, Spec.rejected_with.
    rewrite handleMessage_paper by done. unfold try_catch.
    rewrite handleResearchPaper_run, Hsize. cbv zeta. rewrite Hq, Hdate.
    cbn [negb orb]. by rewrite sendOK_run. }
  split.
  - destruct (num_gt (Num (calculateContentSize (content event)))
                (Spec.max_content_size st)) eqn:Hsize.
    { exists "Content too large". by apply handleMessage_paper_oversize. }
    destruct (num_gt (Spec.quoted_amount st) (Num 0)) eqn:Hq.
    2: { exists "Server error". by apply Hfree. }
    destruct (Spec.quoted_amount st) as [|A] eqn:HA; [discriminate Hq|].
    cbn [num_gt] in Hq. apply Z.ltb_lt in Hq.
    apply (handleMessage_paper_insert_fails ws event st A); try done.
    by rewrite Hdate.
  - intros Hsize [Hq | (A & HA & [Hpos _] & Hpaid)]; [by apply Hfree|].
    apply (handleMessage_paper_insert_fails ws event st A); try done.
    by rewrite Hdate.
Qed.

Lemma undatable_paper_server_error_witness :
  @Nostr.handleMessage Examples.example_digest 1%nat
    (ClientEVENT Examples.undated_paper) Examples.paid_state
  = (Returned tt, Examples.paid_state,
     [(1%nat, OK (id Examples.undated_paper) false "Server error")]).
Proof.
  assert (safe_integer (created_at Examples.undated_paper)) as Hsafe
    by (unfold safe_integer, MAX_SAFE_INTEGER; cbn; lia).
  assert ((1%nat : WebSocket) ∈ open_sockets Examples.paid_state) as Hopen
    by (apply (bool_decide_unpack _); vm_compute; exact Logic.I).
  destruct (@undatable_paper_server_error Examples.example_digest 1%nat
              Examples.undated_paper Examples.paid_state eq_refl eq_refl Hsafe eq_refl
              Hopen) as [_ Herror].
  apply Herror; [reflexivity|]. right. exists 1.
  split; [reflexivity|]. split; [unfold MAX_SAFE_INTEGER; lia|].
  exists "inv1", (mkInvoice "lnbc1" 1 "Research paper storage" 0 true (Some 0)).
  repeat split; first [vm_compute; reflexivity | cbn; lia].
Defined.
